(** * RoadColor: colour parsing, conversion, blending and palettes

    A shallow embedding of [src/roadcolor/color.py] and the properties
    stated about it.

    Conventions of the embedding.
    - Python [int] is [Z]; [//] is [Z.div] and [%] is [Z.modulo] (both
      floor towards minus infinity, as in Python).
    - Python [float] is the primitive binary64 [float] of Rocq, with the
      primitive IEEE-754 operations (round to nearest, ties to even).
    - Python [str] is [string], for the strings whose characters are all
      ASCII ([py_isascii]): on these the classes of spaces, digits and
      letters of Python are the ones written out below.  Outside ASCII
      Python knows more spaces, digits and letters than the definitions
      here; a property that depends on them is stated for ASCII strings.
    - An exception is a value of [exn]; a function that can raise returns
      [result]. *)

From Stdlib Require Import ZArith Bool List Ascii String Floats Lia.
Import ListNotations.

#[local] Set Warnings "-inexact-float".
#[local] Open Scope Z_scope.

(** ** Exceptions *)

Inductive exn : Type :=
| ValueError
| ZeroDivisionError
| OverflowError.

Inductive result (A : Type) : Type :=
| Ok (a : A)
| Raise (e : exn).

Arguments Ok {A} a.
Arguments Raise {A} e.

Definition bind {A B : Type} (m : result A) (k : A -> result B) : result B :=
  match m with
  | Ok a => k a
  | Raise e => Raise e
  end.

Declare Scope py_scope.
Delimit Scope py_scope with py.
Notation "x <- m ;; k" := (bind m (fun x => k))
  (at level 61, m at next level, right associativity) : py_scope.
Notation "' p <- m ;; k" := (bind m (fun p => k))
  (at level 61, p pattern, m at next level, right associativity) : py_scope.
#[local] Open Scope py_scope.

Fixpoint mapM {A B : Type} (f : A -> result B) (l : list A) : result (list B) :=
  match l with
  | [] => Ok []
  | a :: l' => b <- f a ;; bs <- mapM f l' ;; Ok (b :: bs)
  end.

(** ** Python numbers *)

(** [range(n)]: the integers [0, 1, ..., n-1]; empty when [n <= 0]. *)
Definition range (n : Z) : list Z := map Z.of_nat (seq 0 (Z.to_nat n)).

Definition clamp (lo hi x : Z) : Z := Z.max lo (Z.min hi x).

(** An integer as an exact (unrounded) binary number [m * 2^0]. *)
Definition Z2SF (z : Z) : spec_float :=
  match z with
  | Z0 => S754_zero false
  | Zpos p => S754_finite false p 0
  | Zneg p => S754_finite true p 0
  end.

(** [a / b] on two ints: the exact quotient, rounded once to binary64. *)
Definition py_truediv (a b : Z) : result float :=
  if b =? 0 then Raise ZeroDivisionError
  else match SFdiv prec emax (Z2SF a) (Z2SF b) with
       | S754_infinity _ => Raise OverflowError
       | q => Ok (SF2Prim q)
       end.

(** [float(z)], the conversion Python applies to an int operand that
    meets a float operand. *)
Definition py_float (z : Z) : result float :=
  match binary_normalize prec emax z 0 false with
  | S754_infinity _ => Raise OverflowError
  | q => Ok (SF2Prim q)
  end.

(** [x / y] on floats. *)
Definition py_fdiv (x y : float) : result float :=
  if (y =? 0)%float then Raise ZeroDivisionError else Ok (x / y)%float.

(** [int(x)] on a float: truncation towards zero. *)
Definition py_int (x : float) : result Z :=
  match Prim2SF x with
  | S754_zero _ => Ok 0
  | S754_finite s m e =>
      Ok (cond_Zopp s (match e with
                       | Z0 => Zpos m
                       | Zpos _ => Z.shiftl (Zpos m) e
                       | Zneg p => Z.shiftr (Zpos m) (Zpos p)
                       end))
  | S754_infinity _ => Raise OverflowError
  | S754_nan => Raise ValueError
  end.

(** C's [fmod(x, 1.0)]: the fractional part of [x], with the sign of [x]. *)
Definition fmod1 (x : float) : float :=
  match Prim2SF x with
  | S754_zero _ => x
  | S754_finite s m e =>
      match e with
      | Zneg p =>
          SF2Prim (binary_normalize prec emax
                     (cond_Zopp s (Zpos m mod 2 ^ Zpos p)) e s)
      | _ => if s then neg_zero else zero
      end
  | _ => nan
  end.

(** [x % 1.0] on a float. *)
Definition py_mod1 (x : float) : float :=
  let m := fmod1 x in
  if (m =? 0)%float then zero
  else if (m <? 0)%float then (m + 1)%float
  else m.

(** [max(a, b, c)] and [min(a, b, c)]: the first of the greatest (least). *)
Definition py_max3 (a b c : float) : float :=
  let m := if (a <? b)%float then b else a in
  if (m <? c)%float then c else m.

Definition py_min3 (a b c : float) : float :=
  let m := if (b <? a)%float then b else a in
  if (c <? m)%float then c else m.

Definition py_max2 (a b : float) : float := if (a <? b)%float then b else a.
Definition py_min2 (a b : float) : float := if (b <? a)%float then b else a.

(** A number that is an int or a float, for arguments Python leaves
    untyped (the [ratio] of [blend]). *)
Inductive pynum : Type :=
| PyInt (z : Z)
| PyFloat (f : float).

Definition to_float (x : pynum) : result float :=
  match x with
  | PyInt z => py_float z
  | PyFloat f => Ok f
  end.

Definition num_binop (fz : Z -> Z -> Z) (ff : float -> float -> float)
    (x y : pynum) : result pynum :=
  match x, y with
  | PyInt a, PyInt b => Ok (PyInt (fz a b))
  | _, _ => a <- to_float x ;; b <- to_float y ;; Ok (PyFloat (ff a b))
  end.

Definition num_add := num_binop Z.add PrimFloat.add.
Definition num_sub := num_binop Z.sub PrimFloat.sub.
Definition num_mul := num_binop Z.mul PrimFloat.mul.

Definition num_int (x : pynum) : result Z :=
  match x with
  | PyInt z => Ok z
  | PyFloat f => py_int f
  end.

(** [a // b] on two ints. *)
Definition py_floordiv (a b : Z) : result Z :=
  if b =? 0 then Raise ZeroDivisionError else Ok (a / b).

(** ** Python strings *)

Definition code (c : ascii) : Z := Z.of_nat (nat_of_ascii c).

(** [str.isascii]: every character is below 128. *)
Definition is_ascii (c : ascii) : bool := code c <? 128.

(** [str.isspace] on an ASCII character; also the class [\s] of [re]. *)
Definition py_isspace (c : ascii) : bool :=
  let n := code c in
  ((9 <=? n) && (n <=? 13)) || ((28 <=? n) && (n <=? 32)).

(** C's [isspace] on an ASCII character: the whitespace [int] skips
    around the digits of an ASCII string.  The separators 28 to 31 are
    spaces for [str.isspace] but not here. *)
Definition c_isspace (c : ascii) : bool :=
  let n := code c in
  ((9 <=? n) && (n <=? 13)) || (n =? 32).

(** The class [\d] of [re], on an ASCII character. *)
Definition is_digit (c : ascii) : bool :=
  let n := code c in (48 <=? n) && (n <=? 57).

Definition lower_char (c : ascii) : ascii :=
  let n := code c in
  if (65 <=? n) && (n <=? 90) then ascii_of_nat (nat_of_ascii c + 32) else c.

Fixpoint py_lower (s : string) : string :=
  match s with
  | EmptyString => EmptyString
  | String c s' => String (lower_char c) (py_lower s')
  end.

(** [s.lstrip(chars)] for the characters satisfying [p]. *)
Fixpoint lstrip (p : ascii -> bool) (s : string) : string :=
  match s with
  | EmptyString => EmptyString
  | String c s' => if p c then lstrip p s' else s
  end.

Fixpoint rstrip (p : ascii -> bool) (s : string) : string :=
  match s with
  | EmptyString => EmptyString
  | String c s' =>
      match rstrip p s' with
      | EmptyString => if p c then EmptyString else String c EmptyString
      | t => String c t
      end
  end.

Definition py_strip (s : string) : string := rstrip py_isspace (lstrip py_isspace s).

(** The rest of [s] after [pre], if [s] starts with it. *)
Fixpoint lit (pre s : string) : option string :=
  match pre with
  | EmptyString => Some s
  | String c pre' =>
      match s with
      | String d s' => if Ascii.eqb c d then lit pre' s' else None
      | EmptyString => None
      end
  end.

Definition startswith (s pre : string) : bool :=
  match lit pre s with Some _ => true | None => false end.

(** [s[i:j]] for [0 <= i <= j]. *)
Definition slice (s : string) (i j : nat) : string := substring i (j - i) s.

(** The longest prefix of [s] whose characters satisfy [p], and the rest. *)
Fixpoint span (p : ascii -> bool) (s : string) : string * string :=
  match s with
  | EmptyString => (EmptyString, EmptyString)
  | String c s' =>
      if p c then let '(a, rest) := span p s' in (String c a, rest)
      else (EmptyString, s)
  end.

Fixpoint all_chars (p : ascii -> bool) (s : string) : bool :=
  match s with
  | EmptyString => true
  | String c s' => p c && all_chars p s'
  end.

(** [s.isascii()] *)
Definition py_isascii (s : string) : bool := all_chars is_ascii s.

(** *** [int(s, base)] on a string

    After CPython's [PyLong_FromString]: surrounding whitespace, an
    optional sign, for base 16 an optional [0x] prefix, then digits with
    single underscores between them.  In a base that is not a power of
    two the digits are counted, and more than [int_max_str_digits] of
    them is an error (the limit on integer string conversion, at its
    default of 4300). *)

(** The value of a character as a digit; 37 when it is none. *)
Definition digit_value (c : ascii) : Z :=
  let n := code c in
  if (48 <=? n) && (n <=? 57) then n - 48
  else if (97 <=? n) && (n <=? 122) then n - 87
  else if (65 <=? n) && (n <=? 90) then n - 55
  else 37.

Fixpoint scan_digits (base : Z) (s : string) (prev_underscore : bool) (acc : Z)
    : option (Z * string) :=
  match s with
  | EmptyString => if prev_underscore then None else Some (acc, EmptyString)
  | String c s' =>
      if digit_value c <? base then
        scan_digits base s' false (acc * base + digit_value c)
      else if Ascii.eqb c "_" then
        if prev_underscore then None else scan_digits base s' true acc
      else if prev_underscore then None
      else Some (acc, s)
  end.

(** The digits of the run of digits and underscores [s] starts with. *)
Fixpoint count_digits (base : Z) (s : string) : Z :=
  match s with
  | EmptyString => 0
  | String c s' =>
      if digit_value c <? base then 1 + count_digits base s'
      else if Ascii.eqb c "_" then count_digits base s'
      else 0
  end.

Definition int_max_str_digits : Z := 4300.

Definition skip_0x (base : Z) (s : string) : string :=
  match s with
  | String "0" (String x t) =>
      if (base =? 16) && (Ascii.eqb x "x" || Ascii.eqb x "X") then
        match t with
        | String "_" t' => t'
        | _ => t
        end
      else s
  | _ => s
  end.

Definition int_of_string (s : string) (base : Z) : result Z :=
  let s := lstrip c_isspace s in
  let '(neg, s) := match s with
                   | String "+" t => (false, t)
                   | String "-" t => (true, t)
                   | _ => (false, s)
                   end in
  let s := skip_0x base s in
  match s with
  | String c _ =>
      if digit_value c <? base then
        match scan_digits base s false 0 with
        | Some (v, rest) =>
            if negb (Z.land base (base - 1) =? 0)
               && (int_max_str_digits <? count_digits base s)
            then Raise ValueError
            else if all_chars c_isspace rest then Ok (if neg then - v else v)
            else Raise ValueError
        | None => Raise ValueError
        end
      else Raise ValueError
  | EmptyString => Raise ValueError
  end.

(** *** The pieces of the two regular expressions

    [re.match] anchors at the start of the string.  In both patterns each
    greedy item is followed by a character outside its class, so giving
    back characters can never turn a failed match into a success and the
    match is found left to right without backtracking.  A literal of
    a pattern is matched by [lit]. *)

(** [c?] *)
Definition opt_char (c : ascii) (s : string) : string :=
  match s with
  | String d s' => if Ascii.eqb c d then s' else s
  | EmptyString => s
  end.

(** A group [(\d+)]: the digits matched and the rest. *)
Definition digits1 (s : string) : option (string * string) :=
  match span is_digit s with
  | (EmptyString, _) => None
  | (d, rest) => Some (d, rest)
  end.

(** [\s*] *)
Definition spaces (s : string) : string := lstrip py_isspace s.


(** ** The [colorsys] module of the Python standard library

    [color.py] imports these functions; they are transcribed from
    CPython's [Lib/colorsys.py] (the text current since 3.11.5, where the
    saturation of light colours divides by [2.0-maxc-minc]). *)

Module colorsys.

Definition ONE_THIRD : float := (1 / 3)%float.
Definition ONE_SIXTH : float := (1 / 6)%float.
Definition TWO_THIRD : float := (2 / 3)%float.

Definition rgb_to_hls (r g b : float) : result (float * float * float) :=
  let maxc := py_max3 r g b in
  let minc := py_min3 r g b in
  let sumc := (maxc + minc)%float in
  let rangec := (maxc - minc)%float in
  let l := (sumc / 2)%float in
  if (minc =? maxc)%float then Ok (0%float, l, 0%float)
  else
    s <- (if (l <=? 0.5)%float then py_fdiv rangec sumc
          else py_fdiv rangec (2 - maxc - minc)%float) ;;
    rc <- py_fdiv (maxc - r)%float rangec ;;
    gc <- py_fdiv (maxc - g)%float rangec ;;
    bc <- py_fdiv (maxc - b)%float rangec ;;
    let h := if (r =? maxc)%float then (bc - gc)%float
             else if (g =? maxc)%float then (2 + rc - bc)%float
             else (4 + gc - rc)%float in
    Ok (py_mod1 (h / 6)%float, l, s).

Definition _v (m1 m2 hue : float) : float :=
  let hue := py_mod1 hue in
  if (hue <? ONE_SIXTH)%float then (m1 + (m2 - m1) * hue * 6)%float
  else if (hue <? 0.5)%float then m2
  else if (hue <? TWO_THIRD)%float then (m1 + (m2 - m1) * (TWO_THIRD - hue) * 6)%float
  else m1.

Definition hls_to_rgb (h l s : float) : float * float * float :=
  if (s =? 0)%float then (l, l, l)
  else
    let m2 := if (l <=? 0.5)%float then (l * (1 + s))%float
              else (l + s - l * s)%float in
    let m1 := (2 * l - m2)%float in
    (_v m1 m2 (h + ONE_THIRD)%float, _v m1 m2 h, _v m1 m2 (h - ONE_THIRD)%float).

End colorsys.

(** ** The value types *)

Module RGB.

Record t : Type := mk { r : Z; g : Z; b : Z }.

(** [RGB(r, g, b)]: the dataclass constructor followed by [__post_init__]. *)
Definition new (r g b : Z) : t :=
  mk (clamp 0 255 r) (clamp 0 255 g) (clamp 0 255 b).

(** The invariant [__post_init__] establishes. *)
Definition valid (c : t) : bool :=
  (0 <=? r c) && (r c <=? 255) && (0 <=? g c) && (g c <=? 255)
  && (0 <=? b c) && (b c <=? 255).

(** One hexadecimal digit, lower case. *)
Definition hex_digit (d : Z) : ascii :=
  if d <? 10 then ascii_of_nat (Z.to_nat (48 + d))
  else ascii_of_nat (Z.to_nat (87 + d)).

(** The hexadecimal digits of [n > 0], most significant first, in front
    of [acc]; [fuel] bounds the number of digits. *)
Fixpoint hex_digits (fuel : nat) (n : Z) (acc : string) : string :=
  match fuel with
  | O => acc
  | S fuel' =>
      if n <=? 0 then acc
      else hex_digits fuel' (n / 16) (String (hex_digit (n mod 16)) acc)
  end.

Definition hex_of_nonneg (n : Z) : string :=
  if n =? 0 then "0"%string
  else hex_digits (S (Z.to_nat (Z.log2 n))) n EmptyString.

Fixpoint zeros (k : nat) : string :=
  match k with
  | O => EmptyString
  | S k' => String "0"%char (zeros k')
  end.

(** The format specification [:02x]: lower-case hexadecimal, a minus
    sign for a negative number, zero-padded after the sign to a total
    width of two. *)
Definition format_02x (n : Z) : string :=
  let sign := if n <? 0 then "-"%string else EmptyString in
  let digits := hex_of_nonneg (Z.abs n) in
  let pad := (2 - String.length sign - String.length digits)%nat in
  (sign ++ zeros pad ++ digits)%string.

Definition to_hex (c : t) : string :=
  ("#" ++ format_02x (r c) ++ format_02x (g c) ++ format_02x (b c))%string.

Definition to_tuple (c : t) : Z * Z * Z := (r c, g c, b c).

Definition luminance (c : t) : result float :=
  r <- py_truediv (r c) 255 ;;
  g <- py_truediv (g c) 255 ;;
  b <- py_truediv (b c) 255 ;;
  Ok (0.2126 * r + 0.7152 * g + 0.0722 * b)%float.

End RGB.

Module HSL.

Record t : Type := mk { h : Z; s : Z; l : Z }.

(** [HSL(h, s, l)]: the constructor followed by [__post_init__]. *)
Definition new (h s l : Z) : t :=
  mk (h mod 360) (clamp 0 100 s) (clamp 0 100 l).

(** The invariant [__post_init__] establishes. *)
Definition valid (c : t) : bool :=
  (0 <=? h c) && (h c <? 360) && (0 <=? s c) && (s c <=? 100)
  && (0 <=? l c) && (l c <=? 100).

Definition to_rgb (c : t) : result RGB.t :=
  h <- py_truediv (h c) 360 ;;
  s <- py_truediv (s c) 100 ;;
  l <- py_truediv (l c) 100 ;;
  let '(r, g, b) := colorsys.hls_to_rgb h l s in
  ri <- py_int (r * 255)%float ;;
  gi <- py_int (g * 255)%float ;;
  bi <- py_int (b * 255)%float ;;
  Ok (RGB.new ri gi bi).

End HSL.

(** [RGB.to_hsl]; it is declared after [HSL] because it builds one. *)
Definition RGB_to_hsl (c : RGB.t) : result HSL.t :=
  r <- py_truediv (RGB.r c) 255 ;;
  g <- py_truediv (RGB.g c) 255 ;;
  b <- py_truediv (RGB.b c) 255 ;;
  '(h, l, s) <- colorsys.rgb_to_hls r g b ;;
  hi <- py_int (h * 360)%float ;;
  si <- py_int (s * 100)%float ;;
  li <- py_int (l * 100)%float ;;
  Ok (HSL.new hi si li).


(** ** The named colours *)

Definition NAMED_COLORS : list (string * string) :=
  [ ("black", "#000000"); ("white", "#ffffff"); ("red", "#ff0000");
    ("green", "#00ff00"); ("blue", "#0000ff"); ("yellow", "#ffff00");
    ("cyan", "#00ffff"); ("magenta", "#ff00ff"); ("orange", "#ffa500");
    ("purple", "#800080"); ("pink", "#ffc0cb"); ("brown", "#a52a2a");
    ("gray", "#808080"); ("grey", "#808080"); ("navy", "#000080");
    ("teal", "#008080"); ("olive", "#808000"); ("maroon", "#800000");
    ("aqua", "#00ffff"); ("lime", "#00ff00"); ("silver", "#c0c0c0") ]%string.

Fixpoint lookup (k : string) (d : list (string * string)) : option string :=
  match d with
  | [] => None
  | (k', v) :: d' => if String.eqb k k' then Some v else lookup k d'
  end.

(** ** Color *)

Module Color.

Record t : Type := mk { rgb : RGB.t }.

(** What the constructor accepts.  (The [HSV] alternative of the source
    is left out: no property below builds a colour from an [HSV].) *)
Inductive arg : Type :=
| Str (s : string)
| Rgb (c : RGB.t)
| Hsl (c : HSL.t)
| Tuple (r g b : Z).

Definition double_chars (s : string) : string :=
  String.concat EmptyString
    (map (fun c => String c (String c EmptyString)) (list_ascii_of_string s)).

Definition _parse_hex (hex_str : string) : result RGB.t :=
  let hex_str := lstrip (Ascii.eqb "#") hex_str in
  let hex_str := if (String.length hex_str =? 3)%nat then double_chars hex_str
                 else hex_str in
  r <- int_of_string (slice hex_str 0 2) 16 ;;
  g <- int_of_string (slice hex_str 2 4) 16 ;;
  b <- int_of_string (slice hex_str 4 6) 16 ;;
  Ok (RGB.new r g b).

(** [re.match(r"rgba?\((\d+),\s*(\d+),\s*(\d+)", s)]: the three groups. *)
Definition match_rgb (s : string) : option (string * string * string) :=
  match lit "rgb" s with
  | None => None
  | Some s =>
  match lit "(" (opt_char "a" s) with
  | None => None
  | Some s =>
  match digits1 s with
  | None => None
  | Some (g1, s) =>
  match lit "," s with
  | None => None
  | Some s =>
  match digits1 (spaces s) with
  | None => None
  | Some (g2, s) =>
  match lit "," s with
  | None => None
  | Some s =>
  match digits1 (spaces s) with
  | None => None
  | Some (g3, _) => Some (g1, g2, g3)
  end end end end end end end.

Definition _parse_rgb_string (rgb_str : string) : result RGB.t :=
  match match_rgb rgb_str with
  | Some (g1, g2, g3) =>
      r <- int_of_string g1 10 ;;
      g <- int_of_string g2 10 ;;
      b <- int_of_string g3 10 ;;
      Ok (RGB.new r g b)
  | None => Raise ValueError
  end.

(** [re.match(r"hsla?\((\d+),\s*(\d+)%?,\s*(\d+)%?", s)]: the three groups. *)
Definition match_hsl (s : string) : option (string * string * string) :=
  match lit "hsl" s with
  | None => None
  | Some s =>
  match lit "(" (opt_char "a" s) with
  | None => None
  | Some s =>
  match digits1 s with
  | None => None
  | Some (g1, s) =>
  match lit "," s with
  | None => None
  | Some s =>
  match digits1 (spaces s) with
  | None => None
  | Some (g2, s) =>
  match lit "," (opt_char "%" s) with
  | None => None
  | Some s =>
  match digits1 (spaces s) with
  | None => None
  | Some (g3, _) => Some (g1, g2, g3)
  end end end end end end end.

Definition _parse_hsl_string (hsl_str : string) : result RGB.t :=
  match match_hsl hsl_str with
  | Some (g1, g2, g3) =>
      h <- int_of_string g1 10 ;;
      s <- int_of_string g2 10 ;;
      l <- int_of_string g3 10 ;;
      HSL.to_rgb (HSL.new h s l)
  | None => Raise ValueError
  end.

Definition _parse_string (color : string) : result RGB.t :=
  let color := py_lower (py_strip color) in
  if startswith color "#" then _parse_hex color
  else if startswith color "rgb" then _parse_rgb_string color
  else if startswith color "hsl" then _parse_hsl_string color
  else match lookup color NAMED_COLORS with
       | Some hex => _parse_hex hex
       | None => Raise ValueError
       end.

(** [Color(color)] *)
Definition new (color : arg) : result t :=
  match color with
  | Str s => c <- _parse_string s ;; Ok (mk c)
  | Rgb c => Ok (mk c)
  | Hsl c => c <- HSL.to_rgb c ;; Ok (mk c)
  | Tuple r g b => Ok (mk (RGB.new r g b))
  end.

Definition hex (self : t) : string := RGB.to_hex (rgb self).

Definition hsl (self : t) : result HSL.t := RGB_to_hsl (rgb self).

Definition invert (self : t) : result t :=
  new (Rgb (RGB.new (255 - RGB.r (rgb self)) (255 - RGB.g (rgb self))
                    (255 - RGB.b (rgb self)))).

(** [complement] assigns the field [h] of the HSL value in place, so
    [__post_init__] does not run again. *)
Definition complement (self : t) : result t :=
  hsl <- RGB_to_hsl (rgb self) ;;
  new (Hsl (HSL.mk ((HSL.h hsl + 180) mod 360) (HSL.s hsl) (HSL.l hsl))).

(** One channel of [blend]: [int(x * (1 - ratio) + y * ratio)]. *)
Definition blend_channel (x y : Z) (ratio : pynum) : result Z :=
  a <- num_sub (PyInt 1) ratio ;;
  p <- num_mul (PyInt x) a ;;
  q <- num_mul (PyInt y) ratio ;;
  v <- num_add p q ;;
  num_int v.

Definition blend (self other : t) (ratio : pynum) : result t :=
  r <- blend_channel (RGB.r (rgb self)) (RGB.r (rgb other)) ratio ;;
  g <- blend_channel (RGB.g (rgb self)) (RGB.g (rgb other)) ratio ;;
  b <- blend_channel (RGB.b (rgb self)) (RGB.b (rgb other)) ratio ;;
  new (Rgb (RGB.new r g b)).

Definition contrast_ratio (self other : t) : result float :=
  l <- RGB.luminance (rgb self) ;;
  let l1 := (l + 0.05)%float in
  l <- RGB.luminance (rgb other) ;;
  let l2 := (l + 0.05)%float in
  py_fdiv (py_max2 l1 l2) (py_min2 l1 l2).

End Color.

(** ** Palette *)

Module Palette.

Definition complementary (base : Color.t) : result (list Color.t) :=
  c <- Color.complement base ;;
  Ok [base; c].

Definition triadic (base : Color.t) : result (list Color.t) :=
  hsl <- Color.hsl base ;;
  c1 <- Color.new (Color.Hsl (HSL.new ((HSL.h hsl + 120) mod 360) (HSL.s hsl) (HSL.l hsl))) ;;
  c2 <- Color.new (Color.Hsl (HSL.new ((HSL.h hsl + 240) mod 360) (HSL.s hsl) (HSL.l hsl))) ;;
  Ok [base; c1; c2].

Definition monochromatic (base : Color.t) (count : Z) : result (list Color.t) :=
  hsl <- Color.hsl base ;;
  step <- py_floordiv 80 count ;;
  let start := Z.max 10 (HSL.l hsl - step * count / 2) in
  mapM (fun i => Color.new (Color.Hsl (HSL.new (HSL.h hsl) (HSL.s hsl)
                                         (Z.min 90 (start + step * i)))))
       (range count).

Definition gradient (start end_ : Color.t) (steps : Z) : result (list Color.t) :=
  mapM (fun i =>
          ratio <- (if 1 <? steps
                    then q <- py_truediv i (steps - 1) ;; Ok (PyFloat q)
                    else Ok (PyInt 0)) ;;
          Color.blend start end_ ratio)
       (range steps).

End Palette.

(** * The rest of [color.py]

    The functions of the module that the definitions above do not reach.
    A closed [Module] cannot be extended, so a method is declared at top
    level with the name of its class in front: [RGB_to_hsv] is
    [RGB.to_hsv], [Color_lighten] is [Color.lighten]. *)

(** ** [str(n)] on an int *)

(** The decimal digits of [n > 0], most significant first, in front of
    [acc]; [fuel] bounds the number of digits. *)
Fixpoint dec_digits (fuel : nat) (n : Z) (acc : string) : string :=
  match fuel with
  | O => acc
  | S fuel' =>
      if n <=? 0 then acc
      else dec_digits fuel' (n / 10)
             (String (ascii_of_nat (Z.to_nat (48 + n mod 10))) acc)
  end.

Definition py_str (n : Z) : string :=
  if n =? 0 then "0"%string
  else
    let digits := dec_digits (S (Z.to_nat (Z.log2 (Z.abs n)))) (Z.abs n) EmptyString in
    if n <? 0 then String "-" digits else digits.

(** ** [colorsys]: HSV

    Transcribed from CPython's [Lib/colorsys.py], as [rgb_to_hls] above. *)

Definition colorsys_rgb_to_hsv (r g b : float) : result (float * float * float) :=
  let maxc := py_max3 r g b in
  let minc := py_min3 r g b in
  let rangec := (maxc - minc)%float in
  let v := maxc in
  if (minc =? maxc)%float then Ok (0%float, 0%float, v)
  else
    s <- py_fdiv rangec maxc ;;
    rc <- py_fdiv (maxc - r)%float rangec ;;
    gc <- py_fdiv (maxc - g)%float rangec ;;
    bc <- py_fdiv (maxc - b)%float rangec ;;
    let h := if (r =? maxc)%float then (bc - gc)%float
             else if (g =? maxc)%float then (2 + rc - bc)%float
             else (4 + gc - rc)%float in
    Ok (py_mod1 (h / 6)%float, s, v).

(** [hsv_to_rgb] ends with six tests [i == 0] ... [i == 5] and falls
    through after them, returning [None]; that return is the [None]
    here. *)
Definition colorsys_hsv_to_rgb (h s v : float)
    : result (option (float * float * float)) :=
  if (s =? 0)%float then Ok (Some (v, v, v))
  else
    i <- py_int (h * 6)%float ;;
    fi <- py_float i ;;
    let f := (h * 6 - fi)%float in
    let p := (v * (1 - s))%float in
    let q := (v * (1 - s * f))%float in
    let t := (v * (1 - s * (1 - f)))%float in
    let i := i mod 6 in
    if i =? 0 then Ok (Some (v, t, p))
    else if i =? 1 then Ok (Some (q, v, p))
    else if i =? 2 then Ok (Some (p, v, t))
    else if i =? 3 then Ok (Some (p, q, v))
    else if i =? 4 then Ok (Some (t, p, v))
    else if i =? 5 then Ok (Some (v, p, q))
    else Ok None.

Module HSV.

Record t : Type := mk { h : Z; s : Z; v : Z }.

(** [HSV(h, s, v)]: the constructor followed by [__post_init__]. *)
Definition new (h s v : Z) : t :=
  mk (h mod 360) (clamp 0 100 s) (clamp 0 100 v).

(** The invariant [__post_init__] establishes. *)
Definition valid (c : t) : bool :=
  (0 <=? h c) && (h c <? 360) && (0 <=? s c) && (s c <=? 100)
  && (0 <=? v c) && (v c <=? 100).

(** Unpacking [None] into [r, g, b] raises a TypeError, which [exn] does
    not list: [hsv_to_rgb] never returns [None] ([i % 6] is one of 0 to
    5), and the case stands here as a [ValueError]. *)
Definition to_rgb (c : t) : result RGB.t :=
  h <- py_truediv (h c) 360 ;;
  s <- py_truediv (s c) 100 ;;
  v <- py_truediv (v c) 100 ;;
  o <- colorsys_hsv_to_rgb h s v ;;
  match o with
  | Some (r, g, b) =>
      ri <- py_int (r * 255)%float ;;
      gi <- py_int (g * 255)%float ;;
      bi <- py_int (b * 255)%float ;;
      Ok (RGB.new ri gi bi)
  | None => Raise ValueError
  end.

Definition to_hex (c : t) : result string :=
  r <- to_rgb c ;; Ok (RGB.to_hex r).

End HSV.

(** ** The other methods of [RGB] and [HSL] *)

Definition RGB_to_hsv (c : RGB.t) : result HSV.t :=
  r <- py_truediv (RGB.r c) 255 ;;
  g <- py_truediv (RGB.g c) 255 ;;
  b <- py_truediv (RGB.b c) 255 ;;
  '(h, s, v) <- colorsys_rgb_to_hsv r g b ;;
  hi <- py_int (h * 360)%float ;;
  si <- py_int (s * 100)%float ;;
  vi <- py_int (v * 100)%float ;;
  Ok (HSV.new hi si vi).

(** [self.luminance() > 0.5] *)
Definition RGB_is_light (c : RGB.t) : result bool :=
  l <- RGB.luminance c ;; Ok (0.5 <? l)%float.

(** [self.luminance() <= 0.5] *)
Definition RGB_is_dark (c : RGB.t) : result bool :=
  l <- RGB.luminance c ;; Ok (l <=? 0.5)%float.

Definition HSL_to_hex (c : HSL.t) : result string :=
  r <- HSL.to_rgb c ;; Ok (RGB.to_hex r).

(** [f"hsl({self.h}, {self.s}%, {self.l}%)"] *)
Definition HSL_to_css (c : HSL.t) : string :=
  ("hsl(" ++ py_str (HSL.h c) ++ ", " ++ py_str (HSL.s c) ++ "%, "
   ++ py_str (HSL.l c) ++ "%)")%string.

(** ** The other methods of [Color] *)

(** [Color(color)] for an [HSV] value. *)
Definition Color_of_hsv (c : HSV.t) : result Color.t :=
  c <- HSV.to_rgb c ;; Ok (Color.mk c).

Definition Color_hsv (self : Color.t) : result HSV.t := RGB_to_hsv (Color.rgb self).

(** [lighten], [darken], [saturate] and [desaturate] assign one field of
    the HSL value in place, so [__post_init__] does not run again.  The
    default [amount] is 10. *)
Definition Color_lighten (self : Color.t) (amount : Z) : result Color.t :=
  hsl <- RGB_to_hsl (Color.rgb self) ;;
  Color.new (Color.Hsl (HSL.mk (HSL.h hsl) (HSL.s hsl) (Z.min 100 (HSL.l hsl + amount)))).

Definition Color_darken (self : Color.t) (amount : Z) : result Color.t :=
  hsl <- RGB_to_hsl (Color.rgb self) ;;
  Color.new (Color.Hsl (HSL.mk (HSL.h hsl) (HSL.s hsl) (Z.max 0 (HSL.l hsl - amount)))).

Definition Color_saturate (self : Color.t) (amount : Z) : result Color.t :=
  hsl <- RGB_to_hsl (Color.rgb self) ;;
  Color.new (Color.Hsl (HSL.mk (HSL.h hsl) (Z.min 100 (HSL.s hsl + amount)) (HSL.l hsl))).

Definition Color_desaturate (self : Color.t) (amount : Z) : result Color.t :=
  hsl <- RGB_to_hsl (Color.rgb self) ;;
  Color.new (Color.Hsl (HSL.mk (HSL.h hsl) (Z.max 0 (HSL.s hsl - amount)) (HSL.l hsl))).

Definition Color_grayscale (self : Color.t) : result Color.t :=
  l <- RGB.luminance (Color.rgb self) ;;
  gray <- py_int (l * 255)%float ;;
  Color.new (Color.Rgb (RGB.new gray gray gray)).

Definition Color_is_light (self : Color.t) : result bool :=
  RGB_is_light (Color.rgb self).

(** ** The other palettes *)

(** The defaults are [count = 5] and [spread = 30]. *)
Definition Palette_analogous (base : Color.t) (count spread : Z)
    : result (list Color.t) :=
  hsl <- Color.hsl base ;;
  let start := HSL.h hsl - spread * (count - 1) / 2 in
  mapM (fun i => Color.new (Color.Hsl (HSL.new ((start + spread * i) mod 360)
                                         (HSL.s hsl) (HSL.l hsl))))
       (range count).

(** The default [spread] is 30. *)
Definition Palette_split_complementary (base : Color.t) (spread : Z)
    : result (list Color.t) :=
  hsl <- Color.hsl base ;;
  c1 <- Color.new (Color.Hsl (HSL.new ((HSL.h hsl + 180 - spread) mod 360)
                                (HSL.s hsl) (HSL.l hsl))) ;;
  c2 <- Color.new (Color.Hsl (HSL.new ((HSL.h hsl + 180 + spread) mod 360)
                                (HSL.s hsl) (HSL.l hsl))) ;;
  Ok [base; c1; c2].

(** * The pattern of the specification

    The specification gives the pattern of an [rgb] string as
    [rgba?\(\s*R\s*,\s*G\s*,\s*B]; this is that pattern, to be compared
    with [Color.match_rgb], the pattern of the source. *)

Definition spec_match_rgb (s : string) : option (string * string * string) :=
  match lit "rgb" s with
  | None => None
  | Some s =>
  match lit "(" (opt_char "a" s) with
  | None => None
  | Some s =>
  match digits1 (spaces s) with
  | None => None
  | Some (g1, s) =>
  match lit "," (spaces s) with
  | None => None
  | Some s =>
  match digits1 (spaces s) with
  | None => None
  | Some (g2, s) =>
  match lit "," (spaces s) with
  | None => None
  | Some s =>
  match digits1 (spaces s) with
  | None => None
  | Some (g3, _) => Some (g1, g2, g3)
  end end end end end end end.

(** * Definitions used in the proofs *)

Abbreviation fexp64 := (fexp prec emax).

(** Finite (or zero) of magnitude below [2^k], and in the format. *)
Definition sf_fin (k : Z) (f : spec_float) : Prop :=
  match f with
  | S754_zero _ => True
  | S754_finite _ m e => bounded prec emax m e = true /\ Zdigits2 (Zpos m) + e <= k
  | _ => False
  end.

Definition sf_lo (k : Z) (f : spec_float) : Prop :=
  match f with
  | S754_finite _ m e => k <= Zdigits2 (Zpos m) + e
  | _ => False
  end.

Definition sf_valid (f : spec_float) : Prop := valid_binary f = true.

Definition fin64 (k : Z) (x : float) : Prop := sf_fin k (Prim2SF x).
Definition lo64 (k : Z) (x : float) : Prop := sf_lo k (Prim2SF x).

Fixpoint allb (n : nat) (p : Z -> bool) : bool :=
  match n with
  | O => true
  | S k => p (Z.of_nat k) && allb k p
  end.

Definition blend_ends_check (x : Z) : bool :=
  match py_float x with
  | Ok f =>
      PrimFloat.Leibniz.eqb (f * 0)%float 0%float
      && match py_int (f * 1 + 0)%float with Ok z => z =? x | Raise _ => false end
      && match py_int (0 + f * 1)%float with Ok z => z =? x | Raise _ => false end
      && (abs f <=? 256)%float
  | Raise _ => false
  end.

(** The 256 floats a channel of a valid colour can normalise to. *)
Definition channel_float (k : Z) : float :=
  match py_truediv k 255 with Ok f => f | Raise _ => nan end.

Definition channel_floats : list float := map channel_float (range 256).

Definition finb (x : float) : bool := (abs x <? infinity)%float.

(** What [rgb_to_hls] needs of the greatest channel [a] and the least
    channel [b] to divide and to convert its lightness and saturation. *)
Definition pair_ok (a b : float) : bool :=
  let sumc := (a + b)%float in
  let rangec := (a - b)%float in
  let l := (sumc / 2)%float in
  finb (l * 100)%float &&
  ((b =? a)%float ||
   (negb (rangec =? 0)%float && (0.001953125 <=? abs rangec)%float && finb rangec
    && (if (l <=? 0.5)%float
        then negb (sumc =? 0)%float && finb (rangec / sumc * 100)%float
        else negb (2 - a - b =? 0)%float && finb (rangec / (2 - a - b) * 100)%float))).

Definition pairs_ok (t : list float) : bool :=
  forallb (fun a => forallb (fun b => pair_ok a b) t) t.

Definition all_ascii : list ascii := map ascii_of_nat (seq 0 256).

Definition is_hex (c : ascii) : bool := digit_value c <? 16.

Definition is_lower_hex (c : ascii) : bool :=
  let n := code c in ((48 <=? n) && (n <=? 57)) || ((97 <=? n) && (n <=? 102)).

Definition result_Z_eqb (a : result Z) (b : Z) : bool :=
  match a with Ok z => z =? b | Raise _ => false end.

Definition hex_pair_check (c1 : ascii) : bool :=
  if is_hex c1 then
    negb (Ascii.eqb "#" c1) &&
    result_Z_eqb (int_of_string (String c1 EmptyString) 16) (digit_value c1) &&
    forallb (fun c2 =>
               if is_hex c2 then
                 result_Z_eqb (int_of_string (String c1 (String c2 EmptyString)) 16)
                   (16 * digit_value c1 + digit_value c2)
               else true) all_ascii
  else true.

Fixpoint decimal_value_from (acc : Z) (s : string) : Z :=
  match s with
  | EmptyString => acc
  | String c s' => decimal_value_from (acc * 10 + (code c - 48)) s'
  end.

Definition decimal_value (s : string) : Z := decimal_value_from 0 s.

Definition digit_char_check (c : ascii) : bool :=
  if is_digit c then
    (digit_value c =? code c - 48) && (digit_value c <? 10) && negb (py_isspace c)
    && negb (Ascii.eqb c "+") && negb (Ascii.eqb c "-") && negb (Ascii.eqb c "_")
    && negb (Ascii.eqb c ",") && negb (Ascii.eqb c "%") && negb (c_isspace c)
  else true.

(** The strings [re.match] accepts for the pattern of [_parse_rgb_string],
    with the three groups it captures. *)
Definition rgb_shape (s g1 g2 g3 : string) : Prop :=
  exists a w1 w2 rest,
    s = ("rgb" ++ a ++ "(" ++ g1 ++ "," ++ w1 ++ g2 ++ "," ++ w2 ++ g3 ++ rest)%string /\
    (a = EmptyString \/ a = "a"%string) /\
    g1 <> EmptyString /\ all_chars is_digit g1 = true /\
    g2 <> EmptyString /\ all_chars is_digit g2 = true /\
    g3 <> EmptyString /\ all_chars is_digit g3 = true /\
    all_chars py_isspace w1 = true /\ all_chars py_isspace w2 = true /\
    match rest with EmptyString => True | String c _ => is_digit c = false end.

Definition two_hex (v : Z) : string :=
  String (RGB.hex_digit (v / 16)) (String (RGB.hex_digit (v mod 16)) EmptyString).

Definition format_check (v : Z) : bool :=
  String.eqb (RGB.format_02x v) (two_hex v) && all_chars is_lower_hex (two_hex v).

(** Where a remainder [r] of a division by [2^k] lies. *)
Definition loc_of_rem (r k : Z) : location :=
  if r =? 0 then loc_Exact else loc_Inexact (Z.compare (2 * r) (2 ^ k)).

(** The number of low bits rounding drops from the integer [S], the
    integer kept, and what rounding [S] to 53 bits gives. *)
Definition rnd_shift (S : Z) : Z := Z.max (Zdigits2 S - 53) 0.

Definition rnd_value (S : Z) : Z :=
  let n := rnd_shift S in
  round_nearest_even (S / 2 ^ n) (loc_of_rem (S mod 2 ^ n) n) * 2 ^ n.

(** A non-negative float in units of [2^-1074]. *)
Definition sf_units (f : spec_float) : Z :=
  match f with
  | S754_finite false m e => Zpos m * 2 ^ (e + 1074)
  | _ => 0
  end.

(** A non-negative float of magnitude below [2^k] in the format. *)
Definition sf_nonneg (k : Z) (f : spec_float) : Prop :=
  match f with
  | S754_zero _ => True
  | S754_finite false m e => bounded prec emax m e = true /\ Zdigits2 (Zpos m) + e <= k
  | _ => False
  end.

Definition nonneg64 (k : Z) (x : float) : Prop := sf_nonneg k (Prim2SF x).

Definition sf_not_negative (f : spec_float) : Prop :=
  match f with
  | S754_finite true _ _ => False
  | _ => True
  end.

Definition lower_hex_check (c : ascii) : bool :=
  (if is_lower_hex c
   then is_hex c && negb (py_isspace c) && Ascii.eqb (lower_char c) c
   else true)
  && (if is_hex c
      then negb (py_isspace c) && is_lower_hex (lower_char c)
      else true)
  && (if is_hex c && Ascii.eqb (lower_char c) c then is_lower_hex c else true).

(** The two digits [to_hex] writes for a channel denote the channel. *)
Definition two_hex_value_check (v : Z) : bool :=
  16 * digit_value (RGB.hex_digit (v / 16)) + digit_value (RGB.hex_digit (v mod 16)) =? v.

(** Two lower-case hexadecimal digits are the rendering of the number
    they denote. *)
Definition hex_render_check (a : ascii) : bool :=
  if is_lower_hex a then
    forallb (fun b =>
               if is_lower_hex b then
                 let v := 16 * digit_value a + digit_value b in
                 (0 <=? v) && (v <=? 255)
                 && String.eqb (RGB.format_02x v) (String a (String b EmptyString))
               else true) all_ascii
  else true.

Definition lower_char_check (c : ascii) : bool :=
  Ascii.eqb (lower_char (lower_char c)) (lower_char c)
  && Bool.eqb (py_isspace (lower_char c)) (py_isspace c).

Definition named_color_check (entry : string * string) : bool :=
  match Color.new (Color.Str (fst entry)) with
  | Ok c => String.eqb (Color.hex c) (snd entry)
  | Raise _ => false
  end.

Definition py_str_check (n : Z) : bool :=
  match py_str n with
  | EmptyString => false
  | s =>
      all_chars is_digit s && (decimal_value s =? n)
      && all_chars (fun c => Ascii.eqb (lower_char c) c) s
      && (String.length s <=? 3)%nat
  end.

(** A float that is finite and greater than zero. *)
Definition positive64 (x : float) : Prop :=
  exists m e, Prim2SF x = S754_finite false m e.

Definition gray_check (k : Z) : bool :=
  match Color_grayscale (Color.mk (RGB.mk k k k)) with
  | Ok c =>
      let g := RGB.r (Color.rgb c) in
      ((g =? k) || (g =? k - 1))
      && (RGB.g (Color.rgb c) =? g) && (RGB.b (Color.rgb c) =? g)
  | Raise _ => false
  end.

Definition zero64 (x : float) : Prop := exists s, Prim2SF x = S754_zero s.

(** The HSL and HSV values of the 256 greys. *)
Definition grey_check (k : Z) : bool :=
  match RGB_to_hsl (RGB.mk k k k), RGB_to_hsv (RGB.mk k k k) with
  | Ok x, Ok y =>
      (HSL.h x =? 0) && (HSL.s x =? 0) && (HSV.h y =? 0) && (HSV.s y =? 0)
  | _, _ => false
  end.

Definition channel_lo_check (a : float) : bool :=
  (a =? 0)%float || ((0.001953125 <=? abs a)%float && finb a).

(** The strings [re.match] accepts for the pattern of [_parse_hsl_string],
    with the three groups it captures. *)
Definition hsl_shape (s g1 g2 g3 : string) : Prop :=
  exists a w1 p w2 rest,
    s = ("hsl" ++ a ++ "(" ++ g1 ++ "," ++ w1 ++ g2 ++ p ++ "," ++ w2 ++ g3 ++ rest)%string /\
    (a = EmptyString \/ a = "a"%string) /\
    (p = EmptyString \/ p = "%"%string) /\
    g1 <> EmptyString /\ all_chars is_digit g1 = true /\
    g2 <> EmptyString /\ all_chars is_digit g2 = true /\
    g3 <> EmptyString /\ all_chars is_digit g3 = true /\
    all_chars py_isspace w1 = true /\ all_chars py_isspace w2 = true /\
    match rest with EmptyString => True | String c _ => is_digit c = false end.

Definition int_float (k : Z) : float :=
  match py_float k with Ok f => f | Raise _ => nan end.

Definition int_floats : list float := map int_float (range 256).

(** [k * 0.5] for [k] from 0 to 510. *)
Definition half_floats : list float :=
  map (fun k => (int_float k * 0.5)%float) (range 511).

Fixpoint row_ok (fx : float) (ys hs : list float) : bool :=
  match ys, hs with
  | [], _ => true
  | fy :: ys', h :: hs' =>
      PrimFloat.Leibniz.eqb (fx * (1 - 0.5) + fy * 0.5)%float h && row_ok fx ys' hs'
  | _ :: _, [] => false
  end.

Fixpoint rows_ok (xs ys hs : list float) : bool :=
  match xs, hs with
  | [], _ => true
  | fx :: xs', _ :: hs' => row_ok fx ys hs && rows_ok xs' ys hs'
  | _ :: _, [] => false
  end.

Definition half_check (k : Z) : bool :=
  result_Z_eqb (py_int (int_float k * 0.5)%float) (k / 2).

Definition grey_back (through : result RGB.t) (k : Z) : bool :=
  match through with
  | Ok c =>
      (k - 3 <=? RGB.r c) && (RGB.r c <=? k)
      && (RGB.g c =? RGB.r c) && (RGB.b c =? RGB.r c)
  | Raise _ => false
  end.

Definition grey_roundtrip_check (k : Z) : bool :=
  grey_back (x <- RGB_to_hsl (RGB.mk k k k) ;; HSL.to_rgb x) k
  && grey_back (x <- RGB_to_hsv (RGB.mk k k k) ;; HSV.to_rgb x) k.

(** The float of a channel value [x] is [x] exactly: [m * 2^e] with
    [e <= 0] and [m = x * 2^-e]. *)
Definition channel_exact_check (x : Z) : bool :=
  match Prim2SF (int_float x) with
  | S754_zero _ => x =? 0
  | S754_finite false m e =>
      bounded prec emax m e && (e <=? 0) && (Zpos m =? x * 2 ^ (- e))
      && (Zdigits2 (Zpos m) + e <=? 8)
  | _ => false
  end.

(** * Lemmas *)

(** The float specification is written with the integers of [Corelib];
    [zfix] turns their operations into the ones [lia] knows. *)
Ltac zfix :=
  change IntDef.Z.add with Z.add in *;
  change IntDef.Z.sub with Z.sub in *;
  change IntDef.Z.mul with Z.mul in *;
  change IntDef.Z.opp with Z.opp in *;
  change IntDef.Z.min with Z.min in *;
  change IntDef.Z.max with Z.max in *;
  change IntDef.Z.leb with Z.leb in *;
  change IntDef.Z.eqb with Z.eqb in *;
  change IntDef.Z.compare with Z.compare in *;
  change IntDef.Z.div_eucl with Z.div_eucl in *;
  change IntDef.Z.shiftl with Z.shiftl in *;
  change IntDef.Z.even with Z.even in *;
  change PosDef.Pos.mul with Pos.mul in *;
  change PosDef.Pos.iter with Pos.iter in *.

Lemma fexp64_eq e : fexp64 e = Z.max (e - 53) (-1074).
Proof. reflexivity. Qed.

Lemma digits2_pos_log2 p : Zpos (digits2_pos p) = Z.log2 (Zpos p) + 1.
Proof.
  induction p as [p IH|p IH|]; cbn [digits2_pos]; try reflexivity.
  - rewrite Pos2Z.inj_succ, IH. destruct p; cbn; lia.
  - rewrite Pos2Z.inj_succ, IH. destruct p; cbn; lia.
Qed.

Lemma Zdigits2_log2 n : 0 < n -> Zdigits2 n = Z.log2 n + 1.
Proof. destruct n; try lia. intros _. apply digits2_pos_log2. Qed.

Lemma Zdigits2_nonneg n : 0 <= Zdigits2 n.
Proof. destruct n; cbn; lia. Qed.

(** [n] has at most [k] binary digits iff it is below [2^k]. *)
Lemma Zdigits2_le_iff n k : 0 <= n -> 0 <= k -> (Zdigits2 n <= k <-> n < 2 ^ k).
Proof.
  intros Hn Hk. destruct (Z.eq_dec n 0) as [->|Hz].
  - cbn. split; intros; [apply Z.pow_pos_nonneg|]; lia.
  - rewrite Zdigits2_log2 by lia.
    rewrite (Z.log2_lt_pow2 n k) by lia. lia.
Qed.

Lemma Zdigits2_ge_iff n k : 0 < n -> 0 < k -> (k <= Zdigits2 n <-> 2 ^ (k - 1) <= n).
Proof.
  intros Hn Hk. rewrite Zdigits2_log2 by lia.
  rewrite (Z.log2_le_pow2 n (k - 1)) by lia. lia.
Qed.

Lemma Zdigits2_shiftr n j : 0 <= n -> 0 <= j ->
  Zdigits2 (Z.shiftr n j) = Z.max 0 (Zdigits2 n - j).
Proof.
  intros Hn Hj. destruct (Z.eq_dec n 0) as [->|Hz].
  - rewrite Z.shiftr_0_l. cbn. lia.
  - destruct (Z.eq_dec (Z.shiftr n j) 0) as [E|E].
    + rewrite E. cbn. apply Z.shiftr_eq_0_iff in E.
      rewrite Zdigits2_log2 by lia. lia.
    + assert (0 <= Z.shiftr n j) by (apply Z.shiftr_nonneg; lia).
      rewrite !Zdigits2_log2 by lia.
      rewrite Z.log2_shiftr by lia.
      assert (~ (n = 0 \/ 0 < n /\ Z.log2 n < j)) as N by (rewrite <- Z.shiftr_eq_0_iff; exact E).
      lia.
Qed.

Lemma shr_1_m rec : 0 <= shr_m rec -> shr_m (shr_1 rec) = Z.shiftr (shr_m rec) 1.
Proof.
  destruct rec as [m r s]. cbn [shr_m]. intros Hm.
  rewrite Z.shiftr_div_pow2 by lia. change (2 ^ 1) with 2.
  destruct m as [|[p|p|]|]; try lia; cbn [shr_1 shr_m]; try reflexivity.
  - rewrite Pos2Z.inj_xI. apply Z.div_unique with 1; lia.
  - rewrite Pos2Z.inj_xO. apply Z.div_unique with 0; lia.
Qed.

Lemma shr_1_nonneg rec : 0 <= shr_m rec -> 0 <= shr_m (shr_1 rec).
Proof. intros H. rewrite shr_1_m by exact H. apply Z.shiftr_nonneg. exact H. Qed.

Lemma iter_shr_1_m p : forall rec, 0 <= shr_m rec ->
  shr_m (iter_pos shr_1 p rec) = Z.shiftr (shr_m rec) (Zpos p).
Proof.
  induction p as [p IH|p IH|]; intros rec Hm; cbn [iter_pos].
  - rewrite IH, IH, shr_1_m by (rewrite ?IH; try apply Z.shiftr_nonneg; try apply shr_1_nonneg; auto using shr_1_nonneg).
    rewrite !Z.shiftr_shiftr by lia. f_equal. lia.
  - rewrite IH, IH by (rewrite ?IH; try apply Z.shiftr_nonneg; auto).
    rewrite !Z.shiftr_shiftr by lia. f_equal. lia.
  - apply shr_1_m. exact Hm.
Qed.

Lemma Zdigits2_mono a b : 0 <= a <= b -> Zdigits2 a <= Zdigits2 b.
Proof.
  intros H. apply Zdigits2_le_iff; try lia. apply Zdigits2_nonneg.
  apply Z.le_lt_trans with b; [lia|].
  apply Zdigits2_le_iff; try lia. apply Zdigits2_nonneg.
Qed.

Lemma Zdigits2_succ a : 0 <= a -> Zdigits2 (a + 1) <= Zdigits2 a + 1.
Proof.
  intros H. pose proof (Zdigits2_nonneg a) as Hd.
  apply Zdigits2_le_iff; try lia.
  assert (a < 2 ^ Zdigits2 a) by (apply Zdigits2_le_iff; lia).
  rewrite Z.pow_add_r by lia. change (2 ^ 1) with 2. lia.
Qed.

Lemma Zdigits2_pos n : 0 < n -> 0 < Zdigits2 n.
Proof. destruct n; cbn; lia. Qed.

(** What one right shift to the format's exponent does. *)
Lemma shr_fexp_spec m e l :
  0 <= m ->
  let d := Zdigits2 m in
  let '(rec, e') := shr_fexp prec emax m e l in
  0 <= shr_m rec /\
  ((fexp64 (d + e) <= e /\ rec = shr_record_of_loc m l /\ shr_m rec = m /\ e' = e) \/
   (e < fexp64 (d + e) /\ shr_m rec = Z.shiftr m (fexp64 (d + e) - e) /\
    e' = fexp64 (d + e))).
Proof.
  intros Hm d. unfold shr_fexp. fold d.
  assert (shr_m (shr_record_of_loc m l) = m) as Em by (destruct l as [|[]]; reflexivity).
  unfold shr. destruct (fexp64 (d + e) - e) as [|p|p] eqn:E.
  - split; [lia|]. left. repeat split; try lia; auto.
  - rewrite iter_shr_1_m by lia. rewrite Em. split.
    + apply Z.shiftr_nonneg. lia.
    + right. repeat split; lia.
  - split; [lia|]. left. repeat split; try lia; auto.
Qed.

Lemma round_nearest_even_bounds m l :
  m <= round_nearest_even m l <= m + 1.
Proof. destruct l as [|[]]; cbn; try destruct (Z.even m); lia. Qed.

Lemma bounded_iff m e :
  bounded prec emax m e = true <-> fexp64 (Zdigits2 (Zpos m) + e) = e /\ e <= 971.
Proof.
  unfold bounded, canonical_mantissa. rewrite andb_true_iff, Z.eqb_eq, Z.leb_le.
  reflexivity.
Qed.

Lemma binary_round_aux_fin s m e l k :
  0 <= m -> e <= fexp64 (Zdigits2 m + e) -> Zdigits2 m + e <= k ->
  -1074 <= k <= 1023 ->
  sf_fin (k + 1) (binary_round_aux prec emax s m e l).
Proof.
  intros Hm He Hk Hr. unfold binary_round_aux.
  pose proof (shr_fexp_spec m e l Hm) as S1. cbv zeta in S1.
  destruct (shr_fexp prec emax m e l) as [rec1 e1].
  destruct S1 as [Hm1 S1].
  set (m2 := round_nearest_even (shr_m rec1) (loc_of_shr_record rec1)).
  pose proof (round_nearest_even_bounds (shr_m rec1) (loc_of_shr_record rec1)) as Hb.
  fold m2 in Hb.
  assert (0 <= m2) as Hm2 by lia.
  pose proof (shr_fexp_spec m2 e1 loc_Exact Hm2) as S2. cbv zeta in S2.
  destruct (shr_fexp prec emax m2 e1 loc_Exact) as [rec2 e2].
  destruct S2 as [Hm3 S2].
  pose proof (Zdigits2_mono (shr_m rec1) m2 ltac:(lia)) as D12.
  pose proof (Zdigits2_mono m2 (shr_m rec1 + 1) ltac:(lia)) as D21.
  pose proof (Zdigits2_succ (shr_m rec1) Hm1) as D11.
  pose proof (Zdigits2_nonneg m) as Dm.
  pose proof (Zdigits2_nonneg (shr_m rec1)) as Dm1.
  assert (Zdigits2 (shr_m rec1) + e1 <= Z.max (Zdigits2 m + e) e1 /\
          (0 < shr_m rec1 -> Zdigits2 (shr_m rec1) + e1 = Zdigits2 m + e) /\
          e1 = fexp64 (Zdigits2 m + e) /\
          (shr_m rec1 = 0 -> e1 = -1074)) as [A1 [A2 [A3 A4]]].
  { rewrite fexp64_eq in He.
    destruct S1 as [(h1 & _ & h2 & h3)|(h1 & h2 & h3)].
    - rewrite h2, h3. rewrite fexp64_eq in *. repeat split; try lia.
      intros ->. change (Zdigits2 0) with 0 in *. lia.
    - rewrite h2, h3. rewrite Zdigits2_shiftr by lia.
      rewrite fexp64_eq in *.
      repeat split; try lia.
      2:{ intros Hz. apply (f_equal Zdigits2) in Hz. rewrite Zdigits2_shiftr in Hz by lia.
          change (Zdigits2 0) with 0 in Hz. lia. }
      intros Hp.
      pose proof (Zdigits2_pos _ Hp) as G.
      rewrite Zdigits2_shiftr in G by lia. lia. }
  destruct (shr_m rec2) as [|p|p] eqn:E3; [exact I| |lia].
  assert (0 < Zdigits2 (Z.pos p)) as Dp by (apply Zdigits2_pos; lia).
  assert (Zdigits2 (Zpos p) + e2 = Zdigits2 m2 + e1 /\ e2 = fexp64 (Zdigits2 m2 + e1)
          \/ Zpos p = m2 /\ e2 = e1 /\ fexp64 (Zdigits2 m2 + e1) <= e1) as B.
  { destruct S2 as [(h1 & _ & h2 & h3)|(h1 & h2 & h3)].
    - right. repeat split; lia.
    - left. rewrite h2. rewrite h2 in Dp. rewrite Zdigits2_shiftr in * by lia. lia. }
  assert (0 < m2 -> 0 < Zdigits2 m2) as Dm2 by apply Zdigits2_pos.
  assert (0 < shr_m rec1 -> 0 < Zdigits2 (shr_m rec1)) as Dm1' by apply Zdigits2_pos.
  assert (shr_m rec1 = 0 -> Zdigits2 m2 <= 1) as Z1.
  { intros Z. rewrite Z in *. change (Zdigits2 (0 + 1)) with 1 in D21. lia. }
  assert (e2 <= 971 /\ fexp64 (Zdigits2 (Z.pos p) + e2) = e2 /\
          Zdigits2 (Z.pos p) + e2 <= k + 1) as [G1 [G2 G3]].
  { rewrite ?fexp64_eq in *.
    destruct B as [[B1 B2]|[B1 [B2 B3]]].
    - rewrite B1. destruct (Z.eq_dec (shr_m rec1) 0) as [Z|NZ];
        [specialize (Z1 Z); specialize (A4 Z)|]; lia.
    - rewrite B1. destruct (Z.eq_dec (shr_m rec1) 0) as [Z|NZ];
        [specialize (Z1 Z); specialize (A4 Z)|]; lia. }
  replace (e2 <=? emax - prec) with true by (symmetry; apply Z.leb_le; exact G1).
  cbn [sf_fin]. split; [apply bounded_iff; split; assumption | exact G3].
Qed.

Lemma Zdigits2_mul_le a b : 0 < a -> 0 < b -> Zdigits2 (a * b) <= Zdigits2 a + Zdigits2 b.
Proof.
  intros Ha Hb. pose proof (Zdigits2_nonneg a). pose proof (Zdigits2_nonneg b).
  apply Zdigits2_le_iff; try lia.
  assert (a < 2 ^ Zdigits2 a) by (apply Zdigits2_le_iff; lia).
  assert (b < 2 ^ Zdigits2 b) by (apply Zdigits2_le_iff; lia).
  rewrite Z.pow_add_r by lia. nia.
Qed.

Lemma Zdigits2_mul_ge a b : 0 < a -> 0 < b -> Zdigits2 a + Zdigits2 b - 1 <= Zdigits2 (a * b).
Proof.
  intros Ha Hb. pose proof (Zdigits2_pos a Ha). pose proof (Zdigits2_pos b Hb).
  assert (2 ^ (Zdigits2 a - 1) <= a) by (apply Zdigits2_ge_iff; lia).
  assert (2 ^ (Zdigits2 b - 1) <= b) by (apply Zdigits2_ge_iff; lia).
  destruct (Z.eq_dec (Zdigits2 a + Zdigits2 b - 1) 0) as [E|E].
  - rewrite E. apply Zdigits2_nonneg.
  - apply Zdigits2_ge_iff; try lia.
    replace (Zdigits2 a + Zdigits2 b - 1 - 1) with ((Zdigits2 a - 1) + (Zdigits2 b - 1)) by lia.
    rewrite Z.pow_add_r by lia.
    assert (0 < 2 ^ (Zdigits2 a - 1)) by (apply Z.pow_pos_nonneg; lia).
    assert (0 < 2 ^ (Zdigits2 b - 1)) by (apply Z.pow_pos_nonneg; lia).
    nia.
Qed.

Lemma Zdigits2_mul_pow2 a j : 0 < a -> 0 <= j -> Zdigits2 (a * 2 ^ j) = Zdigits2 a + j.
Proof.
  intros Ha Hj. assert (0 < 2 ^ j) by (apply Z.pow_pos_nonneg; lia).
  rewrite !Zdigits2_log2 by nia.
  rewrite Z.log2_mul_pow2 by lia. lia.
Qed.

Lemma pos_iter_xO m d : Zpos (Pos.iter xO m d) = Zpos m * 2 ^ Zpos d.
Proof.
  rewrite <- Z.shiftl_mul_pow2 by lia. cbn [Z.shiftl].
  apply (Pos.iter_swap_gen _ _ Zpos xO (Z.mul 2)). reflexivity.
Qed.

Lemma shl_align_spec m e e' :
  let '(m', e'') := shl_align m e e' in
  e'' = Z.min e e' /\ Zpos m' = Zpos m * 2 ^ (e - e'').
Proof.
  unfold shl_align. destruct (e' - e) as [|p|p] eqn:E.
  - split; [lia|]. rewrite Z.sub_diag. cbn. lia.
  - split; [lia|]. rewrite Z.sub_diag. cbn. lia.
  - split; [lia|]. rewrite pos_iter_xO. f_equal. f_equal. lia.
Qed.

Lemma binary_round_fin s m e k :
  Zdigits2 (Zpos m) + e <= k -> -1074 <= k <= 1023 ->
  sf_fin (k + 1) (binary_round prec emax s m e).
Proof.
  intros Hk Hr. unfold binary_round.
  pose proof (shl_align_spec m e (fexp64 (Zpos (digits2_pos m) + e))) as S.
  destruct (shl_align m e _) as [mz ez]. destruct S as [S1 S2].
  change (Zpos (digits2_pos m)) with (Zdigits2 (Zpos m)) in *.
  assert (Zdigits2 (Zpos mz) + ez = Zdigits2 (Zpos m) + e) as D.
  { rewrite S2. rewrite Zdigits2_mul_pow2 by lia. lia. }
  apply binary_round_aux_fin; try lia.
  rewrite D. lia.
Qed.

Lemma binary_normalize_fin M e sz k :
  Zdigits2 (Z.abs M) + e <= k -> -1074 <= k <= 1023 ->
  sf_fin (k + 1) (binary_normalize prec emax M e sz).
Proof.
  intros Hk Hr. destruct M as [|p|p]; cbn [binary_normalize].
  - exact I.
  - apply binary_round_fin; assumption.
  - apply binary_round_fin; assumption.
Qed.

Lemma sf_fin_valid k f : sf_fin k f -> sf_valid f.
Proof. destruct f; cbn; try tauto. reflexivity. Qed.

Lemma sf_fin_weaken k k' f : sf_fin k f -> k <= k' -> sf_fin k' f.
Proof. destruct f; cbn; try tauto. intros [? ?] ?. split; [assumption|lia]. Qed.

Lemma SFmul_fin a b x y :
  sf_fin a x -> sf_fin b y -> -1074 <= a + b <= 1023 ->
  sf_fin (a + b + 1) (SFmul prec emax x y).
Proof.
  intros Hx Hy Hr.
  destruct x as [sx|sx| |sx mx ex], y as [sy|sy| |sy my ey]; cbn [sf_fin] in Hx, Hy;
    try tauto; cbn [SFmul]; try exact I.
  destruct Hx as [Bx Hx], Hy as [By Hy].
  apply bounded_iff in Bx, By. destruct Bx as [Cx _], By as [Cy _].
  rewrite fexp64_eq in Cx, Cy.
  pose proof (Zdigits2_mul_le (Zpos mx) (Zpos my) ltac:(lia) ltac:(lia)) as U.
  pose proof (Zdigits2_mul_ge (Zpos mx) (Zpos my) ltac:(lia) ltac:(lia)) as L.
  pose proof (Zdigits2_pos (Zpos mx) ltac:(lia)) as Px.
  pose proof (Zdigits2_pos (Zpos my) ltac:(lia)) as Py.
  zfix. change (Zpos (mx * my)) with (Zpos mx * Zpos my).
  apply binary_round_aux_fin; rewrite ?fexp64_eq; lia.
Qed.

Lemma Zdigits2_add_le a b : 0 <= a -> 0 <= b ->
  Zdigits2 (a + b) <= Z.max (Zdigits2 a) (Zdigits2 b) + 1.
Proof.
  intros Ha Hb. pose proof (Zdigits2_nonneg a). pose proof (Zdigits2_nonneg b).
  apply Zdigits2_le_iff; try lia.
  assert (a < 2 ^ Zdigits2 a) by (apply Zdigits2_le_iff; lia).
  assert (b < 2 ^ Zdigits2 b) by (apply Zdigits2_le_iff; lia).
  assert (2 ^ Zdigits2 a <= 2 ^ Z.max (Zdigits2 a) (Zdigits2 b)) by (apply Z.pow_le_mono_r; lia).
  assert (2 ^ Zdigits2 b <= 2 ^ Z.max (Zdigits2 a) (Zdigits2 b)) by (apply Z.pow_le_mono_r; lia).
  rewrite Z.pow_add_r by lia. change (2 ^ 1) with 2. lia.
Qed.

(** The aligned sum or difference of two finite numbers. *)
Lemma aligned_sum_digits sx mx ex sy my ey (op : Z -> Z -> Z) :
  (forall u v, Z.abs (op u v) <= Z.abs u + Z.abs v) ->
  let ez := Z.min ex ey in
  Zdigits2 (Z.abs (op (cond_Zopp sx (Zpos (fst (shl_align mx ex ez))))
                      (cond_Zopp sy (Zpos (fst (shl_align my ey ez)))))) + ez
  <= Z.max (Zdigits2 (Zpos mx) + ex) (Zdigits2 (Zpos my) + ey) + 1.
Proof.
  intros Hop ez.
  pose proof (shl_align_spec mx ex ez) as Sx. pose proof (shl_align_spec my ey ez) as Sy.
  destruct (shl_align mx ex ez) as [mx' ex'], (shl_align my ey ez) as [my' ey'].
  destruct Sx as [Ex Mx], Sy as [Ey My]. cbn [fst].
  assert (ex' = ez) as Ex' by lia. assert (ey' = ez) as Ey' by lia.
  rewrite Ex' in Mx. rewrite Ey' in My. clear Ex Ey Ex' Ey' ex' ey'.
  assert (Zdigits2 (Zpos mx') = Zdigits2 (Zpos mx) + (ex - ez)) as Dx
    by (rewrite Mx; apply Zdigits2_mul_pow2; lia).
  assert (Zdigits2 (Zpos my') = Zdigits2 (Zpos my) + (ey - ez)) as Dy
    by (rewrite My; apply Zdigits2_mul_pow2; lia).
  set (X := cond_Zopp sx (Zpos mx')). set (Y := cond_Zopp sy (Zpos my')).
  assert (Z.abs X = Zpos mx') as AX by (unfold X; destruct sx; reflexivity).
  assert (Z.abs Y = Zpos my') as AY by (unfold Y; destruct sy; reflexivity).
  pose proof (Hop X Y) as B. rewrite AX, AY in B.
  pose proof (Zdigits2_mono (Z.abs (op X Y)) (Zpos mx' + Zpos my') ltac:(lia)) as M.
  pose proof (Zdigits2_add_le (Zpos mx') (Zpos my') ltac:(lia) ltac:(lia)) as A.
  lia.
Qed.

Lemma SFadd_fin a b x y :
  sf_fin a x -> sf_fin b y -> -1074 <= Z.max a b + 1 <= 1023 ->
  sf_fin (Z.max a b + 2) (SFadd prec emax x y).
Proof.
  intros Hx Hy Hr.
  destruct x as [sx|sx| |sx mx ex], y as [sy|sy| |sy my ey]; cbn [sf_fin] in Hx, Hy;
    try tauto; cbn [SFadd].
  - destruct sx, sy; exact I.
  - destruct Hy; split; [assumption|lia].
  - destruct Hx; split; [assumption|lia].
  - destruct Hx as [_ Hx], Hy as [_ Hy]. zfix.
    replace (Z.max a b + 2) with (Z.max a b + 1 + 1) by lia.
    apply binary_normalize_fin; [|lia].
    pose proof (aligned_sum_digits sx mx ex sy my ey Z.add ltac:(intros; lia)) as D.
    cbv zeta in D. lia.
Qed.

Lemma SFsub_fin a b x y :
  sf_fin a x -> sf_fin b y -> -1074 <= Z.max a b + 1 <= 1023 ->
  sf_fin (Z.max a b + 2) (SFsub prec emax x y).
Proof.
  intros Hx Hy Hr.
  destruct x as [sx|sx| |sx mx ex], y as [sy|sy| |sy my ey]; cbn [sf_fin] in Hx, Hy;
    try tauto; cbn [SFsub].
  - destruct sx, sy; exact I.
  - destruct Hy; split; [assumption|lia].
  - destruct Hx; split; [assumption|lia].
  - destruct Hx as [_ Hx], Hy as [_ Hy]. zfix.
    replace (Z.max a b + 2) with (Z.max a b + 1 + 1) by lia.
    apply binary_normalize_fin; [|lia].
    pose proof (aligned_sum_digits sx mx ex sy my ey Z.sub ltac:(intros; lia)) as D.
    cbv zeta in D. lia.
Qed.

Lemma pow2_pos j : 0 <= j -> 0 < 2 ^ j.
Proof. intros. apply Z.pow_pos_nonneg; lia. Qed.

Lemma SFdiv_core_spec m1 e1 m2 e2 :
  0 < m1 -> 0 < m2 ->
  let D := Zdigits2 m1 + e1 - (Zdigits2 m2 + e2) in
  let '(q, e', l) := SFdiv_core_binary prec emax m1 e1 m2 e2 in
  0 <= q /\ e' <= fexp64 (Zdigits2 q + e') /\ Zdigits2 q + e' <= Z.max (D + 1) (-1074).
Proof.
  intros H1 H2 D. unfold SFdiv_core_binary. zfix. fold D.
  set (e' := Z.min (fexp64 D) (e1 - e2)).
  set (s := e1 - e2 - e').
  assert (0 <= s) as Hs by (unfold s, e'; lia).
  set (m' := match s with Z.pos _ => Z.shiftl m1 s | 0 => m1 | Z.neg _ => 0 end).
  assert (m' = m1 * 2 ^ s) as Em'.
  { unfold m'. destruct s as [|p|p] eqn:Es; try lia.
    apply Z.shiftl_mul_pow2. lia. }
  clearbody m'.
  pose proof (Z_div_mod m' m2 ltac:(lia)) as DM.
  destruct (Z.div_eucl m' m2) as [q r]. destruct DM as [DM1 DM2].
  pose proof (Zdigits2_pos m1 H1) as P1. pose proof (Zdigits2_pos m2 H2) as P2.
  assert (2 ^ (Zdigits2 m1 - 1) <= m1) as L1 by (apply Zdigits2_ge_iff; lia).
  assert (2 ^ (Zdigits2 m2 - 1) <= m2) as L2 by (apply Zdigits2_ge_iff; lia).
  assert (m1 < 2 ^ Zdigits2 m1) as U1 by (apply Zdigits2_le_iff; lia).
  assert (m2 < 2 ^ Zdigits2 m2) as U2 by (apply Zdigits2_le_iff; lia).
  pose proof (pow2_pos s Hs) as Ps.
  assert (0 <= q) as Hq by nia.
  set (J := Zdigits2 m1 + s - Zdigits2 m2) in *.
  assert (1 <= J -> J <= Zdigits2 q) as LQ.
  { intros HJ. destruct (Z.eq_dec q 0) as [->|Nq].
    - exfalso.
      assert (2 ^ (Zdigits2 m1 - 1) * 2 ^ s <= m') by nia.
      rewrite <- Z.pow_add_r in H by lia.
      assert (2 ^ Zdigits2 m2 <= 2 ^ (Zdigits2 m1 - 1 + s)) by (apply Z.pow_le_mono_r; lia).
      lia.
    - apply Zdigits2_ge_iff; try lia.
      apply Z.nlt_ge. intros C.
      assert (q + 1 <= 2 ^ (J - 1)) as C' by lia.
      assert (m' < m2 * (q + 1)) by lia.
      assert (m2 * (q + 1) <= m2 * 2 ^ (J - 1)) by nia.
      pose proof (pow2_pos (J - 1) ltac:(lia)).
      assert (m2 * 2 ^ (J - 1) < 2 ^ Zdigits2 m2 * 2 ^ (J - 1)) by nia.
      rewrite <- Z.pow_add_r in * by lia.
      replace (Zdigits2 m2 + (J - 1)) with (Zdigits2 m1 - 1 + s) in * by (unfold J; lia).
      assert (2 ^ (Zdigits2 m1 - 1) * 2 ^ s <= m') by nia.
      rewrite <- Z.pow_add_r in * by lia. lia. }
  assert (Zdigits2 q <= Z.max 0 (J + 1)) as UQ.
  { apply Zdigits2_le_iff; try lia.
    apply Z.nle_gt. intros C.
    assert (m' < 2 ^ Zdigits2 m1 * 2 ^ s) as Um by nia.
    rewrite <- Z.pow_add_r in Um by lia.
    assert (m2 * 2 ^ Z.max 0 (J + 1) <= m') as Lm by nia.
    pose proof (pow2_pos (Z.max 0 (J + 1)) ltac:(lia)).
    assert (2 ^ (Zdigits2 m2 - 1) * 2 ^ Z.max 0 (J + 1) <= m') as Lm' by nia.
    rewrite <- Z.pow_add_r in Lm' by lia.
    assert (2 ^ (Zdigits2 m1 + s) <= 2 ^ (Zdigits2 m2 - 1 + Z.max 0 (J + 1)))
      by (apply Z.pow_le_mono_r; unfold J; lia).
    lia. }
  pose proof (Zdigits2_nonneg q) as Nq.
  clear DM1 DM2 L1 L2 U1 U2 Ps Em'.
  subst J s e' D. rewrite ?fexp64_eq in *.
  repeat split; lia.
Qed.

Lemma SFdiv_fin a b sx mx ex sy my ey :
  Zdigits2 (Zpos mx) + ex <= a -> b <= Zdigits2 (Zpos my) + ey ->
  -1075 <= a - b <= 1022 ->
  sf_fin (a - b + 2)
    (SFdiv prec emax (S754_finite sx mx ex) (S754_finite sy my ey)).
Proof.
  intros Ha Hb Hr. cbn [SFdiv].
  pose proof (SFdiv_core_spec (Zpos mx) ex (Zpos my) ey ltac:(lia) ltac:(lia)) as S.
  cbv zeta in S.
  destruct (SFdiv_core_binary prec emax (Zpos mx) ex (Zpos my) ey) as [[q e'] l].
  destruct S as (Hq & He & Hm).
  replace (a - b + 2) with (a - b + 1 + 1) by lia.
  apply binary_round_aux_fin; lia.
Qed.

(** ** Primitive floats *)

Lemma fin64_weaken k k' x : fin64 k x -> k <= k' -> fin64 k' x.
Proof. apply sf_fin_weaken. Qed.

Lemma fin64_mul a b x y :
  fin64 a x -> fin64 b y -> -1074 <= a + b <= 1023 -> fin64 (a + b + 1) (x * y)%float.
Proof. unfold fin64. rewrite mul_spec. apply SFmul_fin. Qed.

Lemma fin64_add a b x y :
  fin64 a x -> fin64 b y -> -1074 <= Z.max a b + 1 <= 1023 ->
  fin64 (Z.max a b + 2) (x + y)%float.
Proof. unfold fin64. rewrite add_spec. apply SFadd_fin. Qed.

Lemma fin64_sub a b x y :
  fin64 a x -> fin64 b y -> -1074 <= Z.max a b + 1 <= 1023 ->
  fin64 (Z.max a b + 2) (x - y)%float.
Proof. unfold fin64. rewrite sub_spec. apply SFsub_fin. Qed.

Lemma fin64_div a b x y :
  fin64 a x -> lo64 b y -> -1075 <= a - b <= 1022 -> fin64 (a - b + 2) (x / y)%float.
Proof.
  unfold fin64, lo64. rewrite div_spec. unfold SF64div.
  destruct (Prim2SF x) as [sx|sx| |sx mx ex], (Prim2SF y) as [sy|sy| |sy my ey];
    cbn [sf_fin sf_lo]; try tauto.
  intros [_ Ha] Hb Hr. apply SFdiv_fin; assumption.
Qed.

Lemma SF2Prim_fin k z : sf_fin k z -> fin64 k (SF2Prim z).
Proof.
  intros H. unfold fin64. rewrite Prim2SF_SF2Prim; [exact H|].
  apply (sf_fin_valid k). exact H.
Qed.

Lemma py_int_fin k x : fin64 k x -> exists z, py_int x = Ok z.
Proof.
  unfold fin64, py_int. destruct (Prim2SF x); cbn [sf_fin]; try tauto; eauto.
Qed.

Lemma bounded_digits m e : bounded prec emax m e = true ->
  Zdigits2 (Zpos m) <= 53 /\ -1074 <= e <= 971 /\ (-1074 < e -> Zdigits2 (Zpos m) = 53).
Proof. intros B. apply bounded_iff in B. rewrite fexp64_eq in B. lia. Qed.

Lemma pos_compare_cont_Eq a b : Pos.compare_cont Eq a b = Pos.compare a b.
Proof. reflexivity. Qed.

(** A float whose absolute value is at most [2^52 * 2^e0] is finite. *)
Lemma fin64_of_leb x c e0 :
  Prim2SF c = S754_finite false 4503599627370496 e0 ->
  (abs x <=? c)%float = true -> fin64 (e0 + 54) x.
Proof.
  intros Hc H. unfold fin64. rewrite leb_spec, abs_spec, Hc in H.
  pose proof (Prim2SF_valid x) as V.
  destruct (Prim2SF x) as [s|s| |s m e]; cbn [sf_fin]; try exact I; try discriminate H.
  cbn [valid_binary] in V. split; [exact V|].
  apply bounded_digits in V.
  unfold SFleb, SFabs, SFcompare in H. zfix.
  destruct (Z.compare_spec e e0) as [E|E|E]; try discriminate H; lia.
Qed.

(** A float whose absolute value is at least [2^52 * 2^e0] and at most
    some finite number has at least that magnitude. *)
Lemma lo64_of_leb x c e0 :
  Prim2SF c = S754_finite false 4503599627370496 e0 -> -1074 <= e0 ->
  (c <=? abs x)%float = true -> (abs x <? infinity)%float = true ->
  lo64 (e0 + 53) x.
Proof.
  intros Hc He H F. unfold lo64. rewrite leb_spec, abs_spec, Hc in H.
  rewrite ltb_spec, abs_spec in F.
  pose proof (Prim2SF_valid x) as V.
  destruct (Prim2SF x) as [s|s| |s m e]; cbn [sf_lo]; try discriminate H; try discriminate F.
  cbn [valid_binary] in V. apply bounded_digits in V.
  unfold SFleb, SFabs, SFcompare in H. zfix.
  destruct (Z.compare_spec e0 e) as [E|E|E]; try discriminate H; try lia.
  subst e. rewrite pos_compare_cont_Eq in H.
  assert (4503599627370496 <= m)%positive as L.
  { destruct (Pos.compare_spec 4503599627370496 m); try discriminate H; lia. }
  assert (53 <= Zdigits2 (Zpos m)); [|lia].
  apply Zdigits2_ge_iff; lia.
Qed.

Lemma py_truediv_fin a b :
  0 <= a <= b -> 0 < b -> exists f, py_truediv a b = Ok f /\ fin64 2 f.
Proof.
  intros Ha Hb. unfold py_truediv.
  replace (b =? 0) with false by (symmetry; apply Z.eqb_neq; lia).
  assert (sf_fin 2 (SFdiv prec emax (Z2SF a) (Z2SF b))) as F.
  { destruct b as [|pb|pb]; try lia. destruct a as [|pa|pa]; try lia.
    - exact I.
    - cbn [Z2SF].
      pose proof (Zdigits2_mono (Zpos pa) (Zpos pb) ltac:(lia)) as M.
      apply (sf_fin_weaken (Zdigits2 (Zpos pb) - Zdigits2 (Zpos pb) + 2)); [|lia].
      apply SFdiv_fin; lia. }
  destruct (SFdiv prec emax (Z2SF a) (Z2SF b)) as [s|s| |s m e] eqn:E;
    cbn [sf_fin] in F; try tauto.
  - eexists. split; [reflexivity|]. apply SF2Prim_fin. exact I.
  - eexists. split; [reflexivity|]. apply SF2Prim_fin. exact F.
Qed.

Lemma fmod1_fin x k : fin64 k x -> fin64 1 (fmod1 x).
Proof.
  unfold fin64 at 1, fmod1. destruct (Prim2SF x) as [s|s| |s m e] eqn:E; cbn [sf_fin]; try tauto.
  - intros _. unfold fin64. rewrite E. exact I.
  - intros _. destruct e as [|p|p].
    + destruct s; exact I.
    + destruct s; exact I.
    + apply SF2Prim_fin. apply (binary_normalize_fin _ _ _ 0); [|lia].
      assert (Z.abs (cond_Zopp s (Zpos m mod 2 ^ Zpos p)) = Zpos m mod 2 ^ Zpos p) as A.
      { pose proof (Z.mod_pos_bound (Zpos m) (2 ^ Zpos p) (pow2_pos (Zpos p) ltac:(lia))).
        destruct s; cbn [cond_Zopp]; zfix; lia. }
      rewrite A.
      pose proof (Z.mod_pos_bound (Zpos m) (2 ^ Zpos p) (pow2_pos (Zpos p) ltac:(lia))) as B.
      assert (Zdigits2 (Zpos m mod 2 ^ Zpos p) <= Zpos p); [|lia].
      apply Zdigits2_le_iff; lia.
Qed.

Lemma fin64_one : fin64 1 1%float.
Proof. vm_compute. split; [reflexivity|discriminate]. Qed.

Lemma py_mod1_fin x k : fin64 k x -> fin64 3 (py_mod1 x).
Proof.
  intros H. apply fmod1_fin in H. unfold py_mod1.
  destruct (fmod1 x =? 0)%float.
  - exact I.
  - destruct (fmod1 x <? 0)%float.
    + apply (fin64_add 1 1); [exact H|exact fin64_one|lia].
    + apply (fin64_weaken 1); [exact H|lia].
Qed.

(** A constant of absolute value at most 1024. *)
Lemma fin64_const c : (abs c <=? 1024)%float = true -> fin64 12 c.
Proof. apply (fin64_of_leb c 1024%float (-42)). reflexivity. Qed.

(** Bounds the magnitude of a float expression built from the four
    operations, [py_mod1], bounded variables and constants. *)
Ltac fin64_tac :=
  lazymatch goal with
  | |- fin64 _ (_ * _)%float => eapply fin64_mul; [fin64_tac | fin64_tac | lia]
  | |- fin64 _ (_ + _)%float => eapply fin64_add; [fin64_tac | fin64_tac | lia]
  | |- fin64 _ (_ - _)%float => eapply fin64_sub; [fin64_tac | fin64_tac | lia]
  | |- fin64 _ (_ / _)%float => eapply fin64_div; [fin64_tac | eassumption | lia]
  | |- fin64 _ (py_mod1 _) => eapply py_mod1_fin; fin64_tac
  | |- fin64 _ _ => first [eassumption | apply fin64_const; reflexivity]
  end.

(** ** Checking a property of [0 .. n-1] by evaluation *)

Lemma allb_spec n p : allb n p = true -> forall z, 0 <= z < Z.of_nat n -> p z = true.
Proof.
  induction n as [|n IH]; cbn [allb]; intros H z Hz; [lia|].
  apply andb_true_iff in H. destruct H as [H1 H2].
  destruct (Z.eq_dec z (Z.of_nat n)) as [->|N]; [exact H1|].
  apply IH; [exact H2|lia].
Qed.

(** ** [mapM] and [range] *)

Lemma mapM_Forall2 {A B} (f : A -> result B) l bs :
  mapM f l = Ok bs <-> Forall2 (fun a b => f a = Ok b) l bs.
Proof.
  revert bs. induction l as [|a l IH]; intros bs; cbn [mapM].
  - split; intros H.
    + injection H as <-. constructor.
    + inversion H. reflexivity.
  - unfold bind. destruct (f a) as [b|e] eqn:Ea.
    + destruct (mapM f l) as [bs'|e] eqn:El.
      * split; intros H.
        -- injection H as <-. constructor; [exact Ea|]. apply IH. reflexivity.
        -- inversion H as [|? b' ? bs'' Hb Hbs]; subst.
           apply IH in Hbs. congruence.
      * split; intros H; [discriminate|].
        inversion H as [|? b' ? bs'' Hb Hbs]; subst. apply IH in Hbs. discriminate.
    + split; intros H; [discriminate|].
      inversion H as [|? b' ? bs'' Hb Hbs]; subst. congruence.
Qed.

Lemma mapM_total {A B} (f : A -> result B) l :
  (forall a, In a l -> exists b, f a = Ok b) -> exists bs, mapM f l = Ok bs.
Proof.
  induction l as [|a l IH]; intros H; cbn [mapM].
  - eauto.
  - destruct (H a (or_introl eq_refl)) as [b Hb]. rewrite Hb.
    destruct IH as [bs Hbs]; [intros; apply H; right; assumption|].
    rewrite Hbs. cbn. eauto.
Qed.

Lemma mapM_length {A B} (f : A -> result B) l bs :
  mapM f l = Ok bs -> List.length bs = List.length l.
Proof. intros H. apply mapM_Forall2 in H. symmetry. eapply Forall2_length. exact H. Qed.

Lemma mapM_nth {A B} (f : A -> result B) l bs i a d :
  mapM f l = Ok bs -> nth_error l i = Some a -> f a = Ok (nth i bs d).
Proof.
  intros H. apply mapM_Forall2 in H. revert i.
  induction H as [|a' b' l' bs' Hab _ IH]; intros i Hi.
  - destruct i; discriminate.
  - destruct i as [|i]; cbn in *.
    + injection Hi as <-. exact Hab.
    + apply IH. exact Hi.
Qed.

Lemma mapM_const {A B} (f : A -> result B) l b :
  (forall a, In a l -> f a = Ok b) -> mapM f l = Ok (repeat b (List.length l)).
Proof.
  induction l as [|a l IH]; intros H; cbn [mapM List.length repeat].
  - reflexivity.
  - rewrite (H a (or_introl eq_refl)). cbn [bind].
    rewrite IH by (intros; apply H; right; assumption). reflexivity.
Qed.

Lemma range_length n : List.length (range n) = Z.to_nat n.
Proof. unfold range. rewrite length_map, length_seq. reflexivity. Qed.

Lemma range_nth n i : 0 <= i < n -> nth_error (range n) (Z.to_nat i) = Some i.
Proof.
  intros H. unfold range. rewrite nth_error_map.
  rewrite nth_error_seq. 
  replace (Z.to_nat i <? Z.to_nat n)%nat with true by (symmetry; apply Nat.ltb_lt; lia).
  cbn. f_equal. lia.
Qed.

Lemma range_In n i : In i (range n) <-> 0 <= i < n.
Proof.
  unfold range. rewrite in_map_iff. split.
  - intros [k [<- Hk]]. apply in_seq in Hk. lia.
  - intros H. exists (Z.to_nat i). split; [lia|]. apply in_seq. lia.
Qed.

(** ** The ratios of a gradient and the channels of a blend *)

Lemma py_truediv_zero m : 0 < m -> py_truediv 0 m = Ok 0%float.
Proof. destruct m; try lia. intros _. reflexivity. Qed.

Lemma div_eucl_eq a b : Z.div_eucl a b = (a / b, a mod b).
Proof. unfold Z.div, Z.modulo. destruct (Z.div_eucl a b). reflexivity. Qed.

Lemma SFdiv_self p :
  SFdiv prec emax (S754_finite false p 0) (S754_finite false p 0)
  = S754_finite false 4503599627370496 (-52).
Proof.
  cbn [SFdiv]. unfold SFdiv_core_binary. zfix.
  replace (Zdigits2 (Zpos p) + 0 - (Zdigits2 (Zpos p) + 0)) with 0 by lia.
  change (Z.min (fexp64 0) (0 - 0)) with (-53).
  change (0 - 0 - -53) with 53.
  rewrite div_eucl_eq, Z.shiftl_mul_pow2 by lia.
  rewrite (Z.mul_comm (Zpos p)), Z.div_mul, Z.mod_mul by lia.
  assert (new_location (Zpos p) 0 = loc_Exact) as ->.
  { unfold new_location, new_location_even, new_location_odd.
    destruct (IntDef.Z.even (Zpos p)); reflexivity. }
  reflexivity.
Qed.

Lemma py_truediv_self m : 0 < m -> py_truediv m m = Ok 1%float.
Proof.
  destruct m as [|p|p]; try lia. intros _. unfold py_truediv.
  change (Zpos p =? 0) with false. cbn [Z2SF]. rewrite SFdiv_self. reflexivity.
Qed.

Lemma blend_ends_checked : allb 256 blend_ends_check = true.
Proof. vm_compute. reflexivity. Qed.

Lemma py_float_channel x :
  0 <= x <= 255 ->
  exists f, py_float x = Ok f /\ (f * 0 = 0)%float /\
            py_int (f * 1 + 0)%float = Ok x /\ py_int (0 + f * 1)%float = Ok x /\
            fin64 10 f.
Proof.
  intros Hx. pose proof (allb_spec 256 _ blend_ends_checked x ltac:(lia)) as C.
  unfold blend_ends_check in C. destruct (py_float x) as [f|]; [|discriminate].
  apply andb_true_iff in C. destruct C as [C C4].
  apply andb_true_iff in C. destruct C as [C C3].
  apply andb_true_iff in C. destruct C as [C1 C2].
  exists f. split; [reflexivity|]. repeat split.
  - apply FloatAxioms.Leibniz.eqb_spec. exact C1.
  - destruct (py_int (f * 1 + 0)) as [z|]; [|discriminate]. apply Z.eqb_eq in C2. congruence.
  - destruct (py_int (0 + f * 1)) as [z|]; [|discriminate]. apply Z.eqb_eq in C3. congruence.
  - apply (fin64_of_leb f 256%float (-44)); [reflexivity|exact C4].
Qed.

Lemma blend_channel_zero x y :
  0 <= x <= 255 -> 0 <= y <= 255 -> Color.blend_channel x y (PyFloat 0) = Ok x.
Proof.
  intros Hx Hy.
  destruct (py_float_channel x Hx) as (fx & Ex & _ & Px & _ & _).
  destruct (py_float_channel y Hy) as (fy & Ey & Zy & _ & _ & _).
  unfold Color.blend_channel, num_sub, num_mul, num_add, num_binop, to_float.
  change (py_float 1) with (Ok 1%float). cbn [bind].
  change (1 - 0)%float with 1%float.
  rewrite Ex, Ey. cbn [bind num_int]. rewrite Zy. exact Px.
Qed.

Lemma blend_channel_one x y :
  0 <= x <= 255 -> 0 <= y <= 255 -> Color.blend_channel x y (PyFloat 1) = Ok y.
Proof.
  intros Hx Hy.
  destruct (py_float_channel x Hx) as (fx & Ex & Zx & _ & _ & _).
  destruct (py_float_channel y Hy) as (fy & Ey & _ & _ & Py & _).
  unfold Color.blend_channel, num_sub, num_mul, num_add, num_binop, to_float.
  change (py_float 1) with (Ok 1%float). cbn [bind].
  change (1 - 1)%float with 0%float.
  rewrite Ex, Ey. cbn [bind num_int]. rewrite Zx. exact Py.
Qed.

Lemma blend_channel_int_zero x y : Color.blend_channel x y (PyInt 0) = Ok x.
Proof.
  unfold Color.blend_channel, num_sub, num_mul, num_add, num_binop. cbn [bind num_int].
  f_equal. lia.
Qed.

Lemma blend_channel_total x y r :
  0 <= x <= 255 -> 0 <= y <= 255 -> fin64 2 r ->
  exists v, Color.blend_channel x y (PyFloat r) = Ok v.
Proof.
  intros Hx Hy Hr.
  destruct (py_float_channel x Hx) as (fx & Ex & _ & _ & _ & Fx).
  destruct (py_float_channel y Hy) as (fy & Ey & _ & _ & _ & Fy).
  unfold Color.blend_channel, num_sub, num_mul, num_add, num_binop, to_float.
  change (py_float 1) with (Ok 1%float). cbn [bind].
  rewrite Ex, Ey. cbn [bind num_int].
  eapply py_int_fin. fin64_tac.
Qed.

Lemma valid_channels c :
  RGB.valid c = true ->
  0 <= RGB.r c <= 255 /\ 0 <= RGB.g c <= 255 /\ 0 <= RGB.b c <= 255.
Proof. unfold RGB.valid. rewrite !andb_true_iff, !Z.leb_le. lia. Qed.

Lemma clamp_id lo hi x : lo <= x <= hi -> clamp lo hi x = x.
Proof. unfold clamp. lia. Qed.

Lemma clamp_range lo hi x : lo <= hi -> lo <= clamp lo hi x <= hi.
Proof. unfold clamp. lia. Qed.

Lemma RGB_new_valid r g b : RGB.valid (RGB.new r g b) = true.
Proof.
  unfold RGB.valid, RGB.new. cbn [RGB.r RGB.g RGB.b].
  pose proof (clamp_range 0 255 r). pose proof (clamp_range 0 255 g).
  pose proof (clamp_range 0 255 b).
  rewrite !andb_true_iff, !Z.leb_le. lia.
Qed.

Lemma RGB_new_id c :
  RGB.valid c = true -> RGB.new (RGB.r c) (RGB.g c) (RGB.b c) = c.
Proof.
  intros V. apply valid_channels in V. destruct c as [r g b]. cbn in *.
  unfold RGB.new. rewrite !clamp_id by lia. reflexivity.
Qed.

Lemma blend_total (c1 c2 : Color.t) r :
  RGB.valid (Color.rgb c1) = true -> RGB.valid (Color.rgb c2) = true ->
  fin64 2 r -> exists c, Color.blend c1 c2 (PyFloat r) = Ok c.
Proof.
  intros V1 V2 Hr. apply valid_channels in V1, V2.
  unfold Color.blend.
  destruct (blend_channel_total (RGB.r (Color.rgb c1)) (RGB.r (Color.rgb c2)) r) as [vr ->];
    try tauto.
  destruct (blend_channel_total (RGB.g (Color.rgb c1)) (RGB.g (Color.rgb c2)) r) as [vg ->];
    try tauto.
  destruct (blend_channel_total (RGB.b (Color.rgb c1)) (RGB.b (Color.rgb c2)) r) as [vb ->];
    try tauto.
  cbn. eauto.
Qed.

Lemma blend_zero (c1 c2 : Color.t) :
  RGB.valid (Color.rgb c1) = true -> RGB.valid (Color.rgb c2) = true ->
  Color.blend c1 c2 (PyFloat 0) = Ok c1.
Proof.
  intros V1 V2. pose proof (valid_channels _ V1). pose proof (valid_channels _ V2).
  unfold Color.blend. rewrite !blend_channel_zero by tauto. cbn.
  rewrite RGB_new_id by exact V1. destruct c1; reflexivity.
Qed.

Lemma blend_one (c1 c2 : Color.t) :
  RGB.valid (Color.rgb c1) = true -> RGB.valid (Color.rgb c2) = true ->
  Color.blend c1 c2 (PyFloat 1) = Ok c2.
Proof.
  intros V1 V2. pose proof (valid_channels _ V1). pose proof (valid_channels _ V2).
  unfold Color.blend. rewrite !blend_channel_one by tauto. cbn.
  rewrite RGB_new_id by exact V2. destruct c2; reflexivity.
Qed.

Lemma blend_int_zero (c1 c2 : Color.t) :
  RGB.valid (Color.rgb c1) = true -> Color.blend c1 c2 (PyInt 0) = Ok c1.
Proof.
  intros V1. unfold Color.blend. rewrite !blend_channel_int_zero. cbn.
  rewrite RGB_new_id by exact V1. destruct c1; reflexivity.
Qed.

(** The samples of a gradient of more than one step. *)
Lemma gradient_many (c1 c2 : Color.t) steps :
  RGB.valid (Color.rgb c1) = true -> RGB.valid (Color.rgb c2) = true ->
  1 < steps ->
  exists l, Palette.gradient c1 c2 steps = Ok l /\
    List.length l = Z.to_nat steps /\
    (forall i, 0 <= i < steps ->
       exists q, py_truediv i (steps - 1) = Ok q /\
                 Color.blend c1 c2 (PyFloat q) = Ok (nth (Z.to_nat i) l c1)) /\
    nth 0 l c1 = c1 /\ nth (Z.to_nat (steps - 1)) l c1 = c2.
Proof.
  intros V1 V2 Hs. unfold Palette.gradient.
  replace (1 <? steps) with true by (symmetry; apply Z.ltb_lt; exact Hs).
  match goal with |- exists l, mapM ?f _ = _ /\ _ => set (F := f) end.
  assert (forall i, 0 <= i < steps ->
            exists q, py_truediv i (steps - 1) = Ok q /\ fin64 2 q) as Hq
    by (intros i Hi; apply py_truediv_fin; lia).
  destruct (mapM_total F (range steps)) as [l Hl].
  { intros i Hi. apply range_In in Hi. destruct (Hq i Hi) as (q & Eq & Fq).
    unfold F. rewrite Eq. cbn [bind]. apply blend_total; assumption. }
  assert (forall i, 0 <= i < steps ->
            exists q, py_truediv i (steps - 1) = Ok q /\
                      Color.blend c1 c2 (PyFloat q) = Ok (nth (Z.to_nat i) l c1)) as Hn.
  { intros i Hi. destruct (Hq i Hi) as (q & Eq & _). exists q. split; [exact Eq|].
    pose proof (mapM_nth F _ _ _ _ c1 Hl (range_nth steps i Hi)) as N.
    unfold F in N. rewrite Eq in N. exact N. }
  exists l. split; [exact Hl|]. split; [|split; [exact Hn|split]].
  - rewrite (mapM_length _ _ _ Hl). apply range_length.
  - destruct (Hn 0 ltac:(lia)) as (q & Eq & Bq).
    rewrite py_truediv_zero in Eq by lia. injection Eq as <-.
    rewrite blend_zero in Bq by assumption. injection Bq as Bq. symmetry. exact Bq.
  - destruct (Hn (steps - 1) ltac:(lia)) as (q & Eq & Bq).
    rewrite py_truediv_self in Eq by lia. injection Eq as <-.
    rewrite blend_one in Bq by assumption. injection Bq as Bq. symmetry. exact Bq.
Qed.

(** A gradient of at most one step repeats its start. *)
Lemma gradient_few (c1 c2 : Color.t) steps :
  RGB.valid (Color.rgb c1) = true -> steps <= 1 ->
  Palette.gradient c1 c2 steps = Ok (repeat c1 (Z.to_nat steps)).
Proof.
  intros V1 Hs. unfold Palette.gradient.
  replace (1 <? steps) with false by (symmetry; apply Z.ltb_ge; exact Hs).
  rewrite <- (range_length steps). apply mapM_const.
  intros i _. cbn [bind]. apply blend_int_zero. exact V1.
Qed.

(** ** [HSL.to_rgb] returns on every valid value *)

Lemma HSL_valid_fields c :
  HSL.valid c = true ->
  0 <= HSL.h c < 360 /\ 0 <= HSL.s c <= 100 /\ 0 <= HSL.l c <= 100.
Proof. unfold HSL.valid. rewrite !andb_true_iff, !Z.leb_le, Z.ltb_lt. lia. Qed.

Lemma HSL_new_valid h s l : HSL.valid (HSL.new h s l) = true.
Proof.
  unfold HSL.valid, HSL.new. cbn [HSL.h HSL.s HSL.l].
  pose proof (Z.mod_pos_bound h 360 ltac:(lia)).
  pose proof (clamp_range 0 100 s). pose proof (clamp_range 0 100 l).
  rewrite !andb_true_iff, !Z.leb_le, Z.ltb_lt. lia.
Qed.

Lemma _v_fin m1 m2 hue a :
  fin64 19 m1 -> fin64 17 m2 -> fin64 a hue -> fin64 51 (colorsys._v m1 m2 hue).
Proof.
  intros H1 H2 Hh. unfold colorsys._v.
  assert (fin64 3 (py_mod1 hue)) as Hm by (eapply py_mod1_fin; exact Hh).
  set (hue' := py_mod1 hue) in *. clearbody hue'.
  destruct (hue' <? colorsys.ONE_SIXTH)%float; [|destruct (hue' <? 0.5)%float;
    [|destruct (hue' <? colorsys.TWO_THIRD)%float]].
  - eapply fin64_weaken; [fin64_tac|lia].
  - eapply fin64_weaken; [fin64_tac|lia].
  - eapply fin64_weaken; [fin64_tac|lia].
  - eapply fin64_weaken; [fin64_tac|lia].
Qed.

Lemma hls_to_rgb_fin h l s :
  fin64 2 h -> fin64 2 l -> fin64 2 s ->
  let '(r, g, b) := colorsys.hls_to_rgb h l s in
  fin64 51 r /\ fin64 51 g /\ fin64 51 b.
Proof.
  intros Hh Hl Hs. unfold colorsys.hls_to_rgb.
  destruct (s =? 0)%float.
  - repeat split; (eapply fin64_weaken; [exact Hl|lia]).
  - set (m2 := if (l <=? 0.5)%float then (l * (1 + s))%float else (l + s - l * s)%float).
    assert (fin64 17 m2) as H2.
    { unfold m2. destruct (l <=? 0.5)%float; (eapply fin64_weaken; [fin64_tac|lia]). }
    clearbody m2.
    assert (fin64 19 (2 * l - m2)%float) as H1
      by (eapply fin64_weaken; [fin64_tac|lia]).
    repeat split; (eapply _v_fin; [exact H1|exact H2|fin64_tac]).
Qed.

Lemma HSL_to_rgb_total c :
  HSL.valid c = true -> exists v, HSL.to_rgb c = Ok v /\ RGB.valid v = true.
Proof.
  intros V. apply HSL_valid_fields in V. unfold HSL.to_rgb.
  destruct (py_truediv_fin (HSL.h c) 360) as (h & -> & Hh); try lia.
  destruct (py_truediv_fin (HSL.s c) 100) as (s & -> & Hs); try lia.
  destruct (py_truediv_fin (HSL.l c) 100) as (l & -> & Hl); try lia.
  cbn [bind].
  pose proof (hls_to_rgb_fin h l s Hh Hl Hs) as F.
  destruct (colorsys.hls_to_rgb h l s) as [[r g] b]. destruct F as (Fr & Fg & Fb).
  assert (exists z, py_int (r * 255)%float = Ok z) as [ri ->]
    by (eapply py_int_fin; fin64_tac).
  assert (exists z, py_int (g * 255)%float = Ok z) as [gi ->]
    by (eapply py_int_fin; fin64_tac).
  assert (exists z, py_int (b * 255)%float = Ok z) as [bi ->]
    by (eapply py_int_fin; fin64_tac).
  cbn [bind]. eexists. split; [reflexivity|apply RGB_new_valid].
Qed.

(** ** [RGB.to_hsl] returns on every valid value *)

Lemma channel_pairs_checked : pairs_ok channel_floats = true.
Proof. vm_compute. reflexivity. Qed.

Lemma channel_float_spec k :
  0 <= k <= 255 ->
  exists f, py_truediv k 255 = Ok f /\ In f channel_floats /\ fin64 2 f.
Proof.
  intros Hk. destruct (py_truediv_fin k 255) as (f & E & F); try lia.
  exists f. split; [exact E|]. split; [|exact F].
  unfold channel_floats. apply in_map_iff. exists k. split.
  - unfold channel_float. rewrite E. reflexivity.
  - apply range_In. lia.
Qed.

Lemma pairs_ok_spec t a b : pairs_ok t = true -> In a t -> In b t -> pair_ok a b = true.
Proof.
  unfold pairs_ok. intros C Ha Hb.
  rewrite forallb_forall in C. specialize (C a Ha).
  rewrite forallb_forall in C. exact (C b Hb).
Qed.

Lemma pair_ok_spec a b :
  In a channel_floats -> In b channel_floats -> pair_ok a b = true.
Proof. exact (pairs_ok_spec channel_floats a b channel_pairs_checked). Qed.

Lemma py_int_finb x : finb x = true -> exists z, py_int x = Ok z.
Proof.
  unfold finb, py_int. rewrite ltb_spec, abs_spec.
  destruct (Prim2SF x) as [s|s| |s m e]; cbn; try discriminate; eauto.
Qed.

Lemma py_fdiv_ok x y : (y =? 0)%float = false -> py_fdiv x y = Ok (x / y)%float.
Proof. intros H. unfold py_fdiv. rewrite H. reflexivity. Qed.

Lemma py_max3_cases a b c : py_max3 a b c = a \/ py_max3 a b c = b \/ py_max3 a b c = c.
Proof. unfold py_max3. destruct (a <? b)%float; destruct (_ <? c)%float; auto. Qed.

Lemma py_min3_cases a b c : py_min3 a b c = a \/ py_min3 a b c = b \/ py_min3 a b c = c.
Proof. unfold py_min3. destruct (b <? a)%float; destruct (c <? _)%float; auto. Qed.

Lemma lo64_six : lo64 3 6%float.
Proof. vm_compute. discriminate. Qed.

Lemma rgb_to_hls_total r g b :
  In r channel_floats -> In g channel_floats -> In b channel_floats ->
  fin64 2 r -> fin64 2 g -> fin64 2 b ->
  exists h l s, colorsys.rgb_to_hls r g b = Ok (h, l, s) /\
    fin64 3 h /\ finb (l * 100)%float = true /\ finb (s * 100)%float = true.
Proof.
  intros Ir Ig Ib Fr Fg Fb. unfold colorsys.rgb_to_hls.
  assert (In (py_max3 r g b) channel_floats /\ fin64 2 (py_max3 r g b)) as [Imax Fmax]
    by (destruct (py_max3_cases r g b) as [-> | [-> | ->]]; auto).
  assert (In (py_min3 r g b) channel_floats /\ fin64 2 (py_min3 r g b)) as [Imin Fmin]
    by (destruct (py_min3_cases r g b) as [-> | [-> | ->]]; auto).
  set (maxc := py_max3 r g b) in *. set (minc := py_min3 r g b) in *.
  clearbody maxc minc.
  pose proof (pair_ok_spec maxc minc Imax Imin) as P. unfold pair_ok in P. cbv zeta in P.
  apply andb_true_iff in P. destruct P as [Pl P].
  destruct (minc =? maxc)%float.
  - exists 0%float, ((maxc + minc) / 2)%float, 0%float.
    split; [reflexivity|]. split; [exact I|]. split; [exact Pl|reflexivity].
  - cbn [orb] in P.
    apply andb_true_iff in P. destruct P as [P Ps].
    apply andb_true_iff in P. destruct P as [P Pf].
    apply andb_true_iff in P. destruct P as [Pn Plo].
    apply negb_true_iff in Pn.
    assert (lo64 (-8) (maxc - minc)%float) as Lo
      by (apply (lo64_of_leb _ 0.001953125%float (-61)); [reflexivity|lia|exact Plo|exact Pf]).
    assert (exists s, (if ((maxc + minc) / 2 <=? 0.5)%float
                       then py_fdiv (maxc - minc) (maxc + minc)
                       else py_fdiv (maxc - minc) (2 - maxc - minc))%float = Ok s /\
                      finb (s * 100)%float = true) as (s & Es & Fs).
    { destruct ((maxc + minc) / 2 <=? 0.5)%float;
        apply andb_true_iff in Ps; destruct Ps as [Pz Pq]; apply negb_true_iff in Pz;
        rewrite py_fdiv_ok by exact Pz; eauto. }
    rewrite Es. cbn [bind]. rewrite !py_fdiv_ok by exact Pn. cbn [bind].
    eexists _, _, s. split; [reflexivity|]. split; [|split; [exact Pl|exact Fs]].
    pose proof lo64_six as L6.
    destruct (r =? maxc)%float; [|destruct (g =? maxc)%float];
      (eapply py_mod1_fin; fin64_tac).
Qed.

Lemma RGB_to_hsl_total c :
  RGB.valid c = true -> exists v, RGB_to_hsl c = Ok v /\ HSL.valid v = true.
Proof.
  intros V. apply valid_channels in V. unfold RGB_to_hsl.
  destruct (channel_float_spec (RGB.r c)) as (r & -> & Ir & Fr); try lia.
  destruct (channel_float_spec (RGB.g c)) as (g & -> & Ig & Fg); try lia.
  destruct (channel_float_spec (RGB.b c)) as (b & -> & Ib & Fb); try lia.
  cbn [bind].
  destruct (rgb_to_hls_total r g b Ir Ig Ib Fr Fg Fb) as (h & l & s & -> & Fh & Fl & Fs).
  cbn [bind].
  assert (exists z, py_int (h * 360)%float = Ok z) as [hi ->]
    by (eapply py_int_fin; fin64_tac).
  destruct (py_int_finb _ Fs) as [si ->].
  destruct (py_int_finb _ Fl) as [li ->].
  cbn [bind]. eexists. split; [reflexivity|apply HSL_new_valid].
Qed.

(** ** Characters and strings *)

Lemma all_ascii_complete c : In c all_ascii.
Proof.
  unfold all_ascii. apply in_map_iff. exists (nat_of_ascii c). split.
  - apply ascii_nat_embedding.
  - apply in_seq. pose proof (nat_ascii_bounded c). lia.
Qed.

Lemma ascii_forall (P : ascii -> bool) :
  forallb P all_ascii = true -> forall c, P c = true.
Proof. intros H c. rewrite forallb_forall in H. apply H, all_ascii_complete. Qed.

Lemma hex_pairs_checked : forallb hex_pair_check all_ascii = true.
Proof. vm_compute. reflexivity. Qed.

Lemma result_Z_eqb_eq a b : result_Z_eqb a b = true -> a = Ok b.
Proof. destruct a; cbn; [|discriminate]. intros H. apply Z.eqb_eq in H. congruence. Qed.

Lemma int_of_string_hex2 c1 c2 :
  is_hex c1 = true -> is_hex c2 = true ->
  int_of_string (String c1 (String c2 EmptyString)) 16
  = Ok (16 * digit_value c1 + digit_value c2).
Proof.
  intros H1 H2. pose proof (ascii_forall _ hex_pairs_checked c1) as C.
  unfold hex_pair_check in C. rewrite H1 in C.
  apply andb_true_iff in C. destruct C as [_ C].
  rewrite forallb_forall in C. specialize (C c2 (all_ascii_complete c2)).
  rewrite H2 in C. apply result_Z_eqb_eq. exact C.
Qed.

Lemma is_hex_not_hash c : is_hex c = true -> Ascii.eqb "#" c = false.
Proof.
  intros H1. pose proof (ascii_forall _ hex_pairs_checked c) as C.
  unfold hex_pair_check in C. rewrite H1 in C.
  apply andb_true_iff in C. destruct C as [C _].
  apply andb_true_iff in C. destruct C as [C _]. apply negb_true_iff. exact C.
Qed.

(** Every failure of [int] on a string is a [ValueError]. *)
Lemma int_of_string_error s base e : int_of_string s base = Raise e -> e = ValueError.
Proof.
  unfold int_of_string.
  destruct (match lstrip c_isspace s with
            | String "+" t => (false, t)
            | String "-" t => (true, t)
            | _ => (false, lstrip c_isspace s)
            end) as [neg s1].
  destruct (skip_0x base s1) as [|c s2]; [congruence|].
  destruct (digit_value c <? base); [|congruence].
  destruct (scan_digits base (String c s2) false 0) as [[v rest]|]; [|congruence].
  destruct (negb _ && _); [congruence|].
  destruct (all_chars c_isspace rest); congruence.
Qed.

Lemma parse_hex_error s e : Color._parse_hex s = Raise e -> e = ValueError.
Proof.
  unfold Color._parse_hex.
  set (h := if (String.length _ =? 3)%nat then _ else _). clearbody h.
  destruct (int_of_string (slice h 0 2) 16) eqn:E1; cbn [bind];
    [|intros H; injection H as <-; eapply int_of_string_error; exact E1].
  destruct (int_of_string (slice h 2 4) 16) eqn:E2; cbn [bind];
    [|intros H; injection H as <-; eapply int_of_string_error; exact E2].
  destruct (int_of_string (slice h 4 6) 16) eqn:E3; cbn [bind];
    [discriminate|intros H; injection H as <-; eapply int_of_string_error; exact E3].
Qed.

Lemma parse_hex_short s :
  let d := lstrip (Ascii.eqb "#") s in
  (String.length d < 3 \/ String.length d = 4)%nat ->
  Color._parse_hex s = Raise ValueError.
Proof.
  intros d Hd. destruct (Color._parse_hex s) as [v|e] eqn:E.
  - exfalso. unfold Color._parse_hex in E. fold d in E.
    destruct d as [|a [|b [|c [|c4 [|c5 d]]]]]; cbn in Hd; try lia;
      cbn [String.length Nat.eqb slice substring Nat.sub] in E.
    + discriminate E.
    + destruct (int_of_string (String a EmptyString) 16); cbn [bind] in E; discriminate E.
    + destruct (int_of_string (String a (String b EmptyString)) 16); cbn [bind] in E;
        discriminate E.
    + destruct (int_of_string (String a (String b EmptyString)) 16); cbn [bind] in E;
        [|discriminate E].
      destruct (int_of_string (String c (String c4 EmptyString)) 16); cbn [bind] in E;
        discriminate E.
  - f_equal. eapply parse_hex_error. exact E.
Qed.

Lemma lstrip_hash c t :
  Ascii.eqb "#" c = false ->
  lstrip (Ascii.eqb "#") (String "#" (String c t)) = String c t.
Proof. intros H. cbn [lstrip]. rewrite Ascii.eqb_refl, H. reflexivity. Qed.

Lemma substring_0_0 s : substring 0 0 s = EmptyString.
Proof. destruct s; reflexivity. Qed.

Lemma parse_hex_six d1 d2 d3 d4 d5 d6 rest :
  is_hex d1 = true -> is_hex d2 = true -> is_hex d3 = true ->
  is_hex d4 = true -> is_hex d5 = true -> is_hex d6 = true ->
  Color._parse_hex
    (String "#" (String d1 (String d2 (String d3 (String d4 (String d5 (String d6 rest)))))))
  = Ok (RGB.new (16 * digit_value d1 + digit_value d2)
                (16 * digit_value d3 + digit_value d4)
                (16 * digit_value d5 + digit_value d6)).
Proof.
  intros H1 H2 H3 H4 H5 H6. unfold Color._parse_hex.
  rewrite lstrip_hash by (apply is_hex_not_hash; exact H1).
  cbn [String.length Nat.eqb slice substring Nat.sub]. rewrite substring_0_0.
  rewrite !int_of_string_hex2 by assumption. reflexivity.
Qed.

Lemma parse_hex_shorthand c1 c2 c3 :
  Ascii.eqb "#" c1 = false ->
  Color._parse_hex (String "#" (String c1 (String c2 (String c3 EmptyString))))
  = Color._parse_hex
      (String "#" (String c1 (String c1 (String c2 (String c2 (String c3 (String c3 EmptyString))))))).
Proof.
  intros H. unfold Color._parse_hex. rewrite !lstrip_hash by exact H. reflexivity.
Qed.

(** *** Decimal groups *)

Lemma digit_chars_checked : forallb digit_char_check all_ascii = true.
Proof. vm_compute. reflexivity. Qed.

Lemma is_digit_facts c :
  is_digit c = true ->
  digit_value c = code c - 48 /\ (digit_value c <? 10) = true /\ py_isspace c = false /\
  Ascii.eqb c "+" = false /\ Ascii.eqb c "-" = false /\ Ascii.eqb c "_" = false /\
  Ascii.eqb c "," = false /\ Ascii.eqb c "%" = false /\ c_isspace c = false.
Proof.
  intros H. pose proof (ascii_forall _ digit_chars_checked c) as C.
  unfold digit_char_check in C. rewrite H in C.
  rewrite !andb_true_iff, !negb_true_iff, Z.eqb_eq in C. tauto.
Qed.

Lemma scan_digits_all s acc :
  all_chars is_digit s = true ->
  scan_digits 10 s false acc = Some (decimal_value_from acc s, EmptyString).
Proof.
  revert acc. induction s as [|c s IH]; intros acc H; cbn [scan_digits decimal_value_from].
  - reflexivity.
  - cbn [all_chars] in H. apply andb_true_iff in H. destruct H as [Hc Hs].
    destruct (is_digit_facts c Hc) as (V & L & _). rewrite L, V. apply IH. exact Hs.
Qed.

Lemma count_digits_all s :
  all_chars is_digit s = true -> count_digits 10 s = Z.of_nat (String.length s).
Proof.
  induction s as [|c s IH]; cbn [count_digits all_chars String.length]; [reflexivity|].
  intros H. apply andb_true_iff in H. destruct H as [Hc Hs].
  destruct (is_digit_facts c Hc) as (_ & L & _). rewrite L, IH by exact Hs. lia.
Qed.

Lemma int_of_string_digits_cases s :
  s <> EmptyString -> all_chars is_digit s = true ->
  int_of_string s 10
  = if int_max_str_digits <? Z.of_nat (String.length s) then Raise ValueError
    else Ok (decimal_value s).
Proof.
  intros Hne H. destruct s as [|c s]; [congruence|].
  pose proof H as H'. cbn [all_chars] in H'. apply andb_true_iff in H'. destruct H' as [Hc _].
  destruct (is_digit_facts c Hc) as (_ & L & _ & Pl & Mi & _ & _ & _ & Sp).
  unfold int_of_string. cbn [lstrip]. rewrite Sp.
  assert (match String c s with
          | String "+" t => (false, t)
          | String "-" t => (true, t)
          | _ => (false, String c s)
          end = (false, String c s)) as ->.
  { destruct c as [[] [] [] [] [] [] [] []]; try reflexivity; discriminate. }
  assert (skip_0x 10 (String c s) = String c s) as ->.
  { unfold skip_0x. destruct c as [[] [] [] [] [] [] [] []]; try reflexivity.
    destruct s; reflexivity. }
  rewrite L, scan_digits_all, count_digits_all by exact H.
  change (negb (Z.land 10 (10 - 1) =? 0)) with true. cbn [andb].
  destruct (int_max_str_digits <? _); reflexivity.
Qed.

(** [int] of a non-empty string of at most 4300 ASCII digits is its
    decimal value; of more digits it is an error. *)
Lemma int_of_string_digits s :
  s <> EmptyString -> all_chars is_digit s = true ->
  (String.length s <= 4300)%nat ->
  int_of_string s 10 = Ok (decimal_value s).
Proof.
  intros Hne H Hl. rewrite int_of_string_digits_cases by assumption.
  replace (int_max_str_digits <? Z.of_nat (String.length s)) with false; [reflexivity|].
  symmetry. apply Z.ltb_ge. unfold int_max_str_digits. lia.
Qed.

Lemma int_of_string_too_long s :
  s <> EmptyString -> all_chars is_digit s = true ->
  (4300 < String.length s)%nat ->
  int_of_string s 10 = Raise ValueError.
Proof.
  intros Hne H Hl. rewrite int_of_string_digits_cases by assumption.
  replace (int_max_str_digits <? Z.of_nat (String.length s)) with true; [reflexivity|].
  symmetry. apply Z.ltb_lt. unfold int_max_str_digits. lia.
Qed.

(** Three groups of digits converted in turn: one of more than 4300
    digits makes the conversion fail. *)
Lemma three_decimals_too_long {A} g1 g2 g3 (k : Z -> Z -> Z -> result A) :
  g1 <> EmptyString -> all_chars is_digit g1 = true ->
  g2 <> EmptyString -> all_chars is_digit g2 = true ->
  g3 <> EmptyString -> all_chars is_digit g3 = true ->
  (4300 < String.length g1 \/ 4300 < String.length g2 \/ 4300 < String.length g3)%nat ->
  (x <- int_of_string g1 10 ;; y <- int_of_string g2 10 ;; z <- int_of_string g3 10 ;;
   k x y z) = Raise ValueError.
Proof.
  intros N1 D1 N2 D2 N3 D3 Long.
  rewrite !int_of_string_digits_cases by assumption.
  destruct (int_max_str_digits <? Z.of_nat (String.length g1)) eqn:E1; [reflexivity|].
  destruct (int_max_str_digits <? Z.of_nat (String.length g2)) eqn:E2; [reflexivity|].
  destruct (int_max_str_digits <? Z.of_nat (String.length g3)) eqn:E3; [reflexivity|].
  apply Z.ltb_ge in E1, E2, E3. unfold int_max_str_digits in *. lia.
Qed.

Lemma span_app p g rest :
  all_chars p g = true ->
  match rest with EmptyString => True | String c _ => p c = false end ->
  span p (g ++ rest) = (g, rest).
Proof.
  intros Hg Hr. induction g as [|c g IH]; cbn [append span].
  - destruct rest as [|c r]; [reflexivity|]. cbn [span]. rewrite Hr. reflexivity.
  - cbn [all_chars] in Hg. apply andb_true_iff in Hg. destruct Hg as [Hc Hg].
    rewrite Hc, IH by exact Hg. reflexivity.
Qed.

Lemma span_spec p s g rest :
  span p s = (g, rest) ->
  s = (g ++ rest)%string /\ all_chars p g = true /\
  match rest with EmptyString => True | String c _ => p c = false end.
Proof.
  revert g rest. induction s as [|c s IH]; intros g rest H; cbn [span] in H.
  - injection H as <- <-. repeat split.
  - destruct (p c) eqn:Pc.
    + destruct (span p s) as [a r]. injection H as <- <-.
      destruct (IH a r eq_refl) as (-> & Ha & Hr).
      repeat split; [cbn [all_chars]; rewrite Pc, Ha; reflexivity|exact Hr].
    + injection H as <- <-. repeat split. exact Pc.
Qed.

Lemma lstrip_app p w rest :
  all_chars p w = true ->
  match rest with EmptyString => True | String c _ => p c = false end ->
  lstrip p (w ++ rest) = rest.
Proof.
  intros Hw Hr. induction w as [|c w IH]; cbn [append lstrip].
  - destruct rest as [|c r]; [reflexivity|]. cbn [lstrip]. rewrite Hr. reflexivity.
  - cbn [all_chars] in Hw. apply andb_true_iff in Hw. destruct Hw as [Hc Hw].
    rewrite Hc. apply IH. exact Hw.
Qed.

Lemma lstrip_spec p s :
  exists w, s = (w ++ lstrip p s)%string /\ all_chars p w = true.
Proof.
  induction s as [|c s IH]; cbn [lstrip].
  - exists EmptyString. split; reflexivity.
  - destruct (p c) eqn:Pc.
    + destruct IH as (w & E & Hw). exists (String c w). split.
      * cbn [append]. rewrite <- E. reflexivity.
      * cbn [all_chars]. rewrite Pc, Hw. reflexivity.
    + exists EmptyString. split; reflexivity.
Qed.

Lemma lit_app pre s : lit pre (pre ++ s) = Some s.
Proof. induction pre as [|c pre IH]; cbn [lit append]; [reflexivity|]. rewrite Ascii.eqb_refl. exact IH. Qed.

Lemma lit_spec pre s t : lit pre s = Some t -> s = (pre ++ t)%string.
Proof.
  revert s. induction pre as [|c pre IH]; intros s H; cbn [lit] in H.
  - injection H as ->. reflexivity.
  - destruct s as [|d s]; [discriminate|].
    destruct (Ascii.eqb c d) eqn:E; [|discriminate].
    apply Ascii.eqb_eq in E. subst d. cbn [append]. f_equal. apply IH. exact H.
Qed.

Lemma digits1_app g rest :
  g <> EmptyString -> all_chars is_digit g = true ->
  match rest with EmptyString => True | String c _ => is_digit c = false end ->
  digits1 (g ++ rest) = Some (g, rest).
Proof.
  intros Hne Hg Hr. unfold digits1. rewrite span_app by assumption.
  destruct g; [congruence|reflexivity].
Qed.

Lemma digits1_spec s g rest :
  digits1 s = Some (g, rest) ->
  s = (g ++ rest)%string /\ g <> EmptyString /\ all_chars is_digit g = true /\
  match rest with EmptyString => True | String c _ => is_digit c = false end.
Proof.
  unfold digits1. destruct (span is_digit s) as [a r] eqn:E.
  destruct a as [|c a]; [discriminate|]. intros H. injection H as <- <-.
  destruct (span_spec _ _ _ _ E) as (-> & Ha & Hr).
  repeat split; [discriminate|exact Ha|exact Hr].
Qed.

Lemma startswith_spec s pre : startswith s pre = true -> exists t, s = (pre ++ t)%string.
Proof.
  unfold startswith. destruct (lit pre s) as [t|] eqn:E; [|discriminate].
  intros _. exists t. apply lit_spec. exact E.
Qed.

Lemma nonempty_digits_head (g rest : string) :
  g <> EmptyString -> all_chars is_digit g = true ->
  match (g ++ rest)%string with
  | EmptyString => True
  | String c _ => py_isspace c = false
  end.
Proof.
  intros Hne Hg. destruct g as [|c g]; [congruence|]. cbn [append].
  cbn [all_chars] in Hg. apply andb_true_iff in Hg. destruct Hg as [Hc _].
  apply is_digit_facts in Hc. tauto.
Qed.

Lemma match_rgb_complete s g1 g2 g3 :
  rgb_shape s g1 g2 g3 -> Color.match_rgb s = Some (g1, g2, g3).
Proof.
  intros (a & w1 & w2 & rest & -> & Ha & N1 & D1 & N2 & D2 & N3 & D3 & W1 & W2 & R).
  unfold Color.match_rgb. rewrite lit_app.
  assert (lit "(" (opt_char "a" (a ++ "(" ++ g1 ++ "," ++ w1 ++ g2 ++ "," ++ w2 ++ g3 ++ rest))
          = Some (g1 ++ "," ++ w1 ++ g2 ++ "," ++ w2 ++ g3 ++ rest)%string) as ->
    by (destruct Ha as [-> | ->]; reflexivity).
  rewrite digits1_app by (try assumption; reflexivity).
  rewrite (lit_app ","). unfold spaces.
  rewrite lstrip_app by (try assumption; apply nonempty_digits_head; assumption).
  rewrite digits1_app by (try assumption; reflexivity).
  rewrite (lit_app ",").
  rewrite lstrip_app by (try assumption; apply nonempty_digits_head; assumption).
  rewrite digits1_app by assumption. reflexivity.
Qed.

Lemma match_rgb_sound s g1 g2 g3 :
  Color.match_rgb s = Some (g1, g2, g3) -> rgb_shape s g1 g2 g3.
Proof.
  unfold Color.match_rgb. intros H.
  destruct (lit "rgb" s) as [s1|] eqn:E1; [|discriminate].
  destruct (lit "(" (opt_char "a" s1)) as [s2|] eqn:E2; [|discriminate].
  destruct (digits1 s2) as [[h1 s3]|] eqn:E3; [|discriminate].
  destruct (lit "," s3) as [s4|] eqn:E4; [|discriminate].
  destruct (digits1 (spaces s4)) as [[h2 s5]|] eqn:E5; [|discriminate].
  destruct (lit "," s5) as [s6|] eqn:E6; [|discriminate].
  destruct (digits1 (spaces s6)) as [[h3 s7]|] eqn:E7; [|discriminate].
  injection H as <- <- <-.
  apply lit_spec in E1, E2, E4, E6.
  apply digits1_spec in E3, E5, E7.
  destruct E3 as (-> & N1 & D1 & _), E5 as (E5 & N2 & D2 & _), E7 as (E7 & N3 & D3 & R).
  destruct (lstrip_spec py_isspace s4) as (w1 & Ew1 & W1).
  destruct (lstrip_spec py_isspace s6) as (w2 & Ew2 & W2).
  unfold spaces in E5, E7. rewrite E5 in Ew1. rewrite E7 in Ew2.
  assert (exists a, (a = EmptyString \/ a = "a"%string) /\ s1 = (a ++ "(" ++ h1 ++ s3)%string)
    as (a & Ha & Es1).
  { unfold opt_char in E2. destruct s1 as [|d s1'].
    - discriminate E2.
    - destruct (Ascii.eqb "a" d) eqn:Ed.
      + apply Ascii.eqb_eq in Ed. subst d. exists "a"%string. split; [auto|].
        cbn [append]. f_equal. exact E2.
      + exists EmptyString. split; [auto|]. exact E2. }
  exists a, w1, w2, s7. subst s. rewrite Es1, E4, Ew1, E6, Ew2.
  repeat split; assumption.
Qed.

(** ** The hexadecimal rendering of a channel *)

Lemma format_checked : allb 256 format_check = true.
Proof. vm_compute. reflexivity. Qed.

Lemma format_02x_channel v :
  0 <= v <= 255 ->
  RGB.format_02x v = two_hex v /\ all_chars is_lower_hex (two_hex v) = true.
Proof.
  intros H. pose proof (allb_spec 256 _ format_checked v ltac:(lia)) as C.
  unfold format_check in C. apply andb_true_iff in C. destruct C as [C1 C2].
  apply String.eqb_eq in C1. auto.
Qed.

Lemma lstrip_head p s c t : lstrip p s = String c t -> p c = false.
Proof.
  induction s as [|d s IH]; cbn [lstrip]; [discriminate|].
  destruct (p d) eqn:E; [exact IH|]. intros H. injection H as <- <-. exact E.
Qed.

Lemma parse_hex_of_digits s d :
  lstrip (Ascii.eqb "#") s = d ->
  match d with
  | EmptyString => True
  | String c _ => Ascii.eqb "#" c = false
  end /\
  Color._parse_hex s = Color._parse_hex (String "#" d).
Proof.
  intros E. assert (match d with EmptyString => True | String c _ => Ascii.eqb "#" c = false end) as H.
  { destruct d as [|c t]; [exact I|]. eapply lstrip_head. exact E. }
  split; [exact H|]. unfold Color._parse_hex. rewrite E.
  destruct d as [|c t]; [reflexivity|]. rewrite lstrip_hash by exact H. reflexivity.
Qed.

Lemma startswith_rgb_not_hash c : startswith c "rgb" = true -> startswith c "#" = false.
Proof. intros H. apply startswith_spec in H. destruct H as [t ->]. reflexivity. Qed.

Lemma Color_new_hsl h :
  HSL.valid h = true ->
  exists c, Color.new (Color.Hsl h) = Ok c /\ HSL.to_rgb h = Ok (Color.rgb c) /\
            RGB.valid (Color.rgb c) = true.
Proof.
  intros V. destruct (HSL_to_rgb_total h V) as (v & E & Vv).
  exists (Color.mk v). cbn [Color.new Color.rgb]. rewrite E. auto.
Qed.

(** ** Rounding to nearest, by value

    The rest of the float lemmas relate [binary_round] to the integer it
    rounds, in units of [2^-1074], to show that adding a constant is
    monotone. *)

Lemma shr_1_eq q rb sb :
  0 <= q ->
  shr_1 (Build_shr_record q rb sb) = Build_shr_record (q / 2) (q mod 2 =? 1) (rb || sb).
Proof.
  intros Hq. destruct q as [|[p|p|]|]; try lia; cbn [shr_1].
  - reflexivity.
  - rewrite Pos2Z.inj_xI.
    replace ((2 * Z.pos p + 1) / 2) with (Z.pos p) by (apply Z.div_unique with 1; lia).
    replace ((2 * Z.pos p + 1) mod 2) with 1 by (apply Z.mod_unique with (Z.pos p); lia).
    reflexivity.
  - rewrite Pos2Z.inj_xO.
    replace ((2 * Z.pos p) / 2) with (Z.pos p) by (apply Z.div_unique with 0; lia).
    replace ((2 * Z.pos p) mod 2) with 0 by (apply Z.mod_unique with (Z.pos p); lia).
    reflexivity.
  - reflexivity.
Qed.

Lemma shr_1_loc M k rec :
  0 <= M -> 0 <= k ->
  rec = shr_record_of_loc (M / 2 ^ k) (loc_of_rem (M mod 2 ^ k) k) ->
  shr_1 rec = shr_record_of_loc (M / 2 ^ (k + 1)) (loc_of_rem (M mod 2 ^ (k + 1)) (k + 1)).
Proof.
  intros HM Hk ->.
  pose proof (pow2_pos k Hk) as Pk.
  pose proof (Z.mod_pos_bound M (2 ^ k) Pk) as Br.
  assert (2 ^ (k + 1) = 2 ^ k * 2) as E2 by (rewrite Z.pow_add_r by lia; reflexivity).
  assert (M / 2 ^ (k + 1) = M / 2 ^ k / 2) as Eq
    by (rewrite E2, Z.div_div by lia; reflexivity).
  assert (M mod 2 ^ (k + 1) = M mod 2 ^ k + 2 ^ k * ((M / 2 ^ k) mod 2)) as Er
    by (rewrite E2; apply Z.rem_mul_r; lia).
  assert (0 <= M / 2 ^ k) as Hq by (apply Z.div_pos; lia).
  unfold loc_of_rem. rewrite Eq, Er, E2. clear Eq Er.
  set (q := M / 2 ^ k) in *. set (r := M mod 2 ^ k) in *. clearbody q r.
  pose proof (Z.mod_pos_bound q 2 ltac:(lia)) as Bq.
  assert (exists rb sb,
            shr_record_of_loc q (if r =? 0 then loc_Exact else loc_Inexact (2 * r ?= 2 ^ k))
            = Build_shr_record q rb sb /\ (rb || sb = negb (r =? 0))) as (rb & sb & -> & Hs).
  { destruct (r =? 0); [|destruct (2 * r ?= 2 ^ k)]; cbn; eauto. }
  rewrite shr_1_eq by exact Hq. rewrite Hs.
  set (b := q mod 2) in *. clearbody b.
  assert (b = 0 \/ b = 1) as [-> | ->] by lia; destruct (Z.eqb_spec r 0) as [-> | Nr];
    cbn [negb Z.eqb].
  - replace (0 + 2 ^ k * 0 =? 0) with true by (symmetry; apply Z.eqb_eq; lia). reflexivity.
  - replace (r + 2 ^ k * 0 =? 0) with false by (symmetry; apply Z.eqb_neq; lia).
    replace (2 * (r + 2 ^ k * 0) ?= 2 ^ k * 2) with Lt
      by (symmetry; apply Z.compare_lt_iff; lia).
    reflexivity.
  - replace (0 + 2 ^ k * 1 =? 0) with false by (symmetry; apply Z.eqb_neq; lia).
    replace (2 * (0 + 2 ^ k * 1) ?= 2 ^ k * 2) with Eq
      by (symmetry; apply Z.compare_eq_iff; lia).
    reflexivity.
  - replace (r + 2 ^ k * 1 =? 0) with false by (symmetry; apply Z.eqb_neq; lia).
    replace (2 * (r + 2 ^ k * 1) ?= 2 ^ k * 2) with Gt
      by (symmetry; apply Z.compare_gt_iff; lia).
    reflexivity.
Qed.

Lemma iter_shr_1_loc M p : forall k rec,
  0 <= M -> 0 <= k ->
  rec = shr_record_of_loc (M / 2 ^ k) (loc_of_rem (M mod 2 ^ k) k) ->
  iter_pos shr_1 p rec
  = shr_record_of_loc (M / 2 ^ (k + Zpos p)) (loc_of_rem (M mod 2 ^ (k + Zpos p)) (k + Zpos p)).
Proof.
  induction p as [p IH|p IH|]; intros k rec HM Hk Hrec; cbn [iter_pos].
  - replace (k + Z.pos p~1) with (k + 1 + Z.pos p + Z.pos p) by lia.
    apply IH; try lia. apply IH; try lia. apply shr_1_loc; assumption.
  - replace (k + Z.pos p~0) with (k + Z.pos p + Z.pos p) by lia.
    apply IH; try lia. apply IH; try lia. assumption.
  - apply shr_1_loc; assumption.
Qed.

(** The record a shift by [n >= 0] places leaves. *)
Lemma shr_loc M e n :
  0 <= M -> 0 <= n ->
  shr (shr_record_of_loc M loc_Exact) e n
  = (shr_record_of_loc (M / 2 ^ n) (loc_of_rem (M mod 2 ^ n) n),
     if 0 <? n then e + n else e).
Proof.
  intros HM Hn. unfold shr. destruct n as [|p|p]; try lia.
  - cbn [Z.ltb Z.compare]. rewrite Z.pow_0_r, Z.div_1_r, Z.mod_1_r. reflexivity.
  - zfix. f_equal. apply (iter_shr_1_loc M p 0); try lia.
    rewrite Z.pow_0_r, Z.div_1_r, Z.mod_1_r. reflexivity.
Qed.

Lemma loc_of_shr_record_of_loc m l : loc_of_shr_record (shr_record_of_loc m l) = l.
Proof. destruct l as [|[]]; reflexivity. Qed.

Lemma shr_m_of_loc m l : shr_m (shr_record_of_loc m l) = m.
Proof. destruct l as [|[]]; reflexivity. Qed.

Lemma loc_of_rem_scale r n j :
  0 <= j -> 0 <= n -> loc_of_rem (r * 2 ^ j) (n + j) = loc_of_rem r n.
Proof.
  intros Hj Hn. unfold loc_of_rem. pose proof (pow2_pos j Hj) as Pj.
  destruct (Z.eqb_spec r 0) as [-> | Nr].
  - reflexivity.
  - destruct (Z.eqb_spec (r * 2 ^ j) 0) as [E | _]; [nia|].
    f_equal. rewrite Z.pow_add_r by lia.
    destruct (Z.compare_spec (2 * r) (2 ^ n)) as [E | E | E].
    + apply Z.compare_eq_iff. nia.
    + apply Z.compare_lt_iff. nia.
    + apply Z.compare_gt_iff. nia.
Qed.

Lemma binary_round_aux_value M e :
  0 < M -> -1074 <= e -> e <= fexp64 (Zdigits2 M + e) -> Zdigits2 M + e <= 1000 ->
  exists m3 e3,
    binary_round_aux prec emax false M e loc_Exact = S754_finite false m3 e3 /\
    bounded prec emax m3 e3 = true /\
    Zpos m3 * 2 ^ (e3 + 1074) = rnd_value (M * 2 ^ (e + 1074)).
Proof.
  intros HM He Hc Hk.
  pose proof (Zdigits2_pos M HM) as Dpos.
  rewrite fexp64_eq in Hc.
  set (e0 := Z.max (Zdigits2 M + e - 53) (-1074)) in *.
  set (n1 := e0 - e).
  assert (0 <= n1) as Hn1 by (unfold n1; lia).
  set (j := e + 1074). assert (0 <= j) as Hj by (unfold j; lia).
  (* the integer being rounded *)
  assert (rnd_shift (M * 2 ^ j) = n1 + j) as Esh.
  { unfold rnd_shift. rewrite Zdigits2_mul_pow2 by lia. unfold n1, j, e0. lia. }
  assert (rnd_value (M * 2 ^ j)
          = round_nearest_even (M / 2 ^ n1) (loc_of_rem (M mod 2 ^ n1) n1) * 2 ^ (e0 + 1074))
    as Ev.
  { unfold rnd_value. rewrite Esh. cbv zeta.
    pose proof (pow2_pos j Hj). pose proof (pow2_pos n1 Hn1).
    rewrite (Z.pow_add_r 2 n1 j) by lia.
    rewrite Z.div_mul_cancel_r by lia.
    rewrite Z.mul_mod_distr_r by lia.
    rewrite <- (Z.pow_add_r 2 n1 j) by lia.
    rewrite loc_of_rem_scale by lia.
    f_equal. f_equal. unfold n1, j. lia. }
  rewrite Ev. clear Ev Esh.
  (* the first shift *)
  unfold binary_round_aux. unfold shr_fexp at 1.
  rewrite fexp64_eq. fold e0. fold n1.
  rewrite shr_loc by lia.
  assert ((if 0 <? n1 then e + n1 else e) = e0) as ->
    by (destruct (Z.ltb_spec 0 n1); unfold n1 in *; lia).
  rewrite loc_of_shr_record_of_loc, shr_m_of_loc.
  set (m1 := M / 2 ^ n1) in *.
  set (m2 := round_nearest_even m1 (loc_of_rem (M mod 2 ^ n1) n1)) in *.
  pose proof (round_nearest_even_bounds m1 (loc_of_rem (M mod 2 ^ n1) n1)) as Bm2.
  fold m2 in Bm2.
  pose proof (pow2_pos n1 Hn1) as Pn1.
  assert (M < 2 ^ Zdigits2 M) as UM by (apply Zdigits2_le_iff; lia).
  assert (2 ^ (Zdigits2 M - 1) <= M) as LM by (apply Zdigits2_ge_iff; lia).
  assert (1 <= m1 < 2 ^ 53 /\ (-1074 < e0 -> 2 ^ 52 <= m1)) as [Bm1 Nm1].
  { unfold m1. split; [split|].
    - apply Z.div_le_lower_bound; [lia|].
      destruct (Z.eq_dec n1 0) as [-> | N0]; [cbn; lia|].
      assert (n1 <= Zdigits2 M - 1) by (unfold n1, e0 in *; lia).
      assert (2 ^ n1 <= 2 ^ (Zdigits2 M - 1)) by (apply Z.pow_le_mono_r; lia). lia.
    - apply Z.div_lt_upper_bound; [lia|].
      rewrite <- Z.pow_add_r by lia.
      assert (2 ^ Zdigits2 M <= 2 ^ (n1 + 53)) by (apply Z.pow_le_mono_r; unfold n1, e0; lia).
      lia.
    - intros Hn. apply Z.div_le_lower_bound; [lia|].
      rewrite <- Z.pow_add_r by lia.
      replace (n1 + 52) with (Zdigits2 M - 1) by (unfold n1, e0 in *; lia). lia. }
  assert (e0 <= 947) as He0 by (unfold e0; lia).
  (* the second shift *)
  unfold shr_fexp. rewrite fexp64_eq.
  destruct (Z.eq_dec m2 (2 ^ 53)) as [E2 | N2].
  - rewrite E2. change (Zdigits2 (2 ^ 53)) with 54.
    replace (Z.max (54 + e0 - 53) (-1074) - e0) with 1 by (unfold e0; lia).
    rewrite shr_loc by lia.
    change (2 ^ 53 / 2 ^ 1) with 4503599627370496.
    change (loc_of_rem (2 ^ 53 mod 2 ^ 1) 1) with loc_Exact.
    cbn [Z.ltb Z.compare shr_record_of_loc shr_m].
    replace (e0 + 1 <=? emax - prec) with true
      by (symmetry; apply Z.leb_le; change (emax - prec) with 971; lia).
    exists 4503599627370496%positive, (e0 + 1). split; [reflexivity|]. split.
    + apply bounded_iff. rewrite fexp64_eq.
      change (Zdigits2 4503599627370496) with 53. unfold e0. lia.
    + replace (e0 + 1 + 1074) with (1 + (e0 + 1074)) by lia.
      rewrite Z.pow_add_r by (unfold e0; lia).
      change (2 ^ 53) with (4503599627370496 * 2 ^ 1). lia.
  - assert (1 <= m2 < 2 ^ 53) as B2 by lia.
    assert (Zdigits2 m2 <= 53) as D2 by (apply Zdigits2_le_iff; lia).
    assert (-1074 < e0 -> 53 <= Zdigits2 m2) as D2'.
    { intros Hn. specialize (Nm1 Hn). apply Zdigits2_ge_iff; lia. }
    assert (shr (shr_record_of_loc m2 loc_Exact) e0 (Z.max (Zdigits2 m2 + e0 - 53) (-1074) - e0)
            = (shr_record_of_loc m2 loc_Exact, e0)) as ->.
    { unfold shr. destruct (Z.max (Zdigits2 m2 + e0 - 53) (-1074) - e0) eqn:En;
        try reflexivity. unfold e0 in *. lia. }
    cbn [shr_record_of_loc shr_m].
    destruct m2 as [|p2|p2]; try lia.
    replace (e0 <=? emax - prec) with true
      by (symmetry; apply Z.leb_le; change (emax - prec) with 971; lia).
    exists p2, e0. split; [reflexivity|]. split; [|reflexivity].
    apply bounded_iff. rewrite fexp64_eq. unfold e0 in *. lia.
Qed.

Lemma binary_round_value m e :
  -1074 <= e -> Zdigits2 (Zpos m) + e <= 1000 ->
  exists m3 e3,
    binary_round prec emax false m e = S754_finite false m3 e3 /\
    bounded prec emax m3 e3 = true /\
    Zpos m3 * 2 ^ (e3 + 1074) = rnd_value (Zpos m * 2 ^ (e + 1074)).
Proof.
  intros He Hk. unfold binary_round.
  pose proof (shl_align_spec m e (fexp64 (Zpos (digits2_pos m) + e))) as S.
  destruct (shl_align m e _) as [mz ez]. destruct S as [S1 S2].
  change (Zpos (digits2_pos m)) with (Zdigits2 (Zpos m)) in *.
  assert (Zdigits2 (Zpos mz) + ez = Zdigits2 (Zpos m) + e) as D
    by (rewrite S2, Zdigits2_mul_pow2 by lia; lia).
  rewrite fexp64_eq in S1.
  destruct (binary_round_aux_value (Zpos mz) ez) as (m3 & e3 & E & B & V);
    rewrite ?D, ?fexp64_eq; try lia.
  exists m3, e3. split; [exact E|]. split; [exact B|].
  rewrite V, S2, <- Z.mul_assoc, <- Z.pow_add_r by lia.
  do 3 f_equal. lia.
Qed.

Lemma rnd_value_canonical m e :
  bounded prec emax m e = true ->
  rnd_value (Zpos m * 2 ^ (e + 1074)) = Zpos m * 2 ^ (e + 1074).
Proof.
  intros B. apply bounded_digits in B.
  pose proof (Zdigits2_pos (Zpos m) ltac:(lia)).
  unfold rnd_value, rnd_shift. rewrite Zdigits2_mul_pow2 by lia.
  replace (Z.max (Zdigits2 (Z.pos m) + (e + 1074) - 53) 0) with (e + 1074) by lia.
  pose proof (pow2_pos (e + 1074) ltac:(lia)).
  rewrite Z.div_mul, Z.mod_mul by lia. reflexivity.
Qed.

Lemma SFadd_value x mc ec :
  sf_nonneg 900 x -> sf_nonneg 900 (S754_finite false mc ec) ->
  exists m3 e3,
    SFadd prec emax x (S754_finite false mc ec) = S754_finite false m3 e3 /\
    bounded prec emax m3 e3 = true /\
    Zpos m3 * 2 ^ (e3 + 1074) = rnd_value (sf_units x + Zpos mc * 2 ^ (ec + 1074)).
Proof.
  intros Hx [Bc Hc]. destruct x as [s|s| |[|] mx ex]; cbn [sf_nonneg] in Hx; try tauto.
  - cbn [SFadd sf_units]. exists mc, ec. split; [reflexivity|]. split; [exact Bc|].
    rewrite Z.add_0_l. symmetry. apply rnd_value_canonical. exact Bc.
  - destruct Hx as [Bx Hx]. cbn [SFadd sf_units cond_Zopp]. zfix.
    pose proof (bounded_digits _ _ Bx) as (_ & Lx & _).
    pose proof (bounded_digits _ _ Bc) as (_ & Lc & _).
    pose proof (aligned_sum_digits false mx ex false mc ec Z.add ltac:(intros; lia)) as D.
    cbv zeta in D. cbn [cond_Zopp] in D.
    pose proof (shl_align_spec mx ex (Z.min ex ec)) as Sx.
    pose proof (shl_align_spec mc ec (Z.min ex ec)) as Sc.
    destruct (shl_align mx ex (Z.min ex ec)) as [mx' ex'].
    destruct (shl_align mc ec (Z.min ex ec)) as [mc' ec'].
    destruct Sx as [Ex Mx], Sc as [Ec Mc]. cbn [fst] in *.
    change (Zpos mx' + Zpos mc') with (Zpos (mx' + mc')) in *.
    cbn [binary_normalize]. rewrite Z.abs_eq in D by lia.
    destruct (binary_round_value (mx' + mc') (Z.min ex ec)) as (m3 & e3 & E & B & V); try lia.
    exists m3, e3. split; [exact E|]. split; [exact B|]. rewrite V. f_equal.
    rewrite Pos2Z.inj_add, Mx, Mc, Z.mul_add_distr_r.
    rewrite <- !Z.mul_assoc, <- !Z.pow_add_r by lia.
    f_equal; do 2 f_equal; lia.
Qed.

Lemma round_nearest_even_rem_mono q r1 r2 n :
  0 <= r1 <= r2 ->
  round_nearest_even q (loc_of_rem r1 n) <= round_nearest_even q (loc_of_rem r2 n).
Proof.
  intros H. unfold loc_of_rem, round_nearest_even.
  destruct (Z.eqb_spec r1 0), (Z.eqb_spec r2 0); try lia;
    destruct (Z.compare_spec (2 * r1) (2 ^ n)); destruct (Z.compare_spec (2 * r2) (2 ^ n));
    destruct (Z.even q); lia.
Qed.

(** Rounding to 53 bits is monotone. *)
Lemma rnd_value_mono S1 S2 : 0 <= S1 <= S2 -> rnd_value S1 <= rnd_value S2.
Proof.
  intros H. unfold rnd_value. cbv zeta.
  pose proof (Zdigits2_mono S1 S2 H) as Dm.
  pose proof (Zdigits2_nonneg S1) as D1. pose proof (Zdigits2_nonneg S2) as D2.
  assert (S1 < 2 ^ Zdigits2 S1) as U1 by (apply Zdigits2_le_iff; lia).
  set (n1 := rnd_shift S1). set (n2 := rnd_shift S2).
  assert (0 <= n1 <= n2) as Hn by (unfold n1, n2, rnd_shift; lia).
  pose proof (pow2_pos n1 ltac:(lia)) as P1. pose proof (pow2_pos n2 ltac:(lia)) as P2.
  pose proof (round_nearest_even_bounds (S1 / 2 ^ n1) (loc_of_rem (S1 mod 2 ^ n1) n1)) as B1.
  pose proof (round_nearest_even_bounds (S2 / 2 ^ n2) (loc_of_rem (S2 mod 2 ^ n2) n2)) as B2.
  pose proof (Z.div_mod S1 (2 ^ n1) ltac:(lia)) as E1.
  pose proof (Z.div_mod S2 (2 ^ n2) ltac:(lia)) as E2.
  pose proof (Z.mod_pos_bound S1 (2 ^ n1) P1) as R1.
  pose proof (Z.mod_pos_bound S2 (2 ^ n2) P2) as R2.
  assert (0 <= S1 / 2 ^ n1) as Q1 by (apply Z.div_pos; lia).
  destruct (Z.eq_dec n1 n2) as [En | Nn].
  - rewrite <- En in *. clear En.
    assert (S1 / 2 ^ n1 <= S2 / 2 ^ n1) as Q by (apply Z.div_le_mono; lia).
    destruct (Z.eq_dec (S1 / 2 ^ n1) (S2 / 2 ^ n1)) as [Eq | Nq].
    + rewrite <- Eq in *.
      apply Z.mul_le_mono_nonneg_r; [lia|].
      apply round_nearest_even_rem_mono. lia.
    + apply Z.mul_le_mono_nonneg_r; lia.
  - assert (0 < n2) by lia.
    assert (Zdigits2 S2 = n2 + 53) as Ed by (unfold n2, rnd_shift in *; lia).
    assert (0 < S2) as Sp by (destruct S2; cbn in Ed; lia).
    assert (2 ^ (Zdigits2 S2 - 1) <= S2) as L2
      by (apply Zdigits2_ge_iff; lia).
    rewrite Ed in L2. replace (n2 + 53 - 1) with (52 + n2) in L2 by lia.
    assert (2 ^ 52 <= S2 / 2 ^ n2) as Q2.
    { apply Z.div_le_lower_bound; [lia|]. rewrite (Z.mul_comm (2 ^ n2)).
      rewrite <- Z.pow_add_r by lia. exact L2. }
    assert (S1 / 2 ^ n1 < 2 ^ 53) as Q1'.
    { apply Z.div_lt_upper_bound; [lia|]. rewrite <- Z.pow_add_r by lia.
      assert (2 ^ Zdigits2 S1 <= 2 ^ (n1 + 53))
        by (apply Z.pow_le_mono_r; unfold n1, rnd_shift; lia).
      lia. }
    apply Z.le_trans with (2 ^ 53 * 2 ^ n1).
    + apply Z.mul_le_mono_nonneg_r; lia.
    + apply Z.le_trans with (2 ^ 52 * 2 ^ n2).
      * rewrite <- !Z.pow_add_r by lia. apply Z.pow_le_mono_r; lia.
      * apply Z.mul_le_mono_nonneg_r; lia.
Qed.

(** On non-negative floats of the format, [<] is [<] of the units. *)
Lemma SFltb_units a b x y :
  sf_nonneg a x -> sf_nonneg b y ->
  SFltb x y = (sf_units x <? sf_units y).
Proof.
  intros Hx Hy.
  destruct x as [sx|sx| |[|] mx ex], y as [sy|sy| |[|] my ey];
    cbn [sf_nonneg] in Hx, Hy; try tauto; cbn [sf_units]; unfold SFltb, SFcompare;
    try reflexivity.
  - destruct Hy as [By _]. apply bounded_digits in By.
    pose proof (pow2_pos (ey + 1074) ltac:(lia)).
    symmetry. apply Z.ltb_lt. nia.
  - destruct Hx as [Bx _]. apply bounded_digits in Bx.
    pose proof (pow2_pos (ex + 1074) ltac:(lia)).
    symmetry. apply Z.ltb_ge. nia.
  - destruct Hx as [Bx _], Hy as [By _]. apply bounded_digits in Bx, By. zfix.
    destruct Bx as (Dx & Lx & Nx), By as (Dy & Ly & Ny).
    pose proof (pow2_pos (ex + 1074) ltac:(lia)) as Px.
    pose proof (pow2_pos (ey + 1074) ltac:(lia)) as Py.
    assert (Zpos mx < 2 ^ 53) as Ux by (apply Zdigits2_le_iff; lia).
    assert (Zpos my < 2 ^ 53) as Uy by (apply Zdigits2_le_iff; lia).
    destruct (Z.compare_spec ex ey) as [E | E | E].
    + subst ey. rewrite pos_compare_cont_Eq.
      destruct (Pos.compare_spec mx my) as [C | C | C]; symmetry.
      * subst. apply Z.ltb_ge. lia.
      * apply Z.ltb_lt. nia.
      * apply Z.ltb_ge. nia.
    + symmetry. apply Z.ltb_lt.
      assert (2 ^ 52 <= Zpos my) as LY
        by (specialize (Ny ltac:(lia)); apply (Zdigits2_ge_iff (Zpos my) 53); lia).
      apply Z.lt_le_trans with (2 ^ 53 * 2 ^ (ex + 1074)); [nia|].
      apply Z.le_trans with (2 ^ 52 * 2 ^ (ey + 1074)); [|nia].
      rewrite <- !Z.pow_add_r by lia. apply Z.pow_le_mono_r; lia.
    + symmetry. apply Z.ltb_ge.
      assert (2 ^ 52 <= Zpos mx) as LX
        by (specialize (Nx ltac:(lia)); apply (Zdigits2_ge_iff (Zpos mx) 53); lia).
      apply Z.le_trans with (2 ^ 53 * 2 ^ (ey + 1074)); [nia|].
      apply Z.le_trans with (2 ^ 52 * 2 ^ (ex + 1074)); [|nia].
      rewrite <- !Z.pow_add_r by lia. apply Z.pow_le_mono_r; lia.
Qed.

(** Two positive floats of the format with the same units are the same. *)
Lemma sf_units_inj mx ex my ey :
  bounded prec emax mx ex = true -> bounded prec emax my ey = true ->
  Zpos mx * 2 ^ (ex + 1074) = Zpos my * 2 ^ (ey + 1074) ->
  S754_finite false mx ex = S754_finite false my ey.
Proof.
  intros Bx By E.
  pose proof (bounded_digits _ _ Bx) as (Dx & Lx & _).
  pose proof (bounded_digits _ _ By) as (Dy & Ly & _).
  pose proof (SFltb_units 2000 2000 (S754_finite false mx ex) (S754_finite false my ey)
                ltac:(cbn [sf_nonneg]; split; [assumption|lia])
                ltac:(cbn [sf_nonneg]; split; [assumption|lia])) as L1.
  pose proof (SFltb_units 2000 2000 (S754_finite false my ey) (S754_finite false mx ex)
                ltac:(cbn [sf_nonneg]; split; [assumption|lia])
                ltac:(cbn [sf_nonneg]; split; [assumption|lia])) as L2.
  cbn [sf_units] in L1, L2. rewrite E in L1. rewrite E in L2.
  rewrite Z.ltb_irrefl in L1, L2.
  unfold SFltb, SFcompare in L1, L2. zfix.
  rewrite !pos_compare_cont_Eq in *.
  rewrite (Z.compare_antisym ex ey), (Pos.compare_antisym mx my) in L2.
  destruct (Z.compare_spec ex ey) as [Ee | Ee | Ee]; cbn [CompOpp] in L2;
    try discriminate L1; try discriminate L2.
  destruct (Pos.compare_spec mx my) as [Em | Em | Em]; cbn [CompOpp] in L2;
    try discriminate L1; try discriminate L2.
  subst. reflexivity.
Qed.

Lemma sf_nonneg_of_fin k f : sf_fin k f -> sf_not_negative f -> sf_nonneg k f.
Proof. destruct f as [| | |[|]]; cbn; tauto. Qed.

Lemma sf_nonneg_fin k f : sf_nonneg k f -> sf_fin k f.
Proof. destruct f as [| | |[|]]; cbn; tauto. Qed.

Lemma binary_round_aux_sign m e l : sf_not_negative (binary_round_aux prec emax false m e l).
Proof.
  unfold binary_round_aux. destruct (shr_fexp prec emax m e l) as [r1 e1].
  destruct (shr_fexp prec emax _ e1 loc_Exact) as [r2 e2].
  destruct (shr_m r2); [exact I| |exact I]. destruct (_ <=? _); exact I.
Qed.

Lemma binary_round_sign m e : sf_not_negative (binary_round prec emax false m e).
Proof.
  unfold binary_round. destruct (shl_align m e _). apply binary_round_aux_sign.
Qed.

Lemma nonneg64_mul a b x y :
  nonneg64 a x -> nonneg64 b y -> -1074 <= a + b <= 1023 -> nonneg64 (a + b + 1) (x * y)%float.
Proof.
  intros Hx Hy Hr. unfold nonneg64 in *. apply sf_nonneg_of_fin.
  - rewrite mul_spec. apply SFmul_fin; [apply sf_nonneg_fin; exact Hx|apply sf_nonneg_fin; exact Hy|exact Hr].
  - rewrite mul_spec. unfold SF64mul.
    destruct (Prim2SF x) as [| | |[|] mx ex], (Prim2SF y) as [| | |[|] my ey];
      cbn [sf_nonneg] in Hx, Hy; try tauto; cbn [SFmul xorb]; try exact I.
    apply binary_round_aux_sign.
Qed.

Lemma nonneg64_add a b x y :
  nonneg64 a x -> nonneg64 b y -> -1074 <= Z.max a b + 1 <= 1023 ->
  nonneg64 (Z.max a b + 2) (x + y)%float.
Proof.
  intros Hx Hy Hr. unfold nonneg64 in *. apply sf_nonneg_of_fin.
  - rewrite add_spec. apply SFadd_fin; [apply sf_nonneg_fin; exact Hx|apply sf_nonneg_fin; exact Hy|exact Hr].
  - rewrite add_spec. unfold SF64add.
    destruct (Prim2SF x) as [sx| | |[|] mx ex], (Prim2SF y) as [sy| | |[|] my ey];
      cbn [sf_nonneg] in Hx, Hy; try tauto; cbn [SFadd]; try exact I.
    + destruct sx, sy; exact I.
    + cbn [cond_Zopp]. zfix.
      change (Zpos (fst (shl_align mx ex (Z.min ex ey))) + Zpos (fst (shl_align my ey (Z.min ex ey))))
        with (Zpos (fst (shl_align mx ex (Z.min ex ey)) + fst (shl_align my ey (Z.min ex ey)))).
      cbn [binary_normalize]. apply binary_round_sign.
Qed.

Lemma py_truediv_nonneg a b :
  0 <= a <= b -> 0 < b -> exists f, py_truediv a b = Ok f /\ nonneg64 2 f.
Proof.
  intros Ha Hb. unfold py_truediv, nonneg64.
  replace (b =? 0) with false by (symmetry; apply Z.eqb_neq; lia).
  assert (sf_not_negative (SFdiv prec emax (Z2SF a) (Z2SF b))) as N.
  { destruct b as [|pb|pb]; try lia. destruct a as [|pa|pa]; try lia.
    - exact I.
    - cbn [Z2SF SFdiv xorb].
      destruct (SFdiv_core_binary prec emax (Zpos pa) 0 (Zpos pb) 0) as [[q e'] l].
      apply binary_round_aux_sign. }
  assert (sf_fin 2 (SFdiv prec emax (Z2SF a) (Z2SF b))) as F.
  { destruct b as [|pb|pb]; try lia. destruct a as [|pa|pa]; try lia.
    - exact I.
    - cbn [Z2SF].
      pose proof (Zdigits2_mono (Zpos pa) (Zpos pb) ltac:(lia)) as M.
      apply (sf_fin_weaken (Zdigits2 (Zpos pb) - Zdigits2 (Zpos pb) + 2)); [|lia].
      apply SFdiv_fin; lia. }
  pose proof (sf_nonneg_of_fin _ _ F N) as NN.
  pose proof (sf_fin_valid _ _ F) as V.
  destruct (SFdiv prec emax (Z2SF a) (Z2SF b)) as [s|s| |s m e] eqn:Ed;
    cbn [sf_fin] in F; try tauto.
  - eexists. split; [reflexivity|]. rewrite Prim2SF_SF2Prim by exact V. exact NN.
  - eexists. split; [reflexivity|]. rewrite Prim2SF_SF2Prim by exact V. exact NN.
Qed.

(** A constant between 0 and 1024. *)
Lemma nonneg64_const c :
  (0 <=? c)%float = true -> (c <=? 1024)%float = true -> nonneg64 12 c.
Proof.
  intros H0 H1. unfold nonneg64.
  rewrite leb_spec in H0, H1. pose proof (Prim2SF_valid c) as V.
  change (Prim2SF 0) with (S754_zero false) in H0.
  change (Prim2SF 1024) with (S754_finite false 4503599627370496 (-42)) in H1.
  destruct (Prim2SF c) as [s|s| |[|] m e]; cbn [sf_nonneg]; try exact I;
    try discriminate H0; try discriminate H1.
  - destruct s; discriminate.
  - cbn [valid_binary] in V. split; [exact V|]. apply bounded_digits in V.
    unfold SFleb, SFcompare in H1. zfix.
    destruct (Z.compare_spec e (-42)); try discriminate H1; lia.
Qed.

(** Adding a positive constant preserves the order of non-negative floats. *)
Lemma add_const_monotone x y c mc ec :
  nonneg64 900 x -> nonneg64 900 y ->
  Prim2SF c = S754_finite false mc ec -> Zdigits2 (Zpos mc) + ec <= 900 ->
  ((x <? y)%float = false -> (x + c <? y + c)%float = false) /\
  ((x <? y)%float = true ->
   (x + c <? y + c)%float = true \/ (x + c)%float = (y + c)%float) /\
  (x + c =? 0)%float = false.
Proof.
  intros Hx Hy Hc Hm. unfold nonneg64 in *.
  assert (sf_nonneg 900 (S754_finite false mc ec)) as HC.
  { cbn [sf_nonneg]. pose proof (Prim2SF_valid c) as V. rewrite Hc in V. auto. }
  destruct (SFadd_value _ mc ec Hx HC) as (m1 & e1 & E1 & B1 & V1).
  destruct (SFadd_value _ mc ec Hy HC) as (m2 & e2 & E2 & B2 & V2).
  rewrite !ltb_spec, eqb_spec, !add_spec, Hc. unfold SF64add. rewrite E1, E2.
  rewrite (SFltb_units 900 900 (Prim2SF x) (Prim2SF y) Hx Hy).
  pose proof (bounded_digits _ _ B1) as (D1 & L1 & _).
  pose proof (bounded_digits _ _ B2) as (D2 & L2 & _).
  rewrite (SFltb_units 2000 2000 (S754_finite false m1 e1) (S754_finite false m2 e2))
    by (cbn [sf_nonneg]; split; [assumption|lia]).
  cbn [sf_units]. rewrite V1, V2.
  assert (0 <= sf_units (Prim2SF x)) as Ux.
  { destruct (Prim2SF x) as [| | |[|] m e]; cbn [sf_units]; lia. }
  assert (0 <= sf_units (Prim2SF y)) as Uy.
  { destruct (Prim2SF y) as [| | |[|] m e]; cbn [sf_units]; lia. }
  assert (0 < Zpos mc * 2 ^ (ec + 1074)) as Uc.
  { destruct HC as [Bc _]. apply bounded_digits in Bc.
    pose proof (pow2_pos (ec + 1074) ltac:(lia)). lia. }
  split; [|split].
  - intros L. apply Z.ltb_ge in L. apply Z.ltb_ge. apply rnd_value_mono. lia.
  - intros L. apply Z.ltb_lt in L.
    pose proof (rnd_value_mono (sf_units (Prim2SF x) + Zpos mc * 2 ^ (ec + 1074))
                  (sf_units (Prim2SF y) + Zpos mc * 2 ^ (ec + 1074)) ltac:(lia)) as M.
    destruct (Z.eq_dec (rnd_value (sf_units (Prim2SF x) + Zpos mc * 2 ^ (ec + 1074)))
                (rnd_value (sf_units (Prim2SF y) + Zpos mc * 2 ^ (ec + 1074)))) as [Eq | Ne].
    + right. apply Prim2SF_inj. rewrite !add_spec, Hc. unfold SF64add. rewrite E1, E2.
      apply sf_units_inj; try assumption. rewrite V1, V2. exact Eq.
    + left. apply Z.ltb_lt. lia.
  - reflexivity.
Qed.

Lemma sf_nonneg_weaken k k' f : sf_nonneg k f -> k <= k' -> sf_nonneg k' f.
Proof.
  destruct f as [s|s| |[|] m e]; cbn [sf_nonneg]; try tauto.
  intros [B D] L. split; [exact B|lia].
Qed.

Lemma nonneg64_weaken k k' x : nonneg64 k x -> k <= k' -> nonneg64 k' x.
Proof. apply sf_nonneg_weaken. Qed.

Lemma luminance_nonneg c :
  RGB.valid c = true -> exists L, RGB.luminance c = Ok L /\ nonneg64 19 L.
Proof.
  intros V. apply valid_channels in V. destruct V as (Hr & Hg & Hb).
  unfold RGB.luminance.
  destruct (py_truediv_nonneg (RGB.r c) 255) as (fr & -> & Fr); [lia|lia|].
  destruct (py_truediv_nonneg (RGB.g c) 255) as (fg & -> & Fg); [lia|lia|].
  destruct (py_truediv_nonneg (RGB.b c) 255) as (fb & -> & Fb); [lia|lia|].
  cbn [bind]. eexists. split; [reflexivity|].
  assert (forall k f, (0 <=? k)%float = true -> (k <=? 1024)%float = true ->
                      nonneg64 2 f -> nonneg64 15 (k * f)%float) as M.
  { intros k f H0 H1 F.
    apply (nonneg64_mul 12 2); [apply nonneg64_const; assumption|exact F|lia]. }
  apply (nonneg64_add 17 15); [|apply M; [reflexivity|reflexivity|exact Fb]|lia].
  apply (nonneg64_add 15 15); [apply M; [reflexivity|reflexivity|exact Fr]
                              |apply M; [reflexivity|reflexivity|exact Fg]|lia].
Qed.

Lemma offset_shape : Prim2SF 0.05 = S754_finite false 7205759403792794 (-57).
Proof. reflexivity. Qed.

Lemma max_add_offset x y :
  nonneg64 19 x -> nonneg64 19 y ->
  py_max2 (x + 0.05) (y + 0.05) = (py_max2 x y + 0.05)%float.
Proof.
  intros Hx Hy.
  destruct (add_const_monotone x y 0.05%float _ _
              (nonneg64_weaken _ 900 _ Hx ltac:(lia)) (nonneg64_weaken _ 900 _ Hy ltac:(lia))
              offset_shape ltac:(vm_compute; discriminate)) as (F & T & _).
  unfold py_max2. destruct (x <? y)%float.
  - destruct (T eq_refl) as [-> | E]; [reflexivity|].
    rewrite E. match goal with |- context [if ?t then _ else _] => destruct t end; reflexivity.
  - rewrite (F eq_refl). reflexivity.
Qed.

Lemma min_add_offset x y :
  nonneg64 19 x -> nonneg64 19 y ->
  py_min2 (x + 0.05) (y + 0.05) = (py_min2 x y + 0.05)%float /\
  (py_min2 (x + 0.05) (y + 0.05) =? 0)%float = false.
Proof.
  intros Hx Hy.
  destruct (add_const_monotone y x 0.05%float _ _
              (nonneg64_weaken _ 900 _ Hy ltac:(lia)) (nonneg64_weaken _ 900 _ Hx ltac:(lia))
              offset_shape ltac:(vm_compute; discriminate)) as (F & T & Zy).
  destruct (add_const_monotone x y 0.05%float _ _
              (nonneg64_weaken _ 900 _ Hx ltac:(lia)) (nonneg64_weaken _ 900 _ Hy ltac:(lia))
              offset_shape ltac:(vm_compute; discriminate)) as (_ & _ & Zx).
  unfold py_min2. destruct (y <? x)%float.
  - destruct (T eq_refl) as [-> | E]; [split; [reflexivity|exact Zy]|].
    rewrite E.
    match goal with |- context [if ?t then _ else _] => destruct t end;
      (split; [reflexivity|exact Zx]).
  - rewrite (F eq_refl). split; [reflexivity|exact Zx].
Qed.

Lemma contrast_ratio_of_luminances a b L1 L2 :
  RGB.valid (Color.rgb a) = true -> RGB.valid (Color.rgb b) = true ->
  RGB.luminance (Color.rgb a) = Ok L1 -> RGB.luminance (Color.rgb b) = Ok L2 ->
  Color.contrast_ratio a b = Ok ((py_max2 L1 L2 + 0.05) / (py_min2 L1 L2 + 0.05))%float.
Proof.
  intros Va Vb E1 E2.
  destruct (luminance_nonneg _ Va) as (L1' & E1' & N1).
  destruct (luminance_nonneg _ Vb) as (L2' & E2' & N2).
  rewrite E1 in E1'. rewrite E2 in E2'. injection E1' as <-. injection E2' as <-.
  unfold Color.contrast_ratio. rewrite E1, E2. cbn [bind].
  destruct (min_add_offset L1 L2 N1 N2) as (Em & Zm).
  rewrite py_fdiv_ok by exact Zm.
  rewrite Em, (max_add_offset L1 L2 N1 N2). reflexivity.
Qed.

(** ** Strings that trimming and lower-casing leave alone *)

Lemma all_chars_impl (p q : ascii -> bool) s :
  (forall c, p c = true -> q c = true) -> all_chars p s = true -> all_chars q s = true.
Proof.
  intros H. induction s as [|c s IH]; cbn [all_chars]; [reflexivity|].
  rewrite !andb_true_iff. intros [Hc Hs]. auto.
Qed.

Lemma all_chars_app p s t :
  all_chars p (s ++ t) = all_chars p s && all_chars p t.
Proof.
  induction s as [|c s IH]; cbn [append all_chars]; [reflexivity|].
  rewrite IH. apply andb_assoc.
Qed.

Lemma rstrip_id p s :
  all_chars (fun c => negb (p c)) s = true -> rstrip p s = s.
Proof.
  induction s as [|c s IH]; cbn [all_chars rstrip]; [reflexivity|].
  rewrite andb_true_iff, negb_true_iff. intros [Hc Hs].
  rewrite (IH Hs). destruct s; [rewrite Hc|]; reflexivity.
Qed.

Lemma py_strip_id s :
  all_chars (fun c => negb (py_isspace c)) s = true -> py_strip s = s.
Proof.
  intros H. unfold py_strip.
  assert (lstrip py_isspace s = s) as ->.
  { destruct s as [|c s]; [reflexivity|]. cbn [all_chars] in H.
    apply andb_true_iff in H. destruct H as [Hc _]. apply negb_true_iff in Hc.
    cbn [lstrip]. rewrite Hc. reflexivity. }
  apply rstrip_id. exact H.
Qed.

Lemma py_lower_id s :
  all_chars (fun c => Ascii.eqb (lower_char c) c) s = true -> py_lower s = s.
Proof.
  induction s as [|c s IH]; cbn [all_chars py_lower]; [reflexivity|].
  rewrite andb_true_iff, Ascii.eqb_eq. intros [-> Hs]. rewrite (IH Hs). reflexivity.
Qed.

Lemma lower_hex_checked : forallb lower_hex_check all_ascii = true.
Proof. vm_compute. reflexivity. Qed.

Lemma is_lower_hex_facts c :
  is_lower_hex c = true ->
  is_hex c = true /\ py_isspace c = false /\ lower_char c = c.
Proof.
  intros H. pose proof (ascii_forall _ lower_hex_checked c) as C.
  unfold lower_hex_check in C. rewrite H in C.
  rewrite !andb_true_iff, negb_true_iff, Ascii.eqb_eq in C. tauto.
Qed.

Lemma is_hex_facts c :
  is_hex c = true ->
  py_isspace c = false /\ is_lower_hex (lower_char c) = true /\
  (lower_char c = c -> is_lower_hex c = true).
Proof.
  intros H. pose proof (ascii_forall _ lower_hex_checked c) as C.
  unfold lower_hex_check in C. rewrite H in C.
  rewrite !andb_true_iff, negb_true_iff in C. destruct C as [[_ [C1 C2]] C3].
  split; [exact C1|]. split; [exact C2|].
  intros E. rewrite E, Ascii.eqb_refl in C3. exact C3.
Qed.

Lemma two_hex_values_checked : allb 256 two_hex_value_check = true.
Proof. vm_compute. reflexivity. Qed.

Lemma two_hex_value v :
  0 <= v <= 255 ->
  16 * digit_value (RGB.hex_digit (v / 16)) + digit_value (RGB.hex_digit (v mod 16)) = v.
Proof.
  intros H. apply Z.eqb_eq. exact (allb_spec 256 _ two_hex_values_checked v ltac:(lia)).
Qed.

Lemma hex_renders_checked : forallb hex_render_check all_ascii = true.
Proof. vm_compute. reflexivity. Qed.

Lemma hex_render a b :
  is_lower_hex a = true -> is_lower_hex b = true ->
  0 <= 16 * digit_value a + digit_value b <= 255 /\
  RGB.format_02x (16 * digit_value a + digit_value b) = String a (String b EmptyString).
Proof.
  intros Ha Hb. pose proof (ascii_forall _ hex_renders_checked a) as C.
  unfold hex_render_check in C. rewrite Ha in C.
  rewrite forallb_forall in C. specialize (C b (all_ascii_complete b)).
  cbv beta in C. rewrite Hb in C.
  rewrite !andb_true_iff, !Z.leb_le, String.eqb_eq in C. cbv zeta in C. tauto.
Qed.

Lemma to_hex_digits c :
  RGB.valid c = true ->
  RGB.to_hex c
  = String "#" (two_hex (RGB.r c) ++ two_hex (RGB.g c) ++ two_hex (RGB.b c)) /\
  all_chars is_lower_hex (two_hex (RGB.r c) ++ two_hex (RGB.g c) ++ two_hex (RGB.b c)) = true.
Proof.
  intros V. apply valid_channels in V. destruct V as (Hr & Hg & Hb).
  destruct (format_02x_channel _ Hr) as [Fr Lr].
  destruct (format_02x_channel _ Hg) as [Fg Lg].
  destruct (format_02x_channel _ Hb) as [Fb Lb].
  split.
  - unfold RGB.to_hex. rewrite Fr, Fg, Fb. reflexivity.
  - rewrite !all_chars_app, Lr, Lg, Lb. reflexivity.
Qed.

(** A [#] followed by lower-case hexadecimal digits is left alone by
    [strip] and [lower]. *)
Lemma normal_hex_string d :
  all_chars is_lower_hex d = true ->
  py_lower (py_strip (String "#" d)) = String "#" d.
Proof.
  intros H. rewrite py_strip_id.
  - apply py_lower_id. cbn [all_chars]. apply andb_true_iff. split; [reflexivity|].
    apply (all_chars_impl is_lower_hex); [|exact H].
    intros c Hc. apply is_lower_hex_facts in Hc. apply Ascii.eqb_eq. tauto.
  - cbn [all_chars]. apply andb_true_iff. split; [reflexivity|].
    apply (all_chars_impl is_lower_hex); [|exact H].
    intros c Hc. apply is_lower_hex_facts in Hc. apply negb_true_iff. tauto.
Qed.

Lemma parse_string_hash s :
  startswith (py_lower (py_strip s)) "#" = true ->
  Color._parse_string s = Color._parse_hex (py_lower (py_strip s)).
Proof. intros H. unfold Color._parse_string. rewrite H. reflexivity. Qed.

(** ** Trimming and lower-casing twice *)

Lemma lower_chars_checked : forallb lower_char_check all_ascii = true.
Proof. vm_compute. reflexivity. Qed.

Lemma lower_char_facts c :
  lower_char (lower_char c) = lower_char c /\ py_isspace (lower_char c) = py_isspace c.
Proof.
  pose proof (ascii_forall _ lower_chars_checked c) as C. unfold lower_char_check in C.
  rewrite andb_true_iff, Ascii.eqb_eq in C. destruct C as [C1 C2].
  apply Bool.eqb_prop in C2. auto.
Qed.

Lemma py_lower_idem s : py_lower (py_lower s) = py_lower s.
Proof.
  induction s as [|c s IH]; cbn [py_lower]; [reflexivity|].
  rewrite IH. f_equal. apply lower_char_facts.
Qed.

Lemma lstrip_lower s :
  lstrip py_isspace (py_lower s) = py_lower (lstrip py_isspace s).
Proof.
  induction s as [|c s IH]; cbn [py_lower lstrip]; [reflexivity|].
  rewrite (proj2 (lower_char_facts c)). destruct (py_isspace c); [exact IH|reflexivity].
Qed.

Lemma rstrip_lower s :
  rstrip py_isspace (py_lower s) = py_lower (rstrip py_isspace s).
Proof.
  induction s as [|c s IH]; cbn [py_lower rstrip]; [reflexivity|].
  rewrite IH, (proj2 (lower_char_facts c)).
  destruct (rstrip py_isspace s) as [|d t]; cbn [py_lower]; [|reflexivity].
  destruct (py_isspace c); reflexivity.
Qed.

Lemma py_strip_lower s : py_strip (py_lower s) = py_lower (py_strip s).
Proof. unfold py_strip. rewrite lstrip_lower. apply rstrip_lower. Qed.

Lemma rstrip_idem p s : rstrip p (rstrip p s) = rstrip p s.
Proof.
  induction s as [|c s IH]; cbn [rstrip]; [reflexivity|].
  destruct (rstrip p s) as [|d t] eqn:E.
  - destruct (p c) eqn:Pc; cbn [rstrip]; [reflexivity|]. rewrite Pc. reflexivity.
  - change (rstrip p (String c (String d t)))
      with (match rstrip p (String d t) with
            | EmptyString => if p c then EmptyString else String c EmptyString
            | t' => String c t'
            end).
    rewrite IH. reflexivity.
Qed.

Lemma rstrip_head p c s :
  p c = false -> exists t, rstrip p (String c s) = String c t.
Proof.
  intros Pc. cbn [rstrip]. destruct (rstrip p s) as [|d t]; [rewrite Pc|]; eauto.
Qed.

Lemma py_strip_idem s : py_strip (py_strip s) = py_strip s.
Proof.
  unfold py_strip. destruct (lstrip py_isspace s) as [|c u] eqn:E; [reflexivity|].
  pose proof (lstrip_head _ _ _ _ E) as Pc.
  destruct (rstrip_head py_isspace c u Pc) as [t Et].
  assert (lstrip py_isspace (rstrip py_isspace (String c u)) = rstrip py_isspace (String c u))
    as -> by (rewrite Et; cbn [lstrip]; rewrite Pc; reflexivity).
  apply rstrip_idem.
Qed.

Lemma normal_form_idem s :
  py_lower (py_strip (py_lower (py_strip s))) = py_lower (py_strip s).
Proof. rewrite py_strip_lower, py_strip_idem. apply py_lower_idem. Qed.

(** ** What parsing a string can give *)

Lemma parse_hex_result s :
  (exists c, Color._parse_hex s = Ok c /\ RGB.valid c = true) \/
  Color._parse_hex s = Raise ValueError.
Proof.
  destruct (Color._parse_hex s) as [c|e] eqn:E.
  - left. exists c. split; [reflexivity|]. unfold Color._parse_hex in E.
    destruct (int_of_string _ 16); [|discriminate]. cbn [bind] in E.
    destruct (int_of_string _ 16); [|discriminate]. cbn [bind] in E.
    destruct (int_of_string _ 16); [|discriminate]. cbn [bind] in E.
    injection E as <-. apply RGB_new_valid.
  - right. f_equal. eapply parse_hex_error. exact E.
Qed.

Lemma parse_rgb_string_result s :
  (exists c, Color._parse_rgb_string s = Ok c /\ RGB.valid c = true) \/
  Color._parse_rgb_string s = Raise ValueError.
Proof.
  unfold Color._parse_rgb_string.
  destruct (Color.match_rgb s) as [[[g1 g2] g3]|]; [|right; reflexivity].
  destruct (int_of_string g1 10) eqn:E1; cbn [bind];
    [|right; f_equal; eapply int_of_string_error; exact E1].
  destruct (int_of_string g2 10) eqn:E2; cbn [bind];
    [|right; f_equal; eapply int_of_string_error; exact E2].
  destruct (int_of_string g3 10) eqn:E3; cbn [bind];
    [|right; f_equal; eapply int_of_string_error; exact E3].
  left. eexists. split; [reflexivity|apply RGB_new_valid].
Qed.

Lemma parse_hsl_string_result s :
  (exists c, Color._parse_hsl_string s = Ok c /\ RGB.valid c = true) \/
  Color._parse_hsl_string s = Raise ValueError.
Proof.
  unfold Color._parse_hsl_string.
  destruct (Color.match_hsl s) as [[[g1 g2] g3]|]; [|right; reflexivity].
  destruct (int_of_string g1 10) eqn:E1; cbn [bind];
    [|right; f_equal; eapply int_of_string_error; exact E1].
  destruct (int_of_string g2 10) eqn:E2; cbn [bind];
    [|right; f_equal; eapply int_of_string_error; exact E2].
  destruct (int_of_string g3 10) eqn:E3; cbn [bind];
    [|right; f_equal; eapply int_of_string_error; exact E3].
  left. apply HSL_to_rgb_total, HSL_new_valid.
Qed.

(** ** The table of names *)

Lemma named_colors_checked : forallb named_color_check NAMED_COLORS = true.
Proof. vm_compute. reflexivity. Qed.

(** ** The CSS rendering of an HSL value *)

Lemma py_str_checked : allb 360 py_str_check = true.
Proof. vm_compute. reflexivity. Qed.

Lemma py_str_small n :
  0 <= n < 360 ->
  py_str n <> EmptyString /\ all_chars is_digit (py_str n) = true /\
  decimal_value (py_str n) = n /\
  all_chars (fun c => Ascii.eqb (lower_char c) c) (py_str n) = true /\
  (String.length (py_str n) <= 4300)%nat.
Proof.
  intros H. pose proof (allb_spec 360 _ py_str_checked n ltac:(lia)) as C.
  unfold py_str_check in C. destruct (py_str n) as [|c s]; [discriminate|].
  rewrite !andb_true_iff, Z.eqb_eq, Nat.leb_le in C. split; [discriminate|].
  repeat split; try tauto. lia.
Qed.

Lemma string_app_assoc (a b c : string) : ((a ++ b) ++ c = a ++ (b ++ c))%string.
Proof. induction a as [|x a IH]; cbn [append]; [reflexivity|]. rewrite IH. reflexivity. Qed.

Lemma rstrip_last p t d :
  p d = false -> rstrip p (t ++ String d EmptyString) = (t ++ String d EmptyString)%string.
Proof.
  intros Pd. induction t as [|c t IH]; cbn [append rstrip].
  - rewrite Pd. reflexivity.
  - rewrite IH. destruct t; reflexivity.
Qed.

Lemma HSL_new_id c : HSL.valid c = true -> HSL.new (HSL.h c) (HSL.s c) (HSL.l c) = c.
Proof.
  intros V. apply HSL_valid_fields in V. destruct c as [h s l]. cbn in *.
  unfold HSL.new. rewrite !clamp_id by lia. rewrite Z.mod_small by lia. reflexivity.
Qed.

Lemma match_hsl_css g1 g2 g3 :
  g1 <> EmptyString -> all_chars is_digit g1 = true ->
  g2 <> EmptyString -> all_chars is_digit g2 = true ->
  g3 <> EmptyString -> all_chars is_digit g3 = true ->
  Color.match_hsl ("hsl(" ++ g1 ++ ", " ++ g2 ++ "%, " ++ g3 ++ "%)")
  = Some (g1, g2, g3).
Proof.
  intros N1 D1 N2 D2 N3 D3. unfold Color.match_hsl.
  change (lit "hsl" ("hsl(" ++ g1 ++ ", " ++ g2 ++ "%, " ++ g3 ++ "%)"))
    with (Some ("(" ++ g1 ++ ", " ++ g2 ++ "%, " ++ g3 ++ "%)")%string).
  cbv beta iota.
  change (lit "(" (opt_char "a" ("(" ++ g1 ++ ", " ++ g2 ++ "%, " ++ g3 ++ "%)")))
    with (Some (g1 ++ ", " ++ g2 ++ "%, " ++ g3 ++ "%)")%string).
  cbv beta iota.
  rewrite digits1_app by (assumption || reflexivity). cbv beta iota.
  change (lit "," (", " ++ g2 ++ "%, " ++ g3 ++ "%)"))
    with (Some (" " ++ g2 ++ "%, " ++ g3 ++ "%)")%string).
  cbv beta iota.
  assert (forall g rest, g <> EmptyString -> all_chars is_digit g = true ->
                         spaces (" " ++ g ++ rest) = (g ++ rest)%string) as Sp.
  { intros g rest N D. unfold spaces.
    apply (lstrip_app py_isspace " "); [reflexivity|].
    apply nonempty_digits_head; assumption. }
  rewrite Sp by assumption.
  rewrite digits1_app by (assumption || reflexivity). cbv beta iota.
  change (lit "," (opt_char "%" ("%, " ++ g3 ++ "%)")))
    with (Some (" " ++ g3 ++ "%)")%string).
  cbv beta iota.
  rewrite Sp by assumption.
  rewrite digits1_app by (assumption || reflexivity). reflexivity.
Qed.

Lemma css_normal g1 g2 g3 :
  all_chars (fun c => Ascii.eqb (lower_char c) c) g1 = true ->
  all_chars (fun c => Ascii.eqb (lower_char c) c) g2 = true ->
  all_chars (fun c => Ascii.eqb (lower_char c) c) g3 = true ->
  py_lower (py_strip ("hsl(" ++ g1 ++ ", " ++ g2 ++ "%, " ++ g3 ++ "%)"))
  = ("hsl(" ++ g1 ++ ", " ++ g2 ++ "%, " ++ g3 ++ "%)")%string.
Proof.
  intros L1 L2 L3.
  assert (py_strip ("hsl(" ++ g1 ++ ", " ++ g2 ++ "%, " ++ g3 ++ "%)")
          = ("hsl(" ++ g1 ++ ", " ++ g2 ++ "%, " ++ g3 ++ "%)")%string) as ->.
  { unfold py_strip.
    change (lstrip py_isspace ("hsl(" ++ g1 ++ ", " ++ g2 ++ "%, " ++ g3 ++ "%)"))
      with ("hsl(" ++ g1 ++ ", " ++ g2 ++ "%, " ++ g3 ++ "%)")%string.
    replace ("hsl(" ++ g1 ++ ", " ++ g2 ++ "%, " ++ g3 ++ "%)")%string
      with (("hsl(" ++ g1 ++ ", " ++ g2 ++ "%, " ++ g3 ++ "%") ++ String ")" EmptyString)%string.
    - apply rstrip_last. reflexivity.
    - rewrite !string_app_assoc. reflexivity. }
  apply py_lower_id.
  cbn [append all_chars]. rewrite all_chars_app, L1.
  cbn [append all_chars]. rewrite all_chars_app, L2.
  cbn [append all_chars]. rewrite all_chars_app, L3. reflexivity.
Qed.

(** ** Comparing floats that are not negative *)

Lemma SFcompare_antisym f1 f2 :
  SFcompare f2 f1 = option_map CompOpp (SFcompare f1 f2).
Proof.
  destruct f1 as [s1|s1| |s1 m1 e1], f2 as [s2|s2| |s2 m2 e2];
    cbn [SFcompare option_map]; try reflexivity;
    try (destruct s1; reflexivity); try (destruct s2; reflexivity);
    try (destruct s1, s2; reflexivity).
  zfix. rewrite !pos_compare_cont_Eq.
  rewrite (Z.compare_antisym e1 e2), (Pos.compare_antisym m1 m2).
  destruct s1, s2; try reflexivity;
    destruct (e1 ?= e2); cbn [CompOpp]; try reflexivity;
    destruct (m1 ?= m2)%positive; reflexivity.
Qed.

Lemma SFcompare_units a b x y :
  sf_nonneg a x -> sf_nonneg b y ->
  SFcompare x y = Some (sf_units x ?= sf_units y).
Proof.
  intros Hx Hy.
  pose proof (SFltb_units a b x y Hx Hy) as L1.
  pose proof (SFltb_units b a y x Hy Hx) as L2.
  unfold SFltb in L1, L2. rewrite (SFcompare_antisym x y) in L2.
  destruct (SFcompare x y) as [[| |]|] eqn:E; cbn [option_map CompOpp] in L2.
  - f_equal. symmetry. apply Z.compare_eq_iff.
    symmetry in L1, L2. apply Z.ltb_ge in L1, L2. lia.
  - f_equal. symmetry. apply Z.compare_lt_iff. apply Z.ltb_lt. auto.
  - f_equal. symmetry. apply Z.compare_gt_iff. apply Z.ltb_lt. auto.
  - destruct x as [sx|sx| |[|] mx ex], y as [sy|sy| |[|] my ey];
      cbn [sf_nonneg] in Hx, Hy; try tauto; discriminate E.
Qed.

Lemma ltb_units a b x y :
  nonneg64 a x -> nonneg64 b y ->
  (x <? y)%float = (sf_units (Prim2SF x) <? sf_units (Prim2SF y)).
Proof. intros Hx Hy. rewrite ltb_spec. apply (SFltb_units a b); assumption. Qed.

Lemma leb_units a b x y :
  nonneg64 a x -> nonneg64 b y ->
  (x <=? y)%float = (sf_units (Prim2SF x) <=? sf_units (Prim2SF y)).
Proof.
  intros Hx Hy. rewrite leb_spec. unfold SFleb.
  rewrite (SFcompare_units a b) by assumption. unfold Z.leb.
  destruct (_ ?= _); reflexivity.
Qed.

Lemma eqb_units a b x y :
  nonneg64 a x -> nonneg64 b y ->
  (x =? y)%float = (sf_units (Prim2SF x) =? sf_units (Prim2SF y)).
Proof.
  intros Hx Hy. rewrite eqb_spec. unfold SFeqb.
  rewrite (SFcompare_units a b) by assumption. rewrite Z.eqb_compare.
  destruct (_ ?= _); reflexivity.
Qed.

Lemma SFdiv_same p e :
  SFdiv prec emax (S754_finite false p e) (S754_finite false p e)
  = S754_finite false 4503599627370496 (-52).
Proof.
  cbn [SFdiv]. unfold SFdiv_core_binary. zfix.
  replace (Zdigits2 (Zpos p) + e - (Zdigits2 (Zpos p) + e)) with 0 by lia.
  replace (e - e) with 0 by lia.
  change (Z.min (fexp64 0) 0) with (-53).
  change (0 - -53) with 53.
  rewrite div_eucl_eq, Z.shiftl_mul_pow2 by lia.
  rewrite (Z.mul_comm (Zpos p)), Z.div_mul, Z.mod_mul by lia.
  assert (new_location (Zpos p) 0 = loc_Exact) as ->.
  { unfold new_location, new_location_even, new_location_odd.
    destruct (IntDef.Z.even (Zpos p)); reflexivity. }
  reflexivity.
Qed.

Lemma positive64_nonneg x : positive64 x -> nonneg64 1024 x.
Proof.
  intros (m & e & E). unfold nonneg64. pose proof (Prim2SF_valid x) as V.
  rewrite E in *. cbn [valid_binary] in V. cbn [sf_nonneg]. split; [exact V|].
  apply bounded_digits in V. lia.
Qed.

Lemma positive64_eq x y :
  positive64 x -> positive64 y -> (x <? y)%float = false -> (y <? x)%float = false -> x = y.
Proof.
  intros Px Py L1 L2.
  pose proof (positive64_nonneg x Px) as Nx. pose proof (positive64_nonneg y Py) as Ny.
  rewrite (ltb_units 1024 1024) in L1, L2 by assumption.
  apply Z.ltb_ge in L1, L2.
  destruct Px as (mx & ex & Ex), Py as (my & ey & Ey).
  pose proof (Prim2SF_valid x) as Vx. pose proof (Prim2SF_valid y) as Vy.
  apply Prim2SF_inj. rewrite Ex, Ey in *. cbn [valid_binary sf_units] in *.
  apply sf_units_inj; [assumption|assumption|lia].
Qed.

Lemma max2_comm x y : positive64 x -> positive64 y -> py_max2 x y = py_max2 y x.
Proof.
  intros Px Py. unfold py_max2.
  pose proof (positive64_nonneg x Px) as Nx. pose proof (positive64_nonneg y Py) as Ny.
  destruct (x <? y)%float eqn:L1, (y <? x)%float eqn:L2; try reflexivity.
  - rewrite (ltb_units 1024 1024) in L1, L2 by assumption.
    apply Z.ltb_lt in L1, L2. lia.
  - apply positive64_eq; assumption.
Qed.

Lemma min2_comm x y : positive64 x -> positive64 y -> py_min2 x y = py_min2 y x.
Proof.
  intros Px Py. unfold py_min2.
  pose proof (positive64_nonneg x Px) as Nx. pose proof (positive64_nonneg y Py) as Ny.
  destruct (x <? y)%float eqn:L1, (y <? x)%float eqn:L2; try reflexivity.
  - rewrite (ltb_units 1024 1024) in L1, L2 by assumption.
    apply Z.ltb_lt in L1, L2. lia.
  - apply positive64_eq; assumption.
Qed.

Lemma positive64_self x :
  positive64 x ->
  (x <? x)%float = false /\ (x =? 0)%float = false /\ (x / x)%float = 1%float.
Proof.
  intros (m & e & E). split; [|split].
  - rewrite ltb_spec, E. unfold SFltb, SFcompare. zfix. rewrite Z.compare_refl.
    rewrite pos_compare_cont_Eq, Pos.compare_refl. reflexivity.
  - rewrite eqb_spec, E. reflexivity.
  - apply Prim2SF_inj. rewrite div_spec, E. unfold SF64div. rewrite SFdiv_same. reflexivity.
Qed.

Lemma offset_positive L : nonneg64 19 L -> positive64 (L + 0.05)%float.
Proof.
  intros H. unfold positive64. rewrite add_spec, offset_shape. unfold SF64add.
  destruct (SFadd_value (Prim2SF L) 7205759403792794 (-57)) as (m & e & E & _).
  - apply (sf_nonneg_weaken 19); [exact H|lia].
  - cbn [sf_nonneg]. split; [reflexivity|vm_compute; discriminate].
  - eauto.
Qed.

Lemma nonneg64_fin k x : nonneg64 k x -> fin64 k x.
Proof. apply sf_nonneg_fin. Qed.

(** ** [grayscale] *)

Lemma grays_checked : allb 256 gray_check = true.
Proof. vm_compute. reflexivity. Qed.

(** ** Floats that are zero *)

Lemma zero64_mul_l k x y : zero64 x -> fin64 k y -> zero64 (x * y)%float.
Proof.
  intros [s E] F. unfold zero64, fin64 in *. rewrite mul_spec, E. unfold SF64mul.
  destruct (Prim2SF y) as [sy|sy| |sy my ey]; cbn [sf_fin] in F; try tauto;
    cbn [SFmul]; eauto.
Qed.

Lemma zero64_mul_r k x y : fin64 k x -> zero64 y -> zero64 (x * y)%float.
Proof.
  intros F [s E]. unfold zero64, fin64 in *. rewrite mul_spec, E. unfold SF64mul.
  destruct (Prim2SF x) as [sx|sx| |sx mx ex]; cbn [sf_fin] in F; try tauto;
    cbn [SFmul]; eauto.
Qed.

Lemma zero64_add x y : zero64 x -> zero64 y -> zero64 (x + y)%float.
Proof.
  intros [s E] [t F]. unfold zero64. rewrite add_spec, E, F. unfold SF64add. destruct s, t; cbn; eauto.
Qed.

Lemma zero64_sub x y : zero64 x -> zero64 y -> zero64 (x - y)%float.
Proof.
  intros [s E] [t F]. unfold zero64. rewrite sub_spec, E, F. unfold SF64sub. destruct s, t; cbn; eauto.
Qed.

Lemma zero64_int x : zero64 x -> py_int x = Ok 0.
Proof. intros [s E]. unfold py_int. rewrite E. reflexivity. Qed.

Lemma zero64_zero : zero64 0%float.
Proof. exists false. reflexivity. Qed.

Lemma _v_zero m1 m2 hue k :
  zero64 m1 -> zero64 m2 -> fin64 k hue -> zero64 (colorsys._v m1 m2 hue).
Proof.
  intros Z1 Z2 Hh. unfold colorsys._v.
  assert (fin64 3 (py_mod1 hue)) as Hm by (eapply py_mod1_fin; exact Hh).
  set (hue' := py_mod1 hue) in *. clearbody hue'.
  destruct (hue' <? colorsys.ONE_SIXTH)%float; [|destruct (hue' <? 0.5)%float;
    [|destruct (hue' <? colorsys.TWO_THIRD)%float]]; try assumption.
  - apply zero64_add; [exact Z1|].
    eapply zero64_mul_l; [|apply fin64_const; reflexivity].
    eapply zero64_mul_l; [|exact Hm]. apply zero64_sub; assumption.
  - apply zero64_add; [exact Z1|].
    eapply zero64_mul_l; [|apply fin64_const; reflexivity].
    eapply zero64_mul_l; [apply zero64_sub; assumption|].
    fin64_tac.
Qed.

(** An HSL value of lightness 0 is black. *)
Lemma HSL_to_rgb_dark h s :
  0 <= h < 360 -> 0 <= s <= 100 ->
  HSL.to_rgb (HSL.mk h s 0) = Ok (RGB.mk 0 0 0).
Proof.
  intros Hh Hs. unfold HSL.to_rgb. cbn [HSL.h HSL.s HSL.l].
  destruct (py_truediv_fin h 360) as (hf & -> & Fh); try lia.
  destruct (py_truediv_fin s 100) as (sf & -> & Fs); try lia.
  rewrite py_truediv_zero by lia. cbn [bind].
  assert (forall z, zero64 z -> py_int (z * 255)%float = Ok 0) as Z255.
  { intros z Hz. apply zero64_int. eapply zero64_mul_l; [exact Hz|].
    apply fin64_const. reflexivity. }
  unfold colorsys.hls_to_rgb. destruct (sf =? 0)%float.
  - rewrite !Z255 by apply zero64_zero. reflexivity.
  - change (0 <=? 0.5)%float with true. cbv iota.
    assert (zero64 (0 * (1 + sf))%float) as Z2
      by (eapply zero64_mul_l; [apply zero64_zero|fin64_tac]).
    assert (zero64 (2 * 0 - 0 * (1 + sf))%float) as Z1.
    { apply zero64_sub; [|exact Z2].
      eapply zero64_mul_r; [apply fin64_const; reflexivity|apply zero64_zero]. }
    rewrite !Z255 by (eapply _v_zero; [exact Z1|exact Z2|fin64_tac]).
    reflexivity.
Qed.

(** An HSL value of saturation 0 is a grey. *)
Lemma HSL_to_rgb_grey h l :
  0 <= h < 360 -> 0 <= l <= 100 ->
  exists g, 0 <= g <= 255 /\ HSL.to_rgb (HSL.mk h 0 l) = Ok (RGB.mk g g g).
Proof.
  intros Hh Hl. unfold HSL.to_rgb. cbn [HSL.h HSL.s HSL.l].
  destruct (py_truediv_fin h 360) as (hf & -> & Fh); try lia.
  destruct (py_truediv_fin l 100) as (lf & -> & Fl); try lia.
  rewrite py_truediv_zero by lia. cbn [bind].
  unfold colorsys.hls_to_rgb. change (0 =? 0)%float with true. cbv iota.
  assert (exists z, py_int (lf * 255)%float = Ok z) as [z ->]
    by (eapply py_int_fin; fin64_tac).
  cbn [bind]. exists (clamp 0 255 z). split; [apply clamp_range; lia|reflexivity].
Qed.

Lemma greys_checked : allb 256 grey_check = true.
Proof. vm_compute. reflexivity. Qed.

(** ** [RGB.to_hsv] returns on every valid value *)

Lemma sf_units_nonneg f : 0 <= sf_units f.
Proof. destruct f as [| | |[|] m e]; cbn [sf_units]; lia. Qed.

Lemma max3_units k r g b :
  nonneg64 k r -> nonneg64 k g -> nonneg64 k b ->
  sf_units (Prim2SF (py_max3 r g b))
  = Z.max (Z.max (sf_units (Prim2SF r)) (sf_units (Prim2SF g))) (sf_units (Prim2SF b)).
Proof.
  intros Hr Hg Hb. unfold py_max3.
  destruct (r <? g)%float eqn:L1; rewrite (ltb_units k k) in L1 by assumption;
    (destruct (_ <? b)%float eqn:L2; rewrite (ltb_units k k) in L2 by assumption);
    rewrite ?Z.ltb_lt, ?Z.ltb_ge in *; lia.
Qed.

Lemma min3_units k r g b :
  nonneg64 k r -> nonneg64 k g -> nonneg64 k b ->
  sf_units (Prim2SF (py_min3 r g b))
  = Z.min (Z.min (sf_units (Prim2SF r)) (sf_units (Prim2SF g))) (sf_units (Prim2SF b)).
Proof.
  intros Hr Hg Hb. unfold py_min3.
  destruct (g <? r)%float eqn:L1; rewrite (ltb_units k k) in L1 by assumption;
    (destruct (b <? _)%float eqn:L2; rewrite (ltb_units k k) in L2 by assumption);
    rewrite ?Z.ltb_lt, ?Z.ltb_ge in *; lia.
Qed.

(** When the channels are not all equal, the greatest is not zero. *)
Lemma max3_nonzero k r g b :
  nonneg64 k r -> nonneg64 k g -> nonneg64 k b ->
  (py_min3 r g b =? py_max3 r g b)%float = false ->
  (py_max3 r g b =? 0)%float = false.
Proof.
  intros Hr Hg Hb E.
  assert (nonneg64 k (py_max3 r g b)) as Hmax
    by (destruct (py_max3_cases r g b) as [-> | [-> | ->]]; assumption).
  assert (nonneg64 k (py_min3 r g b)) as Hmin
    by (destruct (py_min3_cases r g b) as [-> | [-> | ->]]; assumption).
  assert (nonneg64 k 0%float) as H0 by exact I.
  rewrite (eqb_units k k) in E by assumption.
  rewrite (eqb_units k k) by assumption.
  rewrite (max3_units k), (min3_units k) in * by assumption.
  change (sf_units (Prim2SF 0)) with 0.
  pose proof (sf_units_nonneg (Prim2SF r)). pose proof (sf_units_nonneg (Prim2SF g)).
  pose proof (sf_units_nonneg (Prim2SF b)).
  apply Z.eqb_neq in E. apply Z.eqb_neq. lia.
Qed.

Lemma channels_lo_checked : forallb channel_lo_check channel_floats = true.
Proof. vm_compute. reflexivity. Qed.

Lemma channel_lo a :
  In a channel_floats -> (a =? 0)%float = false -> lo64 (-8) a.
Proof.
  intros Ia Nz. pose proof channels_lo_checked as C. rewrite forallb_forall in C.
  specialize (C a Ia). unfold channel_lo_check in C. rewrite Nz in C. cbn [orb] in C.
  apply andb_true_iff in C. destruct C as [C1 C2].
  apply (lo64_of_leb _ 0.001953125%float (-61)); [reflexivity|lia|exact C1|exact C2].
Qed.

Lemma channel_float_nonneg k :
  0 <= k <= 255 ->
  exists f, py_truediv k 255 = Ok f /\ In f channel_floats /\ fin64 2 f /\ nonneg64 2 f.
Proof.
  intros Hk. destruct (channel_float_spec k Hk) as (f & E & I1 & F).
  destruct (py_truediv_nonneg k 255) as (f' & E' & N); try lia.
  rewrite E in E'. injection E' as <-. eauto.
Qed.

Lemma rgb_to_hsv_total r g b :
  In r channel_floats -> In g channel_floats -> In b channel_floats ->
  nonneg64 2 r -> nonneg64 2 g -> nonneg64 2 b ->
  exists h s v, colorsys_rgb_to_hsv r g b = Ok (h, s, v) /\
    fin64 3 h /\ fin64 16 s /\ fin64 2 v.
Proof.
  intros Ir Ig Ib Nr Ng Nb. unfold colorsys_rgb_to_hsv.
  pose proof (nonneg64_fin _ _ Nr) as Fr. pose proof (nonneg64_fin _ _ Ng) as Fg.
  pose proof (nonneg64_fin _ _ Nb) as Fb.
  pose proof (max3_nonzero 2 r g b Nr Ng Nb) as Nz.
  assert (In (py_max3 r g b) channel_floats /\ fin64 2 (py_max3 r g b)) as [Imax Fmax]
    by (destruct (py_max3_cases r g b) as [-> | [-> | ->]]; auto).
  assert (In (py_min3 r g b) channel_floats /\ fin64 2 (py_min3 r g b)) as [Imin Fmin]
    by (destruct (py_min3_cases r g b) as [-> | [-> | ->]]; auto).
  set (maxc := py_max3 r g b) in *. set (minc := py_min3 r g b) in *.
  clearbody maxc minc.
  pose proof (pair_ok_spec maxc minc Imax Imin) as P. unfold pair_ok in P. cbv zeta in P.
  apply andb_true_iff in P. destruct P as [_ P].
  destruct (minc =? maxc)%float.
  - exists 0%float, 0%float, maxc. split; [reflexivity|]. split; [exact I|]. split; [exact I|exact Fmax].
  - specialize (Nz eq_refl). cbn [orb] in P.
    apply andb_true_iff in P. destruct P as [P _].
    apply andb_true_iff in P. destruct P as [P Pf].
    apply andb_true_iff in P. destruct P as [Pn Plo].
    apply negb_true_iff in Pn.
    assert (lo64 (-8) (maxc - minc)%float) as Lo
      by (apply (lo64_of_leb _ 0.001953125%float (-61)); [reflexivity|lia|exact Plo|exact Pf]).
    pose proof (channel_lo maxc Imax Nz) as Lm.
    rewrite (py_fdiv_ok _ maxc) by exact Nz. cbn [bind].
    rewrite !py_fdiv_ok by exact Pn. cbn [bind].
    eexists _, _, maxc. split; [reflexivity|]. split; [|split; [|exact Fmax]].
    + pose proof lo64_six as L6.
      destruct (r =? maxc)%float; [|destruct (g =? maxc)%float];
        (eapply py_mod1_fin; fin64_tac).
    + eapply fin64_weaken; [fin64_tac|lia].
Qed.

Lemma HSV_new_valid h s v : HSV.valid (HSV.new h s v) = true.
Proof.
  unfold HSV.valid, HSV.new. cbn [HSV.h HSV.s HSV.v].
  pose proof (Z.mod_pos_bound h 360 ltac:(lia)).
  pose proof (clamp_range 0 100 s). pose proof (clamp_range 0 100 v).
  rewrite !andb_true_iff, !Z.leb_le, Z.ltb_lt. lia.
Qed.

Lemma HSV_valid_fields c :
  HSV.valid c = true ->
  0 <= HSV.h c < 360 /\ 0 <= HSV.s c <= 100 /\ 0 <= HSV.v c <= 100.
Proof. unfold HSV.valid. rewrite !andb_true_iff, !Z.leb_le, Z.ltb_lt. lia. Qed.

Lemma RGB_to_hsv_total c :
  RGB.valid c = true -> exists v, RGB_to_hsv c = Ok v /\ HSV.valid v = true.
Proof.
  intros V. apply valid_channels in V. unfold RGB_to_hsv.
  destruct (channel_float_nonneg (RGB.r c)) as (r & -> & Ir & Fr & Nr); try lia.
  destruct (channel_float_nonneg (RGB.g c)) as (g & -> & Ig & Fg & Ng); try lia.
  destruct (channel_float_nonneg (RGB.b c)) as (b & -> & Ib & Fb & Nb); try lia.
  cbn [bind].
  destruct (rgb_to_hsv_total r g b Ir Ig Ib Nr Ng Nb) as (h & s & v & -> & Fh & Fs & Fv).
  cbn [bind].
  assert (exists z, py_int (h * 360)%float = Ok z) as [hi ->]
    by (eapply py_int_fin; fin64_tac).
  assert (exists z, py_int (s * 100)%float = Ok z) as [si ->]
    by (eapply py_int_fin; fin64_tac).
  assert (exists z, py_int (v * 100)%float = Ok z) as [vi ->]
    by (eapply py_int_fin; fin64_tac).
  cbn [bind]. eexists. split; [reflexivity|apply HSV_new_valid].
Qed.

(** ** [HSV.to_rgb] returns on every valid value *)

Lemma py_int_bound k x z :
  fin64 k x -> py_int x = Ok z -> Zdigits2 (Z.abs z) <= Z.max k 0.
Proof.
  unfold fin64, py_int. destruct (Prim2SF x) as [s|s| |s m e]; cbn [sf_fin]; try tauto.
  - intros _ H. injection H as <-. cbn. lia.
  - intros [B D] H. injection H as <-.
    assert (forall y, 0 <= y -> Z.abs (cond_Zopp s y) = y) as A
      by (intros y Hy; destruct s; cbn [cond_Zopp]; zfix; lia).
    destruct e as [|p|p].
    + rewrite A by lia. lia.
    + rewrite A by (apply Z.shiftl_nonneg; lia).
      rewrite Z.shiftl_mul_pow2 by lia. rewrite Zdigits2_mul_pow2 by lia. lia.
    + rewrite A by (apply Z.shiftr_nonneg; lia).
      rewrite Zdigits2_shiftr by lia. lia.
Qed.

Lemma py_float_fin k z :
  Zdigits2 (Z.abs z) <= k -> -1074 <= k <= 1023 ->
  exists f, py_float z = Ok f /\ fin64 (k + 1) f.
Proof.
  intros Hz Hk. unfold py_float.
  pose proof (binary_normalize_fin z 0 false k ltac:(lia) Hk) as F.
  destruct (binary_normalize prec emax z 0 false) as [s|s| |s m e] eqn:E;
    cbn [sf_fin] in F; try tauto.
  - eexists. split; [reflexivity|]. apply SF2Prim_fin. exact I.
  - eexists. split; [reflexivity|]. apply SF2Prim_fin. exact F.
Qed.

Lemma hsv_to_rgb_total h s v :
  fin64 2 h -> fin64 2 s -> fin64 2 v ->
  exists r g b, colorsys_hsv_to_rgb h s v = Ok (Some (r, g, b)) /\
    fin64 28 r /\ fin64 28 g /\ fin64 28 b.
Proof.
  intros Fh Fs Fv. unfold colorsys_hsv_to_rgb.
  assert (fin64 28 v) as Fv' by (eapply fin64_weaken; [exact Fv|lia]).
  destruct (s =? 0)%float; [eauto 8|]. clear Fv'.
  assert (fin64 15 (h * 6)%float) as F6 by (eapply fin64_weaken; [fin64_tac|lia]).
  destruct (py_int_fin _ _ F6) as [i Ei]. rewrite Ei. cbn [bind].
  pose proof (py_int_bound _ _ _ F6 Ei) as Bi.
  destruct (py_float_fin 15 i ltac:(lia) ltac:(lia)) as (fi & -> & Ffi). cbn [bind].
  change (fin64 16 fi) in Ffi.
  set (f := (h * 6 - fi)%float).
  assert (fin64 18 f) as Ff by (unfold f; eapply fin64_weaken; [fin64_tac|lia]).
  clearbody f.
  assert (fin64 28 (v * (1 - s))%float) as Fp by (eapply fin64_weaken; [fin64_tac|lia]).
  assert (fin64 28 (v * (1 - s * f))%float) as Fq by (eapply fin64_weaken; [fin64_tac|lia]).
  assert (fin64 28 (v * (1 - s * (1 - f)))%float) as Ft
    by (eapply fin64_weaken; [fin64_tac|lia]).
  assert (fin64 28 v) as Fv' by (eapply fin64_weaken; [exact Fv|lia]).
  pose proof (Z.mod_pos_bound i 6 ltac:(lia)) as Hm.
  destruct (Z.eqb_spec (i mod 6) 0); [eauto 8|].
  destruct (Z.eqb_spec (i mod 6) 1); [eauto 8|].
  destruct (Z.eqb_spec (i mod 6) 2); [eauto 8|].
  destruct (Z.eqb_spec (i mod 6) 3); [eauto 8|].
  destruct (Z.eqb_spec (i mod 6) 4); [eauto 8|].
  destruct (Z.eqb_spec (i mod 6) 5); [eauto 8|]. lia.
Qed.

Lemma HSV_to_rgb_total c :
  HSV.valid c = true -> exists v, HSV.to_rgb c = Ok v /\ RGB.valid v = true.
Proof.
  intros V. apply HSV_valid_fields in V. unfold HSV.to_rgb.
  destruct (py_truediv_fin (HSV.h c) 360) as (h & -> & Hh); try lia.
  destruct (py_truediv_fin (HSV.s c) 100) as (s & -> & Hs); try lia.
  destruct (py_truediv_fin (HSV.v c) 100) as (v & -> & Hv); try lia.
  cbn [bind].
  destruct (hsv_to_rgb_total h s v Hh Hs Hv) as (r & g & b & -> & Fr & Fg & Fb).
  cbn [bind].
  assert (exists z, py_int (r * 255)%float = Ok z) as [ri ->]
    by (eapply py_int_fin; fin64_tac).
  assert (exists z, py_int (g * 255)%float = Ok z) as [gi ->]
    by (eapply py_int_fin; fin64_tac).
  assert (exists z, py_int (b * 255)%float = Ok z) as [bi ->]
    by (eapply py_int_fin; fin64_tac).
  cbn [bind]. eexists. split; [reflexivity|apply RGB_new_valid].
Qed.

Lemma HSL_new_mod h s l : HSL.new (h mod 360) s l = HSL.new h s l.
Proof. unfold HSL.new. rewrite Z.mod_mod by lia. reflexivity. Qed.

Lemma to_hex_shape c :
  RGB.valid c = true ->
  exists d,
    RGB.to_hex c = String "#" d /\ String.length d = 6%nat /\
    all_chars is_lower_hex d = true.
Proof.
  intros V. destruct (to_hex_digits c V) as [E L].
  eexists. split; [exact E|]. split; [reflexivity|exact L].
Qed.

(** ** [hsl] strings *)

Lemma match_hsl_complete s g1 g2 g3 :
  hsl_shape s g1 g2 g3 -> Color.match_hsl s = Some (g1, g2, g3).
Proof.
  intros (a & w1 & p & w2 & rest & -> & Ha & Hp & N1 & D1 & N2 & D2 & N3 & D3 & W1 & W2 & R).
  unfold Color.match_hsl. rewrite lit_app.
  assert (lit "(" (opt_char "a" (a ++ "(" ++ g1 ++ "," ++ w1 ++ g2 ++ p ++ "," ++ w2 ++ g3 ++ rest))
          = Some (g1 ++ "," ++ w1 ++ g2 ++ p ++ "," ++ w2 ++ g3 ++ rest)%string) as ->
    by (destruct Ha as [-> | ->]; reflexivity).
  rewrite digits1_app by (try assumption; reflexivity).
  rewrite (lit_app ","). unfold spaces.
  rewrite lstrip_app by (try assumption; apply nonempty_digits_head; assumption).
  rewrite digits1_app by (try assumption; destruct Hp as [-> | ->]; reflexivity).
  assert (lit "," (opt_char "%" (p ++ "," ++ w2 ++ g3 ++ rest))
          = Some (w2 ++ g3 ++ rest)%string) as ->
    by (destruct Hp as [-> | ->]; reflexivity).
  rewrite lstrip_app by (try assumption; apply nonempty_digits_head; assumption).
  rewrite digits1_app by assumption. reflexivity.
Qed.

Lemma opt_char_spec c s :
  exists p, (p = EmptyString \/ p = String c EmptyString) /\ s = (p ++ opt_char c s)%string.
Proof.
  unfold opt_char. destruct s as [|d s']; [exists EmptyString; auto|].
  destruct (Ascii.eqb c d) eqn:Ed.
  - apply Ascii.eqb_eq in Ed. subst d. exists (String c EmptyString). auto.
  - exists EmptyString. auto.
Qed.

Lemma match_hsl_sound s g1 g2 g3 :
  Color.match_hsl s = Some (g1, g2, g3) -> hsl_shape s g1 g2 g3.
Proof.
  unfold Color.match_hsl. intros H.
  destruct (lit "hsl" s) as [s1|] eqn:E1; [|discriminate].
  destruct (lit "(" (opt_char "a" s1)) as [s2|] eqn:E2; [|discriminate].
  destruct (digits1 s2) as [[h1 s3]|] eqn:E3; [|discriminate].
  destruct (lit "," s3) as [s4|] eqn:E4; [|discriminate].
  destruct (digits1 (spaces s4)) as [[h2 s5]|] eqn:E5; [|discriminate].
  destruct (lit "," (opt_char "%" s5)) as [s6|] eqn:E6; [|discriminate].
  destruct (digits1 (spaces s6)) as [[h3 s7]|] eqn:E7; [|discriminate].
  injection H as <- <- <-.
  apply lit_spec in E1, E2, E4, E6.
  apply digits1_spec in E3, E5, E7.
  destruct E3 as (-> & N1 & D1 & _), E5 as (E5 & N2 & D2 & _), E7 as (E7 & N3 & D3 & R).
  destruct (lstrip_spec py_isspace s4) as (w1 & Ew1 & W1).
  destruct (lstrip_spec py_isspace s6) as (w2 & Ew2 & W2).
  unfold spaces in E5, E7. rewrite E5 in Ew1. rewrite E7 in Ew2.
  destruct (opt_char_spec "a" s1) as (a & Ha & Ea).
  destruct (opt_char_spec "%" s5) as (p & Hp & Ep).
  exists a, w1, p, w2, s7. subst s. rewrite Ea, E2, E4, Ew1, Ep, E6, Ew2.
  repeat split; assumption.
Qed.

(** ** The blend at ratio 0.5 *)

Lemma half_blends_checked : rows_ok int_floats int_floats half_floats = true.
Proof. vm_compute. reflexivity. Qed.

Lemma halves_checked : allb 511 half_check = true.
Proof. vm_compute. reflexivity. Qed.

Lemma row_ok_spec fx ys hs j fy :
  row_ok fx ys hs = true -> nth_error ys j = Some fy ->
  nth_error hs j = Some (fx * (1 - 0.5) + fy * 0.5)%float.
Proof.
  revert hs j. induction ys as [|y ys IH]; intros hs j H Hj.
  - destruct j; discriminate.
  - destruct hs as [|h hs]; [discriminate|]. cbn [row_ok] in H.
    apply andb_true_iff in H. destruct H as [H1 H2].
    destruct j as [|j]; cbn [nth_error] in *.
    + injection Hj as <-. apply FloatAxioms.Leibniz.eqb_spec in H1. rewrite H1. reflexivity.
    + apply IH; assumption.
Qed.

Lemma rows_ok_spec xs ys hs i j fx fy :
  rows_ok xs ys hs = true -> nth_error xs i = Some fx -> nth_error ys j = Some fy ->
  nth_error hs (i + j) = Some (fx * (1 - 0.5) + fy * 0.5)%float.
Proof.
  revert hs i. induction xs as [|x xs IH]; intros hs i H Hi Hj.
  - destruct i; discriminate.
  - destruct hs as [|h hs]; [discriminate|]. cbn [rows_ok] in H.
    apply andb_true_iff in H. destruct H as [H1 H2].
    destruct i as [|i]; cbn [nth_error] in Hi.
    + injection Hi as <-. cbn [Nat.add]. eapply row_ok_spec; eassumption.
    + cbn [Nat.add nth_error]. apply IH; assumption.
Qed.

Lemma blend_channel_half x y :
  0 <= x <= 255 -> 0 <= y <= 255 ->
  Color.blend_channel x y (PyFloat 0.5) = Ok ((x + y) / 2).
Proof.
  intros Hx Hy.
  destruct (py_float_channel x Hx) as (fx & Ex & _).
  destruct (py_float_channel y Hy) as (fy & Ey & _).
  assert (forall k, 0 <= k <= 255 -> nth_error int_floats (Z.to_nat k) = Some (int_float k)) as N.
  { intros k Hk. unfold int_floats. rewrite nth_error_map, range_nth by lia. reflexivity. }
  pose proof (rows_ok_spec _ _ _ _ _ _ _ half_blends_checked (N x Hx) (N y Hy)) as R.
  unfold half_floats in R. rewrite nth_error_map in R.
  replace (Z.to_nat x + Z.to_nat y)%nat with (Z.to_nat (x + y)) in R by lia.
  rewrite range_nth in R by lia. cbn [option_map] in R. injection R as R.
  pose proof (allb_spec 511 _ halves_checked (x + y) ltac:(lia)) as C.
  unfold half_check in C. rewrite R in C. unfold int_float in C. rewrite Ex, Ey in C.
  unfold Color.blend_channel, num_sub, num_mul, num_add, num_binop, to_float.
  change (py_float 1) with (Ok 1%float). cbn [bind].
  rewrite Ex, Ey. cbn [bind num_int].
  destruct (py_int _) as [z|]; [|discriminate]. cbn [result_Z_eqb] in C.
  apply Z.eqb_eq in C. rewrite C. reflexivity.
Qed.

(** ** Greys through HSL and HSV and back *)

Lemma grey_roundtrips_checked : allb 256 grey_roundtrip_check = true.
Proof. vm_compute. reflexivity. Qed.

Lemma grey_back_spec through k :
  grey_back through k = true ->
  exists g, through = Ok (RGB.mk g g g) /\ k - 3 <= g <= k.
Proof.
  unfold grey_back. destruct through as [[r g b]|]; [|discriminate].
  cbn [RGB.r RGB.g RGB.b]. rewrite !andb_true_iff, !Z.leb_le, !Z.eqb_eq.
  intros [[[H1 H2] ->] ->]. exists r. split; [reflexivity|lia].
Qed.

(** Rounding to 53 bits moves an integer by at most [2^-53] of itself. *)
Lemma rnd_value_err S : 0 <= S -> 2 ^ 53 * Z.abs (rnd_value S - S) <= S.
Proof.
  intros HS. unfold rnd_value, rnd_shift. cbv zeta.
  pose proof (Zdigits2_nonneg S) as Dn.
  destruct (Z.max_spec (Zdigits2 S - 53) 0) as [[Hd ->] | [Hd ->]].
  - rewrite Z.pow_0_r, Z.div_1_r, Z.mod_1_r. cbn [loc_of_rem Z.eqb round_nearest_even].
    replace (S * 1 - S) with 0 by lia. cbn. exact HS.
  - set (n := Zdigits2 S - 53) in *.
    destruct (Z.eq_dec n 0) as [E0 | N0].
    + rewrite E0, Z.pow_0_r, Z.div_1_r, Z.mod_1_r. cbn [loc_of_rem Z.eqb round_nearest_even].
      replace (S * 1 - S) with 0 by lia. cbn. exact HS.
    + assert (0 < S) as PS.
      { destruct (Z.eq_dec S 0) as [Z | NZ]; [|lia].
        unfold n in *. rewrite Z in *. change (Zdigits2 0) with 0 in *. lia. }
      assert (2 ^ (Zdigits2 S - 1) <= S) as LS by (apply Zdigits2_ge_iff; lia).
      replace (Zdigits2 S - 1) with (52 + n) in LS by (unfold n; lia).
      rewrite Z.pow_add_r in LS by lia.
      pose proof (pow2_pos n ltac:(lia)) as Pn.
      pose proof (Z.div_mod S (2 ^ n) ltac:(lia)) as DM.
      pose proof (Z.mod_pos_bound S (2 ^ n) Pn) as Br.
      unfold loc_of_rem.
      set (q := S / 2 ^ n) in *. set (r := S mod 2 ^ n) in *. set (P := 2 ^ n) in *.
      clearbody q r P. change (2 ^ 52) with 4503599627370496 in LS.
      change (2 ^ 53) with 9007199254740992.
      destruct (Z.eqb_spec r 0) as [-> | Nr]; cbn [round_nearest_even].
      * replace (q * P - S) with 0 by lia. cbn. lia.
      * destruct (Z.compare_spec (2 * r) P) as [C | C | C]; cbn [round_nearest_even];
          try destruct (Z.even q); lia.
Qed.

(** Trailing zero bits of the integer being rounded do not matter. *)
Lemma binary_round_aux_scale M e j :
  0 < M -> 0 <= j -> e <= fexp64 (Zdigits2 M + e) ->
  binary_round_aux prec emax false (M * 2 ^ j) (e - j) loc_Exact
  = binary_round_aux prec emax false M e loc_Exact.
Proof.
  intros HM Hj He. unfold binary_round_aux.
  assert (shr_fexp prec emax (M * 2 ^ j) (e - j) loc_Exact
          = shr_fexp prec emax M e loc_Exact) as ->; [|reflexivity].
  pose proof (pow2_pos j Hj) as Pj.
  unfold shr_fexp. rewrite Zdigits2_mul_pow2 by lia.
  replace (Zdigits2 M + j + (e - j)) with (Zdigits2 M + e) by lia.
  set (n := fexp64 (Zdigits2 M + e) - e).
  assert (0 <= n) as Hn by (unfold n; lia).
  replace (fexp64 (Zdigits2 M + e) - (e - j)) with (n + j) by (unfold n; lia).
  rewrite !shr_loc by lia.
  pose proof (pow2_pos n Hn) as Pn.
  rewrite (Z.pow_add_r 2 n j) by lia.
  rewrite Z.div_mul_cancel_r by lia.
  rewrite Z.mul_mod_distr_r by lia.
  rewrite loc_of_rem_scale by lia.
  f_equal.
  destruct (Z.ltb_spec 0 (n + j)), (Z.ltb_spec 0 n); lia.
Qed.

(** What [int(x)] gives on a non-negative float, from its units. *)
Lemma py_int_units k x :
  nonneg64 k x -> py_int x = Ok (sf_units (Prim2SF x) / 2 ^ 1074).
Proof.
  unfold nonneg64, py_int.
  destruct (Prim2SF x) as [s|s| |[|] m e]; cbn [sf_nonneg sf_units]; try tauto.
  intros [B _]. apply bounded_digits in B. destruct B as (_ & B & _).
  cbn [cond_Zopp]. f_equal. destruct e as [|p|p].
    + change (0 + 1074) with 1074. rewrite Z.div_mul by (apply Z.pow_nonzero; lia).
      reflexivity.
    + rewrite Z.shiftl_mul_pow2 by lia.
      rewrite Z.pow_add_r, Z.mul_assoc by lia.
      rewrite Z.div_mul by (apply Z.pow_nonzero; lia). reflexivity.
    + rewrite Z.shiftr_div_pow2 by lia.
      replace (2 ^ 1074) with (2 ^ Zpos p * 2 ^ (Zneg p + 1074))
        by (rewrite <- Z.pow_add_r by lia; f_equal; lia).
      rewrite Z.div_mul_cancel_r; [reflexivity| |]; apply Z.pow_nonzero; lia.
Qed.

(** The sum of two non-negative floats, in units. *)
Lemma add_units a b x y :
  nonneg64 a x -> nonneg64 b y -> -1074 <= a <= 900 -> -1074 <= b <= 900 ->
  nonneg64 (Z.max a b + 2) (x + y)%float /\
  sf_units (Prim2SF (x + y)%float)
  = rnd_value (sf_units (Prim2SF x) + sf_units (Prim2SF y)).
Proof.
  intros Hx Hy Ha Hb.
  assert (nonneg64 900 x) as Hx' by (apply (nonneg64_weaken a); [assumption|lia]).
  assert (nonneg64 900 y) as Hy' by (apply (nonneg64_weaken b); [assumption|lia]).
  split.
  { apply nonneg64_add; try assumption. lia. }
  unfold nonneg64 in Hx', Hy'. rewrite add_spec. unfold SF64add.
  destruct (Prim2SF y) as [sy|sy| |[|] my ey] eqn:Ey; cbn [sf_nonneg] in Hy'; try tauto.
  - cbn [sf_units]. rewrite Z.add_0_r.
    destruct (Prim2SF x) as [sx|sx| |[|] mx ex] eqn:Ex; cbn [sf_nonneg] in Hx'; try tauto.
    + cbn [SFadd]. destruct sx, sy; reflexivity.
    + cbn [SFadd sf_units]. symmetry. apply rnd_value_canonical. tauto.
  - destruct (SFadd_value (Prim2SF x) my ey Hx' Hy') as (m3 & e3 & E & B & V).
    rewrite E. cbn [sf_units]. exact V.
Qed.

Lemma channels_exact_checked : allb 256 channel_exact_check = true.
Proof. vm_compute. reflexivity. Qed.

Lemma rnd_value_zero : rnd_value 0 = 0.
Proof. reflexivity. Qed.

(** A channel value times a non-negative float, in units. *)
Lemma mul_channel_units x k t :
  0 <= x <= 255 -> nonneg64 k t -> -1074 <= k <= 800 ->
  nonneg64 (k + 9) (int_float x * t)%float /\
  sf_units (Prim2SF (int_float x * t)%float) = rnd_value (x * sf_units (Prim2SF t)).
Proof.
  intros Hx Ht Hk.
  pose proof (allb_spec 256 _ channels_exact_checked x ltac:(lia)) as C.
  unfold channel_exact_check in C.
  assert (nonneg64 8 (int_float x)) as Fx.
  { unfold nonneg64. destruct (Prim2SF (int_float x)) as [s|s| |[|] m e];
      try discriminate C; cbn [sf_nonneg]; [exact I|].
    apply andb_true_iff in C. destruct C as [C C4].
    apply andb_true_iff in C. destruct C as [C C3].
    apply andb_true_iff in C. destruct C as [C1 C2].
    split; [exact C1|]. apply Z.leb_le. exact C4. }
  split.
  { replace (k + 9) with (8 + k + 1) by lia. apply nonneg64_mul; try assumption. lia. }
  unfold nonneg64 in Ht. rewrite mul_spec. unfold SF64mul.
  destruct (Prim2SF (int_float x)) as [s|s| |[|] m e]; try discriminate C.
  - apply Z.eqb_eq in C. subst x. rewrite Z.mul_0_l.
    destruct (Prim2SF t) as [st|st| |[|] mt et]; cbn [sf_nonneg] in Ht; try tauto;
      reflexivity.
  - apply andb_true_iff in C. destruct C as [C _].
    apply andb_true_iff in C. destruct C as [C C3].
    apply andb_true_iff in C. destruct C as [_ C2].
    apply Z.leb_le in C2. apply Z.eqb_eq in C3.
    destruct (Prim2SF t) as [st|st| |[|] mt et]; cbn [sf_nonneg] in Ht; try tauto.
    + cbn [SFmul sf_units xorb]. rewrite Z.mul_0_r. reflexivity.
    + destruct Ht as [Bt Dt]. cbn [SFmul xorb sf_units].
      pose proof (bounded_digits _ _ Bt) as (Lt1 & Lt2 & _).
      apply bounded_iff in Bt. destruct Bt as [Ct _]. rewrite fexp64_eq in Ct.
      pose proof (pow2_pos (- e) ltac:(lia)) as Pe.
      assert (0 < x) as Px by nia.
      assert (0 < x * Zpos mt) as Pm by nia.
      pose proof (Zdigits2_mono (Zpos mt) (x * Zpos mt) ltac:(nia)) as Dm.
      pose proof (Zdigits2_mul_le x (Zpos mt) Px ltac:(lia)) as Du.
      assert (Zdigits2 x <= 8) as Dx by (apply Zdigits2_le_iff; cbn; lia).
      replace (Zpos (m * mt)) with (x * Zpos mt * 2 ^ (- e)) by (rewrite Pos2Z.inj_mul; nia).
      replace (e + et) with (et - - e) by lia.
      rewrite binary_round_aux_scale by (rewrite ?fexp64_eq; lia).
      destruct (binary_round_aux_value (x * Zpos mt) et) as (m3 & e3 & E & B & V);
        rewrite ?fexp64_eq; try lia.
      rewrite E. cbn [sf_units]. rewrite V. f_equal. lia.
Qed.

(** The difference of two non-negative floats, the greater first, in units. *)
Lemma sub_units a b x y :
  nonneg64 a x -> nonneg64 b y -> -1074 <= a <= 900 -> -1074 <= b <= 900 ->
  sf_units (Prim2SF y) <= sf_units (Prim2SF x) ->
  nonneg64 (Z.max a b + 2) (x - y)%float /\
  sf_units (Prim2SF (x - y)%float)
  = rnd_value (sf_units (Prim2SF x) - sf_units (Prim2SF y)).
Proof.
  intros Hx Hy Ha Hb Hle.
  assert (sf_fin (Z.max a b + 2) (Prim2SF (x - y)%float)) as F.
  { rewrite sub_spec.
    apply SFsub_fin; [apply sf_nonneg_fin; exact Hx|apply sf_nonneg_fin; exact Hy|lia]. }
  unfold nonneg64 in *. rewrite sub_spec in *. unfold SF64sub in *.
  destruct (Prim2SF x) as [sx|sx| |[|] mx ex], (Prim2SF y) as [sy|sy| |[|] my ey];
    cbn [sf_nonneg] in Hx, Hy; try tauto; cbn [sf_units] in Hle.
  - cbn [SFsub]. destruct sx, sy; split; try exact I; reflexivity.
  - exfalso. destruct Hy as [By _]. apply bounded_digits in By.
    pose proof (pow2_pos (ey + 1074) ltac:(lia)). clear - Hle H. nia.
  - cbn [SFsub sf_units]. split; [cbn [sf_nonneg]; split; [tauto|lia]|].
    rewrite Z.sub_0_r. symmetry.
    apply rnd_value_canonical. tauto.
  - destruct Hx as [Bx Hx], Hy as [By Hy]. cbn [SFsub sf_units cond_Zopp] in *. zfix.
    pose proof (bounded_digits _ _ Bx) as (_ & Lx & _).
    pose proof (bounded_digits _ _ By) as (_ & Ly & _).
    pose proof (aligned_sum_digits false mx ex false my ey Z.sub ltac:(intros; lia)) as D.
    cbv zeta in D. cbn [cond_Zopp] in D.
    pose proof (shl_align_spec mx ex (Z.min ex ey)) as Sx.
    pose proof (shl_align_spec my ey (Z.min ex ey)) as Sy.
    destruct (shl_align mx ex (Z.min ex ey)) as [mx' ex'].
    destruct (shl_align my ey (Z.min ex ey)) as [my' ey'].
    destruct Sx as [Ex Mx], Sy as [Ey My]. cbn [fst] in *.
    assert (sf_units (S754_finite false mx ex) - sf_units (S754_finite false my ey)
            = (Zpos mx' - Zpos my') * 2 ^ (Z.min ex ey + 1074)) as EU.
    { cbn [sf_units]. rewrite Z.mul_sub_distr_r, Mx, My.
      rewrite <- !Z.mul_assoc, <- !Z.pow_add_r by lia.
      f_equal; do 2 f_equal; lia. }
    cbn [sf_units] in EU. rewrite EU.
    pose proof (pow2_pos (Z.min ex ey + 1074) ltac:(lia)) as Pz.
    assert (0 <= Zpos mx' - Zpos my') as Hd by (clear - Hle Pz EU; nia).
    destruct (Zpos mx' - Zpos my') as [|d|d] eqn:Ed; try lia.
    + cbn [binary_normalize sf_units sf_nonneg]. split; [exact I|reflexivity].
    + cbn [binary_normalize] in *. rewrite Z.abs_eq in D by lia.
      destruct (binary_round_value d (Z.min ex ey)) as (m3 & e3 & E & B & V); try lia.
      rewrite E in *. cbn [sf_units sf_nonneg sf_fin] in *. split; [tauto|exact V].
Qed.

(** Rounding with any location goes up by less than one unit of the last
    place kept. *)
Lemma binary_round_aux_upper M e l :
  0 <= M -> -1074 <= e -> e <= fexp64 (Zdigits2 M + e) -> Zdigits2 M + e <= 1000 ->
  let n := fexp64 (Zdigits2 M + e) - e in
  sf_units (binary_round_aux prec emax false M e l) <= (M / 2 ^ n + 1) * 2 ^ (n + e + 1074).
Proof.
  intros HM He Hc Hk n.
  pose proof (Zdigits2_nonneg M) as Dn.
  assert (M < 2 ^ Zdigits2 M) as UM by (apply Zdigits2_le_iff; lia).
  rewrite fexp64_eq in Hc. unfold n. rewrite fexp64_eq.
  set (e0 := Z.max (Zdigits2 M + e - 53) (-1074)) in *.
  set (n1 := e0 - e). assert (0 <= n1) as Hn1 by (unfold n1; lia).
  replace (n1 + e + 1074) with (e0 + 1074) by (unfold n1; lia).
  pose proof (pow2_pos n1 Hn1) as Pn1.
  pose proof (pow2_pos (e0 + 1074) ltac:(unfold e0; lia)) as Pe0.
  unfold binary_round_aux.
  pose proof (shr_fexp_spec M e l HM) as S1. cbv zeta in S1.
  destruct (shr_fexp prec emax M e l) as [rec1 e1]. destruct S1 as [_ S1].
  rewrite fexp64_eq in S1. fold e0 in S1.
  assert (shr_m rec1 = M / 2 ^ n1 /\ e1 = e0) as [Em1 ->].
  { destruct S1 as [(h1 & _ & h2 & h3) | (h1 & h2 & h3)].
    - assert (n1 = 0) as -> by (unfold n1; lia).
      rewrite Z.pow_0_r, Z.div_1_r. split; [exact h2|lia].
    - rewrite h2, Z.shiftr_div_pow2 by lia. split; [reflexivity|exact h3]. }
  set (m1 := M / 2 ^ n1) in *.
  set (m2 := round_nearest_even (shr_m rec1) (loc_of_shr_record rec1)).
  pose proof (round_nearest_even_bounds (shr_m rec1) (loc_of_shr_record rec1)) as Bm2.
  fold m2 in Bm2. rewrite Em1 in Bm2.
  assert (0 <= m1 < 2 ^ 53) as Bm1.
  { unfold m1. split; [apply Z.div_pos; lia|].
    apply Z.div_lt_upper_bound; [lia|].
    rewrite <- Z.pow_add_r by lia.
    assert (2 ^ Zdigits2 M <= 2 ^ (n1 + 53)) by (apply Z.pow_le_mono_r; unfold n1, e0; lia).
    lia. }
  assert (-1074 < e0 -> 2 ^ 52 <= m1) as Nm1.
  { intros Hn. assert (0 < M) as PM.
    { destruct (Z.eq_dec M 0) as [Z0 | NZ]; [|lia].
      unfold e0 in *. rewrite Z0 in *. change (Zdigits2 0) with 0 in *. lia. }
    pose proof (Zdigits2_pos M PM) as Dp.
    assert (2 ^ (Zdigits2 M - 1) <= M) as LM by (apply Zdigits2_ge_iff; lia).
    apply Z.div_le_lower_bound; [lia|].
    rewrite <- Z.pow_add_r by lia.
    replace (n1 + 52) with (Zdigits2 M - 1) by (unfold n1, e0 in *; lia). lia. }
  assert (e0 <= 947) as He0 by (unfold e0; lia).
  assert (m2 * 2 ^ (e0 + 1074) <= (m1 + 1) * 2 ^ (e0 + 1074)) as Goal'
    by (apply Z.mul_le_mono_nonneg_r; lia).
  clearbody m2 m1. clear Em1 S1 rec1.
  unfold shr_fexp. rewrite fexp64_eq.
  destruct (Z.eq_dec m2 (2 ^ 53)) as [E2 | N2].
  - rewrite E2 in *. change (Zdigits2 (2 ^ 53)) with 54.
    replace (Z.max (54 + e0 - 53) (-1074) - e0) with 1 by (unfold e0; lia).
    rewrite shr_loc by lia.
    change (2 ^ 53 / 2 ^ 1) with 4503599627370496.
    change (loc_of_rem (2 ^ 53 mod 2 ^ 1) 1) with loc_Exact.
    cbn [Z.ltb Z.compare shr_record_of_loc shr_m].
    replace (e0 + 1 <=? emax - prec) with true
      by (symmetry; apply Z.leb_le; change (emax - prec) with 971; lia).
    cbn [sf_units].
    replace (e0 + 1 + 1074) with (1 + (e0 + 1074)) by lia.
    rewrite Z.pow_add_r by lia.
    change (2 ^ 53) with (4503599627370496 * 2 ^ 1) in Goal'. lia.
  - assert (0 <= m2 < 2 ^ 53) as B2 by lia.
    assert (Zdigits2 m2 <= 53) as D2 by (apply Zdigits2_le_iff; lia).
    assert (-1074 < e0 -> 53 <= Zdigits2 m2) as D2'.
    { intros Hn. specialize (Nm1 Hn). apply Zdigits2_ge_iff; lia. }
    pose proof (Zdigits2_nonneg m2) as D2n.
    assert (shr (shr_record_of_loc m2 loc_Exact) e0 (Z.max (Zdigits2 m2 + e0 - 53) (-1074) - e0)
            = (shr_record_of_loc m2 loc_Exact, e0)) as ->.
    { unfold shr. destruct (Z.max (Zdigits2 m2 + e0 - 53) (-1074) - e0) eqn:En;
        try reflexivity. unfold e0 in *. lia. }
    cbn [shr_record_of_loc shr_m].
    destruct m2 as [|p2|p2]; try lia.
    + cbn [sf_units]. lia.
    + replace (e0 <=? emax - prec) with true
        by (symmetry; apply Z.leb_le; change (emax - prec) with 971; lia).
      cbn [sf_units]. exact Goal'.
Qed.

(** The quotient of two positive ints, the smaller first, is at most 1. *)
Lemma SFdiv_le_one pa pb :
  Zpos pa < Zpos pb ->
  sf_units (SFdiv prec emax (S754_finite false pa 0) (S754_finite false pb 0)) <= 2 ^ 1074.
Proof.
  intros Hlt. cbn [SFdiv xorb].
  pose proof (SFdiv_core_spec (Zpos pa) 0 (Zpos pb) 0 ltac:(lia) ltac:(lia)) as S.
  cbv zeta in S.
  pose proof (Zdigits2_mono (Zpos pa) (Zpos pb) ltac:(lia)) as Dm.
  assert (let '(q, e', l) := SFdiv_core_binary prec emax (Zpos pa) 0 (Zpos pb) 0 in
          -1074 <= e' <= 0 /\ q = Zpos pa * 2 ^ (- e') / Zpos pb) as S'.
  { unfold SFdiv_core_binary. zfix.
    set (e' := Z.min (fexp64 (Zdigits2 (Zpos pa) + 0 - (Zdigits2 (Zpos pb) + 0))) (0 - 0)).
    assert (-1074 <= e' <= 0) as He by (unfold e'; rewrite fexp64_eq; lia).
    replace (0 - 0 - e') with (- e') by lia.
    assert (match - e' with Z.pos _ => Z.shiftl (Zpos pa) (- e') | 0 => Zpos pa | Z.neg _ => 0 end
            = Zpos pa * 2 ^ (- e')) as ->.
    { destruct (- e') as [|p|p] eqn:Es; try lia.
      apply Z.shiftl_mul_pow2. lia. }
    rewrite div_eucl_eq. split; [exact He|reflexivity]. }
  destruct (SFdiv_core_binary prec emax (Zpos pa) 0 (Zpos pb) 0) as [[q e'] l].
  destruct S as (Hq & Hc & Hd). destruct S' as (He & Eq).
  pose proof (binary_round_aux_upper q e' l Hq ltac:(lia) Hc ltac:(lia)) as U.
  cbv zeta in U. eapply Z.le_trans; [exact U|]. clear U.
  rewrite fexp64_eq in *.
  pose proof (pow2_pos (- e') ltac:(lia)) as Ps.
  assert (q < 2 ^ (- e')) as Uq.
  { rewrite Eq. apply Z.div_lt_upper_bound; [lia|]. nia. }
  pose proof (Zdigits2_nonneg q) as Dn.
  assert (Zdigits2 q <= - e') as Dq by (apply Zdigits2_le_iff; lia).
  set (n := Z.max (Zdigits2 q + e' - 53) (-1074) - e') in *.
  assert (0 <= n <= - e') as Hn by (unfold n; lia).
  pose proof (pow2_pos n ltac:(lia)) as Pn.
  assert (q / 2 ^ n + 1 <= 2 ^ (- e' - n)) as B.
  { assert (q / 2 ^ n < 2 ^ (- e' - n)); [|lia].
    apply Z.div_lt_upper_bound; [lia|].
    rewrite <- Z.pow_add_r by lia. replace (n + (- e' - n)) with (- e') by lia. exact Uq. }
  replace (2 ^ 1074) with (2 ^ (- e' - n) * 2 ^ (n + e' + 1074))
    by (rewrite <- Z.pow_add_r by lia; f_equal; lia).
  apply Z.mul_le_mono_nonneg_r; [|exact B].
  apply Z.lt_le_incl, pow2_pos. lia.
Qed.

Lemma py_truediv_le_one a b :
  0 <= a <= b -> 0 < b ->
  exists f, py_truediv a b = Ok f /\ nonneg64 2 f /\ sf_units (Prim2SF f) <= 2 ^ 1074.
Proof.
  intros Ha Hb.
  destruct (py_truediv_nonneg a b Ha Hb) as (f & E & N).
  exists f. split; [exact E|]. split; [exact N|].
  destruct (Z.eq_dec a 0) as [-> | Na].
  { rewrite py_truediv_zero in E by exact Hb. injection E as <-. cbn. lia. }
  destruct (Z.eq_dec a b) as [-> | Nb].
  { rewrite py_truediv_self in E by exact Hb. injection E as <-.
    change (Prim2SF 1) with (S754_finite false 4503599627370496 (-52)).
    cbn [sf_units]. change (-52 + 1074) with 1022.
    change 1074 with (52 + 1022). rewrite (Z.pow_add_r 2 52 1022) by lia.
    change (2 ^ 52) with 4503599627370496. lia. }
  unfold py_truediv in E.
  replace (b =? 0) with false in E by (symmetry; apply Z.eqb_neq; lia).
  destruct b as [|pb|pb]; try lia. destruct a as [|pa|pa]; try lia.
  cbn [Z2SF] in E.
  pose proof (SFdiv_le_one pa pb ltac:(lia)) as U.
  assert (sf_fin 2 (SFdiv prec emax (S754_finite false pa 0) (S754_finite false pb 0))) as F.
  { pose proof (Zdigits2_mono (Zpos pa) (Zpos pb) ltac:(lia)) as M.
    apply (sf_fin_weaken (Zdigits2 (Zpos pb) - Zdigits2 (Zpos pb) + 2)); [|lia].
    apply SFdiv_fin; lia. }
  pose proof (sf_fin_valid _ _ F) as V.
  set (r := SFdiv prec emax (S754_finite false pa 0) (S754_finite false pb 0)) in *.
  assert (f = SF2Prim r) as ->
    by (destruct r; cbn [sf_fin] in F; try tauto; congruence).
  rewrite Prim2SF_SF2Prim by exact V. exact U.
Qed.

Lemma sf_units_one : sf_units (Prim2SF 1) = 2 ^ 1074.
Proof.
  change (Prim2SF 1) with (S754_finite false 4503599627370496 (-52)).
  cbn [sf_units]. change (-52 + 1074) with 1022.
  change 1074 with (52 + 1022). rewrite (Z.pow_add_r 2 52 1022) by lia.
  reflexivity.
Qed.

Lemma rnd_value_bounds S :
  0 <= S ->
  (2 ^ 53 - 1) * S <= 2 ^ 53 * rnd_value S <= (2 ^ 53 + 1) * S.
Proof. intros H. pose proof (rnd_value_err S H). lia. Qed.

(** A blend of a channel value with itself gives the value or one less. *)
Lemma blend_channel_self x t :
  0 <= x <= 255 -> nonneg64 2 t -> sf_units (Prim2SF t) <= 2 ^ 1074 ->
  exists z, Color.blend_channel x x (PyFloat t) = Ok z /\ (z = x \/ (0 < x /\ z = x - 1)).
Proof.
  intros Hx Nt Ut.
  destruct (py_float_channel x Hx) as (fx & Ex & _).
  assert (fx = int_float x) as -> by (unfold int_float; rewrite Ex; reflexivity).
  unfold Color.blend_channel, num_sub, num_mul, num_add, num_binop, to_float.
  change (py_float 1) with (Ok 1%float). cbn [bind]. rewrite Ex. cbn [bind num_int].
  assert (nonneg64 1 1%float) as N1 by (split; [reflexivity|cbn; lia]).
  destruct (sub_units 1 2 1%float t N1 Nt ltac:(lia) ltac:(lia)) as [Na Ua];
    [rewrite sf_units_one; exact Ut|].
  change (Z.max 1 2 + 2) with 4 in Na.
  destruct (mul_channel_units x 4 (1 - t)%float Hx Na ltac:(lia)) as [Np Up].
  destruct (mul_channel_units x 2 t Hx Nt ltac:(lia)) as [Nq Uq].
  destruct (add_units _ _ _ _ Np Nq ltac:(lia) ltac:(lia)) as [Nv Uv].
  rewrite (py_int_units _ _ Nv). eexists. split; [reflexivity|].
  rewrite sf_units_one in Ua.
  pose proof (sf_units_nonneg (Prim2SF t)) as T0.
  set (T := sf_units (Prim2SF t)) in *.
  set (A := sf_units (Prim2SF (1 - t)%float)) in *.
  set (P := sf_units (Prim2SF (int_float x * (1 - t))%float)) in *.
  set (Q := sf_units (Prim2SF (int_float x * t)%float)) in *.
  set (V := sf_units (Prim2SF (int_float x * (1 - t) + int_float x * t)%float)) in *.
  set (U := 2 ^ 1074) in *.
  assert (0 < U) as PU by (apply pow2_pos; lia).
  pose proof (rnd_value_bounds (U - T) ltac:(lia)) as BA. rewrite <- Ua in BA.
  assert (0 <= A) as A0 by (apply sf_units_nonneg).
  pose proof (rnd_value_bounds (x * A) ltac:(nia)) as BP. rewrite <- Up in BP.
  pose proof (rnd_value_bounds (x * T) ltac:(nia)) as BQ. rewrite <- Uq in BQ.
  assert (0 <= P) as P0 by (apply sf_units_nonneg).
  assert (0 <= Q) as Q0 by (apply sf_units_nonneg).
  pose proof (rnd_value_bounds (P + Q) ltac:(lia)) as BV. rewrite <- Uv in BV.
  clearbody T A P Q V U. clear - Hx PU T0 Ut BA BP BQ BV A0.
  change (2 ^ 53) with 9007199254740992 in *.
  assert ((9007199254740992 - 1) * (x * (U - T)) <= 9007199254740992 * (x * A)
          <= (9007199254740992 + 1) * (x * (U - T))) as BA'.
  { split.
    - replace ((9007199254740992 - 1) * (x * (U - T)))
        with (x * ((9007199254740992 - 1) * (U - T))) by ring.
      replace (9007199254740992 * (x * A)) with (x * (9007199254740992 * A)) by ring.
      apply Z.mul_le_mono_nonneg_l; lia.
    - replace ((9007199254740992 + 1) * (x * (U - T)))
        with (x * ((9007199254740992 + 1) * (U - T))) by ring.
      replace (9007199254740992 * (x * A)) with (x * (9007199254740992 * A)) by ring.
      apply Z.mul_le_mono_nonneg_l; lia. }
  assert (x * (U - T) = x * U - x * T) as EW by ring. rewrite EW in BA'.
  assert (0 <= x * T <= x * U) as BT by (split; [nia|apply Z.mul_le_mono_nonneg_l; lia]).
  assert (x * U <= 255 * U) as BU by (apply Z.mul_le_mono_nonneg_r; lia).
  set (XA := x * A) in *. set (XT := x * T) in *. set (XU := x * U) in *.
  assert (XU - U <= V < XU + U) as [L H].
  { clearbody XA XT XU. clear - BA' BP BQ BV BT BU PU. lia. }
  assert (x - 1 <= V / U) as L'
    by (apply Z.div_le_lower_bound; [lia|]; unfold XU in L; lia).
  assert (V / U < x + 1) as H'
    by (apply Z.div_lt_upper_bound; [lia|]; unfold XU in H; lia).
  assert (0 <= V / U) by (apply Z.div_pos; lia).
  lia.
Qed.

(** A blend of a colour with itself at a ratio between 0 and 1. *)
Lemma blend_self (a : Color.t) t :
  RGB.valid (Color.rgb a) = true ->
  nonneg64 2 t -> sf_units (Prim2SF t) <= 2 ^ 1074 ->
  exists c, Color.blend a a (PyFloat t) = Ok c /\
    RGB.valid (Color.rgb c) = true /\
    RGB.r (Color.rgb a) - 1 <= RGB.r (Color.rgb c) <= RGB.r (Color.rgb a) /\
    RGB.g (Color.rgb a) - 1 <= RGB.g (Color.rgb c) <= RGB.g (Color.rgb a) /\
    RGB.b (Color.rgb a) - 1 <= RGB.b (Color.rgb c) <= RGB.b (Color.rgb a).
Proof.
  intros V Nt Ut. pose proof (valid_channels _ V) as (Hr & Hg & Hb).
  unfold Color.blend.
  destruct (blend_channel_self _ t Hr Nt Ut) as (r' & -> & Br).
  destruct (blend_channel_self _ t Hg Nt Ut) as (g' & -> & Bg).
  destruct (blend_channel_self _ t Hb Nt Ut) as (b' & -> & Bb).
  cbn [bind Color.new]. eexists. split; [reflexivity|].
  cbn [Color.rgb]. split; [apply RGB_new_valid|].
  unfold RGB.new. cbn [RGB.r RGB.g RGB.b].
  rewrite !clamp_id by lia. lia.
Qed.

(** Every sample of a gradient from a colour to itself. *)
Lemma gradient_self_samples (a : Color.t) n l :
  RGB.valid (Color.rgb a) = true ->
  Palette.gradient a a n = Ok l ->
  forall c, In c l ->
    RGB.valid (Color.rgb c) = true /\
    RGB.r (Color.rgb a) - 1 <= RGB.r (Color.rgb c) <= RGB.r (Color.rgb a) /\
    RGB.g (Color.rgb a) - 1 <= RGB.g (Color.rgb c) <= RGB.g (Color.rgb a) /\
    RGB.b (Color.rgb a) - 1 <= RGB.b (Color.rgb c) <= RGB.b (Color.rgb a).
Proof.
  intros V El c Hc. destruct (Z_lt_le_dec 1 n) as [Hn | Hn].
  - destruct (gradient_many a a n V V Hn) as (l' & El' & Len & Hs & _).
    rewrite El in El'. injection El' as <-.
    destruct (In_nth l c a Hc) as (i & Hi & <-).
    destruct (Hs (Z.of_nat i) ltac:(lia)) as (q & Eq & Bq).
    rewrite Nat2Z.id in Bq.
    destruct (py_truediv_le_one (Z.of_nat i) (n - 1) ltac:(lia) ltac:(lia))
      as (q' & Eq' & Nq & Uq).
    rewrite Eq in Eq'. injection Eq' as <-.
    destruct (blend_self a q V Nq Uq) as (c & Ec & H).
    rewrite Bq in Ec. injection Ec as <-. exact H.
  - rewrite gradient_few in El by assumption. injection El as <-.
    apply repeat_spec in Hc. subst c. split; [exact V|]. lia.
Qed.

(** * The properties *)

(** ** C1: hexadecimal strings *)

(** C1, as stated, fails: a [#] string with eight digits (neither three
    nor six) is accepted, the characters after the sixth being ignored. *)
Lemma parse_hex_eight_digits_accepted :
  startswith (py_lower (py_strip "#aabbccdd")) "#" = true /\
  String.length (lstrip (Ascii.eqb "#") (py_lower (py_strip "#aabbccdd"))) = 8%nat /\
  Color.new (Color.Str "#aabbccdd") = Ok (Color.mk (RGB.mk 170 187 204)).
Proof. repeat split. Qed.

(** C1 (amended).  An ASCII string that, trimmed and lower-cased, starts
    with [#] is parsed by [_parse_hex]; with [d] the text after the
    leading [#] characters: a three-character [d] parses as the string
    with each character doubled; a [d] that starts with six hexadecimal
    digits gives the three channels those digits denote, whatever follows
    them; and a [d] of length 0, 1, 2 or 4 fails with ValueError. *)
Theorem parse_hex_accepts (s : string) :
  let c := py_lower (py_strip s) in
  let d := lstrip (Ascii.eqb "#") c in
  py_isascii s = true ->
  startswith c "#" = true ->
  Color._parse_string s = Color._parse_hex c /\
  (forall c1 c2 c3,
      d = String c1 (String c2 (String c3 EmptyString)) ->
      Color._parse_hex c
      = Color._parse_hex
          (String "#" (String c1 (String c1 (String c2 (String c2
             (String c3 (String c3 EmptyString)))))))) /\
  (forall d1 d2 d3 d4 d5 d6 rest,
      d = String d1 (String d2 (String d3 (String d4 (String d5 (String d6 rest))))) ->
      is_hex d1 = true -> is_hex d2 = true -> is_hex d3 = true ->
      is_hex d4 = true -> is_hex d5 = true -> is_hex d6 = true ->
      Color._parse_hex c
      = Ok (RGB.new (16 * digit_value d1 + digit_value d2)
                    (16 * digit_value d3 + digit_value d4)
                    (16 * digit_value d5 + digit_value d6))) /\
  ((String.length d < 3 \/ String.length d = 4)%nat ->
   Color._parse_hex c = Raise ValueError).
Proof.
  intros c d _ Hc. split; [|split; [|split]].
  - unfold Color._parse_string. fold c. rewrite Hc. reflexivity.
  - intros c1 c2 c3 Ed.
    destruct (parse_hex_of_digits c _ Ed) as [Hh ->].
    apply parse_hex_shorthand. exact Hh.
  - intros d1 d2 d3 d4 d5 d6 rest Ed H1 H2 H3 H4 H5 H6.
    destruct (parse_hex_of_digits c _ Ed) as [_ ->].
    apply parse_hex_six; assumption.
  - intros Hd. apply parse_hex_short. exact Hd.
Qed.

Lemma parse_hex_accepts_witness :
  Color._parse_string " #ABC " = Color._parse_hex "#abc" /\
  Color._parse_hex "#abc" = Color._parse_hex "#aabbcc".
Proof.
  destruct (parse_hex_accepts " #ABC " eq_refl eq_refl) as (H1 & H2 & _).
  split; [exact H1|]. exact (H2 "a"%char "b"%char "c"%char eq_refl).
Defined.

(** ** C2: [rgb] strings *)

(** C2, as stated, fails: the specification's pattern allows whitespace
    after the opening parenthesis and matches [rgb( 0, 128, 255)], but the
    construction raises ValueError. *)
Lemma parse_rgb_space_after_paren_rejected :
  startswith (py_lower (py_strip "rgb( 0, 128, 255)")) "rgb" = true /\
  spec_match_rgb (py_lower (py_strip "rgb( 0, 128, 255)")) = Some ("0", "128", "255")%string /\
  Color.new (Color.Str "rgb( 0, 128, 255)") = Raise ValueError.
Proof. repeat split. Qed.

(** C2 (amended).  An ASCII string that, trimmed and lower-cased, starts
    with [rgb] is matched against [rgba?\((\d+),\s*(\d+),\s*(\d+)]:
    whitespace is permitted only after each comma, and what follows the
    third number is ignored.  On a match whose three numbers have at most
    4300 digits each (the limit of [int] on a string) the colour is
    RGB(R,G,B) for the decimal values of the three groups; on a match
    with a longer number, and on no match, the construction fails with
    ValueError. *)
Theorem parse_rgb_accepts (s : string) :
  let c := py_lower (py_strip s) in
  py_isascii s = true ->
  startswith c "rgb" = true ->
  (forall g1 g2 g3,
      rgb_shape c g1 g2 g3 ->
      ((String.length g1 <= 4300)%nat -> (String.length g2 <= 4300)%nat ->
       (String.length g3 <= 4300)%nat ->
       Color.new (Color.Str s)
       = Ok (Color.mk (RGB.new (decimal_value g1) (decimal_value g2) (decimal_value g3)))) /\
      ((4300 < String.length g1 \/ 4300 < String.length g2 \/ 4300 < String.length g3)%nat ->
       Color.new (Color.Str s) = Raise ValueError)) /\
  ((forall g1 g2 g3, ~ rgb_shape c g1 g2 g3) ->
   Color.new (Color.Str s) = Raise ValueError).
Proof.
  intros c _ Hc.
  assert (Color._parse_string s = Color._parse_rgb_string c) as D.
  { unfold Color._parse_string. fold c.
    rewrite (startswith_rgb_not_hash c Hc), Hc. reflexivity. }
  cbn [Color.new]. rewrite D. unfold Color._parse_rgb_string. split.
  - intros g1 g2 g3 Sh. rewrite (match_rgb_complete _ _ _ _ Sh).
    destruct Sh as (a & w1 & w2 & rest & _ & _ & N1 & D1 & N2 & D2 & N3 & D3 & _).
    split.
    + intros L1 L2 L3. rewrite !int_of_string_digits by assumption. reflexivity.
    + intros Long. rewrite three_decimals_too_long by assumption. reflexivity.
  - intros No. destruct (Color.match_rgb c) as [[[g1 g2] g3]|] eqn:E; [|reflexivity].
    exfalso. apply (No g1 g2 g3). apply match_rgb_sound. exact E.
Qed.

Lemma parse_rgb_accepts_witness :
  Color.new (Color.Str "RGBA(0,  128,255, 0.5)") = Ok (Color.mk (RGB.mk 0 128 255)).
Proof.
  destruct (parse_rgb_accepts "RGBA(0,  128,255, 0.5)" eq_refl eq_refl) as [H _].
  apply (H "0" "128" "255")%string; [|cbn; lia|cbn; lia|cbn; lia].
  exists "a"%string, "  "%string, EmptyString, ", 0.5)"%string.
  repeat split; try discriminate. right. reflexivity.
Defined.

(** ** C3: RGB to HSL and back *)



(** ** C4: triadic and complementary palettes *)

(** C4, as stated, fails: the three colours of the triad of the grey
    [#808080] all have hue 0. *)
Lemma triadic_grey_hues :
  (c <- Color.new (Color.Str "#808080") ;;
   l <- Palette.triadic c ;;
   mapM Color.hsl l)
  = Ok [HSL.mk 0 0 50; HSL.mk 0 0 49; HSL.mk 0 0 49] /\
  (0 - 0) mod 360 <> 120.
Proof. vm_compute. split; [reflexivity|discriminate]. Qed.

(** C4 (amended).  For every colour [base] (channels in [0,255]),
    [triadic(base)] returns exactly three colours: [base] and the colours
    built from HSL(h+120 mod 360, s, l) and HSL(h+240 mod 360, s, l), where
    (h, s, l) is [base.hsl()].  The hues handed to the constructor are
    pairwise 120 apart modulo 360; the hues read back from the returned
    colours need not be.  [complementary(base)] returns exactly two
    colours, the first being [base]. *)
Theorem triadic_complementary_shape (base : Color.t) :
  RGB.valid (Color.rgb base) = true ->
  exists hsl c1 c2 c',
    Color.hsl base = Ok hsl /\
    let h1 := HSL.new ((HSL.h hsl + 120) mod 360) (HSL.s hsl) (HSL.l hsl) in
    let h2 := HSL.new ((HSL.h hsl + 240) mod 360) (HSL.s hsl) (HSL.l hsl) in
    Color.new (Color.Hsl h1) = Ok c1 /\
    Color.new (Color.Hsl h2) = Ok c2 /\
    Palette.triadic base = Ok [base; c1; c2] /\
    (HSL.h h1 - HSL.h hsl) mod 360 = 120 /\
    (HSL.h h2 - HSL.h h1) mod 360 = 120 /\
    (HSL.h hsl - HSL.h h2) mod 360 = 120 /\
    Palette.complementary base = Ok [base; c'].
Proof.
  intros V. destruct (RGB_to_hsl_total _ V) as (hsl & Eh & Vh).
  destruct (Color_new_hsl (HSL.new ((HSL.h hsl + 120) mod 360) (HSL.s hsl) (HSL.l hsl))
              (HSL_new_valid _ _ _)) as (c1 & E1 & _).
  destruct (Color_new_hsl (HSL.new ((HSL.h hsl + 240) mod 360) (HSL.s hsl) (HSL.l hsl))
              (HSL_new_valid _ _ _)) as (c2 & E2 & _).
  pose proof (HSL_valid_fields _ Vh) as (Hh & Hs & Hl).
  assert (HSL.valid (HSL.mk ((HSL.h hsl + 180) mod 360) (HSL.s hsl) (HSL.l hsl)) = true) as Vc.
  { unfold HSL.valid. cbn [HSL.h HSL.s HSL.l].
    pose proof (Z.mod_pos_bound (HSL.h hsl + 180) 360 ltac:(lia)).
    rewrite !andb_true_iff, !Z.leb_le, Z.ltb_lt. lia. }
  destruct (Color_new_hsl _ Vc) as (c' & E' & _).
  exists hsl, c1, c2, c'. cbv zeta.
  split; [exact Eh|]. split; [exact E1|]. split; [exact E2|].
  split; [|split; [|split; [|split]]].
  - unfold Palette.triadic, Color.hsl. rewrite Eh. cbn [bind]. rewrite E1. cbn [bind].
    rewrite E2. reflexivity.
  - cbn [HSL.new HSL.h]. Z.to_euclidean_division_equations. lia.
  - cbn [HSL.new HSL.h]. Z.to_euclidean_division_equations. lia.
  - cbn [HSL.new HSL.h]. Z.to_euclidean_division_equations. lia.
  - unfold Palette.complementary, Color.complement. rewrite Eh. cbn [bind].
    rewrite E'. reflexivity.
Qed.

Lemma triadic_complementary_shape_witness :
  exists hsl c1 c2 c',
    Color.hsl (Color.mk (RGB.mk 10 20 30)) = Ok hsl /\
    Color.new (Color.Hsl (HSL.new ((HSL.h hsl + 120) mod 360) (HSL.s hsl) (HSL.l hsl))) = Ok c1 /\
    Color.new (Color.Hsl (HSL.new ((HSL.h hsl + 240) mod 360) (HSL.s hsl) (HSL.l hsl))) = Ok c2 /\
    Palette.triadic (Color.mk (RGB.mk 10 20 30)) = Ok [Color.mk (RGB.mk 10 20 30); c1; c2] /\
    Palette.complementary (Color.mk (RGB.mk 10 20 30)) = Ok [Color.mk (RGB.mk 10 20 30); c'].
Proof.
  destruct (triadic_complementary_shape (Color.mk (RGB.mk 10 20 30)) eq_refl)
    as (hsl & c1 & c2 & c' & H1 & H2 & H3 & H4 & _ & _ & _ & H8).
  exists hsl, c1, c2, c'. repeat split; assumption.
Defined.

(** ** C5: the gradient of a colour to itself *)

(** C5, as stated, fails: in the eight-step gradient from white to white
    the fourth sample is (254,254,254), because
    [255*(1 - 3/7) + 255*(3/7)] evaluates to 254.99999999999997. *)
Lemma gradient_white_white_8 :
  Palette.gradient (Color.mk (RGB.mk 255 255 255)) (Color.mk (RGB.mk 255 255 255)) 8
  = Ok [Color.mk (RGB.mk 255 255 255); Color.mk (RGB.mk 255 255 255);
        Color.mk (RGB.mk 255 255 255); Color.mk (RGB.mk 254 254 254);
        Color.mk (RGB.mk 255 255 255); Color.mk (RGB.mk 255 255 255);
        Color.mk (RGB.mk 255 255 255); Color.mk (RGB.mk 255 255 255)].
Proof. vm_compute. reflexivity. Qed.

(** C5 (amended).  For every colour [a] (channels in [0,255]) and every
    integer [n], [gradient(a, a, n)] returns [n] colours (none when
    [n <= 0]), of which the first and the last are copies of [a]; for
    [n <= 2] it returns [n] copies of [a].  Every sample is a valid colour
    each of whose channels is the channel of [a] or one less: the samples
    in between are blends of [a] with itself at ratio i/(n-1), and the
    rounding of [x*(1-t) + x*t] can fall just below [x]. *)
Theorem gradient_same_colour (a : Color.t) (n : Z) :
  RGB.valid (Color.rgb a) = true ->
  exists l,
    Palette.gradient a a n = Ok l /\
    List.length l = Z.to_nat n /\
    (1 <= n -> nth 0 l a = a /\ nth (Z.to_nat (n - 1)) l a = a) /\
    (n <= 2 -> l = repeat a (Z.to_nat n)) /\
    (forall c, In c l ->
       RGB.valid (Color.rgb c) = true /\
       RGB.r (Color.rgb a) - 1 <= RGB.r (Color.rgb c) <= RGB.r (Color.rgb a) /\
       RGB.g (Color.rgb a) - 1 <= RGB.g (Color.rgb c) <= RGB.g (Color.rgb a) /\
       RGB.b (Color.rgb a) - 1 <= RGB.b (Color.rgb c) <= RGB.b (Color.rgb a)).
Proof.
  intros V.
  assert (forall l, Palette.gradient a a n = Ok l -> _) as Hs
    by (intros l El; exact (gradient_self_samples a n l V El)).
  destruct (Z_lt_le_dec 1 n) as [Hn|Hn].
  - destruct (gradient_many a a n V V Hn) as (l & El & Len & _ & H0 & Hlast).
    exists l. split; [exact El|]. split; [exact Len|]. split; [auto|].
    split; [|exact (Hs l El)].
    intros H2. assert (n = 2) as -> by lia.
    change (Z.to_nat 2) with 2%nat in *. change (Z.to_nat (2 - 1)) with 1%nat in Hlast.
    destruct l as [|x [|y [|z l]]]; cbn in Len; try discriminate.
    cbn in H0, Hlast. subst. reflexivity.
  - exists (repeat a (Z.to_nat n)).
    split; [apply gradient_few; assumption|]. split; [apply repeat_length|].
    split; [|split; [reflexivity|apply Hs, gradient_few; assumption]].
    intros H1. assert (n = 1) as -> by lia. split; reflexivity.
Qed.

Lemma gradient_same_colour_witness :
  exists l,
    Palette.gradient (Color.mk (RGB.mk 255 255 255)) (Color.mk (RGB.mk 255 255 255)) 8 = Ok l /\
    List.length l = 8%nat /\
    nth 0 l (Color.mk (RGB.mk 255 255 255)) = Color.mk (RGB.mk 255 255 255) /\
    nth 7 l (Color.mk (RGB.mk 255 255 255)) = Color.mk (RGB.mk 255 255 255) /\
    (forall c, In c l -> 254 <= RGB.r (Color.rgb c) <= 255).
Proof.
  destruct (gradient_same_colour (Color.mk (RGB.mk 255 255 255)) 8 eq_refl)
    as (l & H1 & H2 & H3 & _ & H6).
  exists l. destruct (H3 ltac:(lia)) as [H4 H5].
  split; [exact H1|]. split; [exact H2|]. split; [exact H4|]. split; [exact H5|].
  intros c Hc. destruct (H6 c Hc) as (_ & Hr & _). cbn in Hr. lia.
Defined.

(** ** C6: clamping and hexadecimal rendering *)

(** C6.  For all integers r, g, b, RGB(r,g,b) holds each channel clamped
    into [0,255], and its [to_hex()] is [#] followed by exactly six
    lower-case hexadecimal digits: for each channel the digit of its
    sixteens and the digit of its units. *)
Theorem to_hex_format (r g b : Z) :
  let c := RGB.new r g b in
  RGB.r c = Z.max 0 (Z.min 255 r) /\ RGB.g c = Z.max 0 (Z.min 255 g) /\
  RGB.b c = Z.max 0 (Z.min 255 b) /\
  0 <= RGB.r c <= 255 /\ 0 <= RGB.g c <= 255 /\ 0 <= RGB.b c <= 255 /\
  RGB.to_hex c = String "#" (two_hex (RGB.r c) ++ two_hex (RGB.g c) ++ two_hex (RGB.b c)) /\
  String.length (RGB.to_hex c) = 7%nat /\
  all_chars is_lower_hex (two_hex (RGB.r c) ++ two_hex (RGB.g c) ++ two_hex (RGB.b c)) = true.
Proof.
  intros c. pose proof (valid_channels c (RGB_new_valid r g b)) as (Hr & Hg & Hb).
  destruct (format_02x_channel _ Hr) as [Fr Lr].
  destruct (format_02x_channel _ Hg) as [Fg Lg].
  destruct (format_02x_channel _ Hb) as [Fb Lb].
  assert (RGB.to_hex c
          = String "#" (two_hex (RGB.r c) ++ two_hex (RGB.g c) ++ two_hex (RGB.b c))) as E.
  { unfold RGB.to_hex. rewrite Fr, Fg, Fb. reflexivity. }
  split; [reflexivity|]. split; [reflexivity|]. split; [reflexivity|].
  split; [exact Hr|]. split; [exact Hg|]. split; [exact Hb|].
  split; [exact E|]. split.
  - rewrite E. reflexivity.
  - unfold two_hex in *. cbn [append all_chars] in *.
    rewrite !andb_true_iff in *. tauto.
Qed.

(** ** C7: the samples of a gradient *)

(** C7.  For all colours [start] and [end_] (channels in [0,255]): when
    [steps > 1], [gradient(start, end_, steps)] returns exactly [steps]
    colours, sample [i] being the blend of [start] toward [end_] at the
    ratio [i / (steps - 1)], so that the first sample is [start] and the
    last is [end_]; when [steps <= 1] it returns copies of [start], one
    for [steps = 1] and none below, and raises nothing. *)
Theorem gradient_samples (start end_ : Color.t) (steps : Z) :
  RGB.valid (Color.rgb start) = true -> RGB.valid (Color.rgb end_) = true ->
  (1 < steps ->
   exists l,
     Palette.gradient start end_ steps = Ok l /\
     List.length l = Z.to_nat steps /\
     (forall i, 0 <= i < steps ->
        exists ratio,
          py_truediv i (steps - 1) = Ok ratio /\
          Color.blend start end_ (PyFloat ratio) = Ok (nth (Z.to_nat i) l start)) /\
     nth 0 l start = start /\
     nth (Z.to_nat (steps - 1)) l start = end_) /\
  (steps <= 1 ->
   Palette.gradient start end_ steps = Ok (repeat start (Z.to_nat steps))) /\
  Palette.gradient start end_ 1 = Ok [start].
Proof.
  intros V1 V2. split; [|split].
  - intros Hs. apply gradient_many; assumption.
  - intros Hs. apply gradient_few; assumption.
  - apply (gradient_few start end_ 1 V1). lia.
Qed.

Lemma gradient_samples_witness :
  exists l,
    Palette.gradient (Color.mk (RGB.mk 255 0 0)) (Color.mk (RGB.mk 0 0 255)) 5 = Ok l /\
    List.length l = 5%nat /\
    nth 0 l (Color.mk (RGB.mk 255 0 0)) = Color.mk (RGB.mk 255 0 0) /\
    nth 4 l (Color.mk (RGB.mk 255 0 0)) = Color.mk (RGB.mk 0 0 255).
Proof.
  destruct (gradient_samples (Color.mk (RGB.mk 255 0 0)) (Color.mk (RGB.mk 0 0 255)) 5
              eq_refl eq_refl) as (H & _).
  destruct (H ltac:(lia)) as (l & H1 & H2 & _ & H4 & H5).
  exists l. repeat split; assumption.
Defined.

(** ** C8: monochromatic palettes *)

(** C8, as stated, fails in its second half: the five colours of the
    monochromatic palette of RGB(10,20,30) do not keep hue and saturation
    fixed; read back, their hues are 210, 210, 209, 210, 210 and their
    saturations 52, 49, 50, 49, 49. *)
Lemma monochromatic_hue_drift :
  (l <- Palette.monochromatic (Color.mk (RGB.mk 10 20 30)) 5 ;; mapM Color.hsl l)
  = Ok [HSL.mk 210 52 9; HSL.mk 210 49 25; HSL.mk 209 50 41;
        HSL.mk 210 49 57; HSL.mk 210 49 73] /\
  209 <> 210 /\ 52 <> 49.
Proof. vm_compute. repeat split; discriminate. Qed.

(** C8 (amended).  For every colour [base] (channels in [0,255]),
    [monochromatic(base, 0)] raises ZeroDivisionError, from
    [step = 80 // count]; for every [count > 0] it returns exactly
    [count] colours, the [i]-th built from
    HSL(h, s, min(90, start + step*i)) with (h, s, l) = [base.hsl()],
    [step = 80 // count] and [start = max(10, l - step*count // 2)]: the
    HSL values handed to the constructor vary in lightness only. *)
Theorem monochromatic_shape (base : Color.t) :
  RGB.valid (Color.rgb base) = true ->
  Palette.monochromatic base 0 = Raise ZeroDivisionError /\
  forall count, 0 < count ->
    exists hsl l,
      Color.hsl base = Ok hsl /\
      Palette.monochromatic base count = Ok l /\
      List.length l = Z.to_nat count /\
      forall i, 0 <= i < count ->
        let step := 80 / count in
        let start := Z.max 10 (HSL.l hsl - step * count / 2) in
        Color.new (Color.Hsl (HSL.new (HSL.h hsl) (HSL.s hsl) (Z.min 90 (start + step * i))))
        = Ok (nth (Z.to_nat i) l base).
Proof.
  intros V. destruct (RGB_to_hsl_total _ V) as (hsl & Eh & Vh). split.
  - unfold Palette.monochromatic, Color.hsl. rewrite Eh. reflexivity.
  - intros count Hc. exists hsl.
    unfold Palette.monochromatic, Color.hsl. rewrite Eh. cbn [bind].
    unfold py_floordiv. replace (count =? 0) with false by (symmetry; apply Z.eqb_neq; lia).
    cbn [bind].
    match goal with |- exists l, _ /\ mapM ?f _ = _ /\ _ => set (F := f) end.
    destruct (mapM_total F (range count)) as [l El].
    { intros i _. unfold F.
      destruct (Color_new_hsl (HSL.new (HSL.h hsl) (HSL.s hsl)
                  (Z.min 90 (Z.max 10 (HSL.l hsl - 80 / count * count / 2) + 80 / count * i)))
                  (HSL_new_valid _ _ _)) as (c & Ec & _).
      exists c. exact Ec. }
    exists l. split; [reflexivity|]. split; [exact El|]. split.
    + rewrite (mapM_length _ _ _ El). apply range_length.
    + intros i Hi. cbv zeta.
      exact (mapM_nth F _ _ _ _ base El (range_nth count i Hi)).
Qed.

Lemma monochromatic_shape_witness :
  Palette.monochromatic (Color.mk (RGB.mk 10 20 30)) 0 = Raise ZeroDivisionError /\
  exists hsl l,
    Color.hsl (Color.mk (RGB.mk 10 20 30)) = Ok hsl /\
    Palette.monochromatic (Color.mk (RGB.mk 10 20 30)) 5 = Ok l /\
    List.length l = 5%nat.
Proof.
  destruct (monochromatic_shape (Color.mk (RGB.mk 10 20 30)) eq_refl) as [H0 H].
  split; [exact H0|].
  destruct (H 5 ltac:(lia)) as (hsl & l & H1 & H2 & H3 & _).
  exists hsl, l. repeat split; assumption.
Defined.

(** ** C9: the contrast ratio *)

(** C9.  For all colours [a] and [b] (channels in [0,255]), both
    luminances are computed, and [contrast_ratio(a, b)] returns
    [(max(L1, L2) + 0.05) / (min(L1, L2) + 0.05)], where [L1] and [L2] are
    the luminances of [a] and [b]; the contrast ratio of
    [Color("white")] against [Color("black")] is exactly [21.0]. *)
Theorem contrast_ratio_formula (a b : Color.t) :
  RGB.valid (Color.rgb a) = true -> RGB.valid (Color.rgb b) = true ->
  (exists L1 L2,
     RGB.luminance (Color.rgb a) = Ok L1 /\
     RGB.luminance (Color.rgb b) = Ok L2 /\
     Color.contrast_ratio a b
     = Ok ((py_max2 L1 L2 + 0.05) / (py_min2 L1 L2 + 0.05))%float) /\
  (white <- Color.new (Color.Str "white") ;;
   black <- Color.new (Color.Str "black") ;;
   Color.contrast_ratio white black) = Ok 21%float.
Proof.
  intros Va Vb. split; [|reflexivity].
  destruct (luminance_nonneg _ Va) as (L1 & E1 & _).
  destruct (luminance_nonneg _ Vb) as (L2 & E2 & _).
  exists L1, L2. split; [exact E1|split; [exact E2|]].
  apply contrast_ratio_of_luminances; assumption.
Qed.

Lemma contrast_ratio_formula_witness :
  exists L1 L2,
    RGB.luminance (RGB.mk 255 107 107) = Ok L1 /\
    RGB.luminance (RGB.mk 0 0 255) = Ok L2 /\
    Color.contrast_ratio (Color.mk (RGB.mk 255 107 107)) (Color.mk (RGB.mk 0 0 255))
    = Ok ((py_max2 L1 L2 + 0.05) / (py_min2 L1 L2 + 0.05))%float.
Proof.
  exact (proj1 (contrast_ratio_formula (Color.mk (RGB.mk 255 107 107))
                  (Color.mk (RGB.mk 0 0 255)) eq_refl eq_refl)).
Defined.

(** ** C10: inversion *)

(** C10.  [invert] is an involution: for every colour [c] (channels in
    [0,255]), [c.invert().invert()] holds exactly the channels of [c]. *)
Theorem invert_involutive (c : Color.t) :
  RGB.valid (Color.rgb c) = true ->
  (c1 <- Color.invert c ;; Color.invert c1) = Ok c.
Proof.
  intros V. apply valid_channels in V. destruct c as [[r g b]]. cbn in V.
  unfold Color.invert. cbn [Color.new Color.rgb RGB.r RGB.g RGB.b bind RGB.new].
  assert (forall x, 0 <= x <= 255 -> clamp 0 255 (255 - clamp 0 255 (255 - x)) = x) as E
    by (intros x Hx; unfold clamp; lia).
  unfold RGB.new. rewrite !E by lia. reflexivity.
Qed.

Lemma invert_involutive_witness :
  (c1 <- Color.invert (Color.mk (RGB.mk 255 107 0)) ;; Color.invert c1)
  = Ok (Color.mk (RGB.mk 255 107 0)).
Proof. apply (invert_involutive (Color.mk (RGB.mk 255 107 0))). reflexivity. Defined.

(** * Further properties *)

(** ** Hexadecimal strings, there and back *)

(** X1.  For every colour [c] (channels in [0,255]), parsing the string
    [c.hex()] gives [c] back: [Color(c.hex())] holds the channels of
    [c]. *)
Theorem hex_then_parse (c : Color.t) :
  RGB.valid (Color.rgb c) = true ->
  Color.new (Color.Str (Color.hex c)) = Ok c.
Proof.
  intros V. destruct (to_hex_digits _ V) as [E L].
  pose proof (valid_channels _ V) as (Hr & Hg & Hb).
  unfold Color.hex. cbn [Color.new]. rewrite E.
  rewrite parse_string_hash; rewrite (normal_hex_string _ L); [|reflexivity].
  unfold two_hex in *. cbn [append all_chars] in *.
  rewrite !andb_true_iff in L. destruct L as (L1 & L2 & L3 & L4 & L5 & L6 & _).
  apply is_lower_hex_facts in L1, L2, L3, L4, L5, L6.
  rewrite parse_hex_six by tauto.
  rewrite !two_hex_value by assumption. cbn [bind].
  rewrite RGB_new_id by exact V. destruct c; reflexivity.
Qed.

Lemma hex_then_parse_witness :
  Color.new (Color.Str (Color.hex (Color.mk (RGB.mk 255 107 0))))
  = Ok (Color.mk (RGB.mk 255 107 0)).
Proof. apply (hex_then_parse (Color.mk (RGB.mk 255 107 0))). reflexivity. Defined.

(** X2.  If an input string, trimmed and lower-cased, is [#] followed by
    exactly six hexadecimal digits, then the colour built from it
    renders, by [hex()], as that trimmed and lower-cased string. *)
Theorem parse_then_hex (s : string) (d1 d2 d3 d4 d5 d6 : ascii) :
  py_lower (py_strip s)
  = String "#" (String d1 (String d2 (String d3 (String d4 (String d5
      (String d6 EmptyString)))))) ->
  is_hex d1 = true -> is_hex d2 = true -> is_hex d3 = true ->
  is_hex d4 = true -> is_hex d5 = true -> is_hex d6 = true ->
  exists c, Color.new (Color.Str s) = Ok c /\ Color.hex c = py_lower (py_strip s).
Proof.
  intros E H1 H2 H3 H4 H5 H6.
  assert (py_lower (py_lower (py_strip s)) = py_lower (py_strip s)) as Idem.
  { generalize (py_strip s). intros t. induction t as [|c t IH]; cbn [py_lower]; [reflexivity|].
    rewrite IH. f_equal.
    pose proof (ascii_forall (fun c => Ascii.eqb (lower_char (lower_char c)) (lower_char c))
                  ltac:(vm_compute; reflexivity) c) as C.
    apply Ascii.eqb_eq. exact C. }
  rewrite E in Idem. cbn [py_lower] in Idem.
  injection Idem as I1 I2 I3 I4 I5 I6.
  assert (forall d, is_hex d = true -> lower_char d = d -> is_lower_hex d = true) as Low
    by (intros d Hd Ed; apply (is_hex_facts d Hd); exact Ed).
  pose proof (Low _ H1 I1) as L1. pose proof (Low _ H2 I2) as L2.
  pose proof (Low _ H3 I3) as L3. pose proof (Low _ H4 I4) as L4.
  pose proof (Low _ H5 I5) as L5. pose proof (Low _ H6 I6) as L6.
  destruct (hex_render d1 d2 L1 L2) as [B1 F1].
  destruct (hex_render d3 d4 L3 L4) as [B2 F2].
  destruct (hex_render d5 d6 L5 L6) as [B3 F3].
  eexists. split.
  - cbn [Color.new]. rewrite parse_string_hash by (rewrite E; reflexivity).
    rewrite E, parse_hex_six by assumption. reflexivity.
  - unfold Color.hex, RGB.to_hex, RGB.new. cbn [Color.rgb RGB.r RGB.g RGB.b].
    rewrite !clamp_id by assumption. rewrite F1, F2, F3, E. reflexivity.
Qed.

Lemma parse_then_hex_witness :
  exists c, Color.new (Color.Str "  #FF6B6B ") = Ok c /\ Color.hex c = "#ff6b6b"%string.
Proof.
  exact (parse_then_hex "  #FF6B6B " "f" "f" "6" "b" "6" "b"
           eq_refl eq_refl eq_refl eq_refl eq_refl eq_refl eq_refl).
Defined.

(** ** Strings: case, whitespace and failures *)

(** X3.  Building a colour from a string gives the same result (the same
    colour, or the same failure) as building it from the string trimmed
    of surrounding whitespace and lower-cased. *)
Theorem parse_normalised (s : string) :
  Color.new (Color.Str s) = Color.new (Color.Str (py_lower (py_strip s))).
Proof.
  cbn [Color.new]. unfold Color._parse_string. rewrite normal_form_idem. reflexivity.
Qed.

(** X4.  Building a colour from a string either returns a colour whose
    channels are in [0,255] or raises ValueError; no other exception
    leaves the constructor. *)
Theorem parse_string_outcome (s : string) :
  (exists c, Color.new (Color.Str s) = Ok c /\ RGB.valid (Color.rgb c) = true) \/
  Color.new (Color.Str s) = Raise ValueError.
Proof.
  assert ((exists c, Color._parse_string s = Ok c /\ RGB.valid c = true) \/
          Color._parse_string s = Raise ValueError) as H.
  { unfold Color._parse_string.
    destruct (startswith _ "#"); [apply parse_hex_result|].
    destruct (startswith _ "rgb"); [apply parse_rgb_string_result|].
    destruct (startswith _ "hsl"); [apply parse_hsl_string_result|].
    destruct (lookup _ NAMED_COLORS); [apply parse_hex_result|right; reflexivity]. }
  cbn [Color.new]. destruct H as [(c & -> & V) | ->].
  - left. exists (Color.mk c). split; [reflexivity|exact V].
  - right. reflexivity.
Qed.

(** X5.  Every name of [NAMED_COLORS] builds a colour, and the colour
    renders, by [hex()], as the value the table gives for the name. *)
Theorem named_colors_resolve (name hex : string) :
  In (name, hex) NAMED_COLORS ->
  exists c, Color.new (Color.Str name) = Ok c /\ Color.hex c = hex.
Proof.
  intros H. pose proof named_colors_checked as C.
  rewrite forallb_forall in C. specialize (C _ H).
  unfold named_color_check in C. cbn [fst snd] in C.
  destruct (Color.new (Color.Str name)) as [c|]; [|discriminate].
  exists c. split; [reflexivity|]. apply String.eqb_eq. exact C.
Qed.

Lemma named_colors_resolve_witness :
  exists c, Color.new (Color.Str "orange") = Ok c /\ Color.hex c = "#ffa500"%string.
Proof.
  apply (named_colors_resolve "orange" "#ffa500").
  do 8 right. left. reflexivity.
Defined.

(** ** The CSS rendering of an HSL value, there and back *)

(** X6.  For every HSL value [x] with hue in [0,360) and saturation and
    lightness in [0,100], the string [x.to_css()] parses to the colour of
    [x]: [Color(x.to_css())] is [Color(x)]. *)
Theorem css_then_parse (x : HSL.t) :
  HSL.valid x = true ->
  Color.new (Color.Str (HSL_to_css x)) = Color.new (Color.Hsl x).
Proof.
  intros V. pose proof (HSL_valid_fields _ V) as (Hh & Hs & Hl).
  destruct (py_str_small (HSL.h x)) as (N1 & D1 & V1 & L1 & K1); [lia|].
  destruct (py_str_small (HSL.s x)) as (N2 & D2 & V2 & L2 & K2); [lia|].
  destruct (py_str_small (HSL.l x)) as (N3 & D3 & V3 & L3 & K3); [lia|].
  cbn [Color.new]. unfold Color._parse_string, HSL_to_css.
  rewrite css_normal by assumption.
  change (startswith ("hsl(" ++ ?a) "#") with false.
  change (startswith ("hsl(" ++ ?a) "rgb") with false.
  change (startswith ("hsl(" ++ ?a) "hsl") with true.
  cbv iota. unfold Color._parse_hsl_string.
  rewrite match_hsl_css by assumption.
  rewrite !int_of_string_digits by assumption. cbn [bind].
  rewrite V1, V2, V3, HSL_new_id by exact V. reflexivity.
Qed.

Lemma css_then_parse_witness :
  Color.new (Color.Str (HSL_to_css (HSL.mk 210 50 7)))
  = Color.new (Color.Hsl (HSL.mk 210 50 7)).
Proof. apply (css_then_parse (HSL.mk 210 50 7)). reflexivity. Defined.

(** ** Luminance: light, dark and contrast *)

(** X7.  Every RGB value (channels in [0,255]) is either light or dark
    and never both: [is_light()] and [is_dark()] both return, with
    opposite answers; [Color.is_light] gives the answer of
    [RGB.is_light]. *)
Theorem light_or_dark (c : Color.t) :
  RGB.valid (Color.rgb c) = true ->
  exists b,
    RGB_is_light (Color.rgb c) = Ok b /\
    RGB_is_dark (Color.rgb c) = Ok (negb b) /\
    Color_is_light c = Ok b.
Proof.
  intros V. destruct (luminance_nonneg _ V) as (L & E & N).
  assert (nonneg64 12 0.5%float) as H by (apply nonneg64_const; reflexivity).
  exists (0.5 <? L)%float. unfold Color_is_light, RGB_is_light, RGB_is_dark.
  rewrite E. cbn [bind]. split; [reflexivity|]. split; [|reflexivity].
  rewrite (ltb_units 12 19), (leb_units 19 12) by assumption.
  f_equal. rewrite Z.leb_antisym. reflexivity.
Qed.

Lemma light_or_dark_witness :
  exists b,
    RGB_is_light (RGB.mk 255 107 107) = Ok b /\
    RGB_is_dark (RGB.mk 255 107 107) = Ok (negb b) /\
    Color_is_light (Color.mk (RGB.mk 255 107 107)) = Ok b.
Proof. exact (light_or_dark (Color.mk (RGB.mk 255 107 107)) eq_refl). Defined.

(** X8.  For all colours [a] and [b] (channels in [0,255]) the contrast
    ratio does not depend on the order: [a.contrast_ratio(b)] and
    [b.contrast_ratio(a)] return the same float; and the contrast ratio
    of a colour with itself is exactly [1.0]. *)
Theorem contrast_ratio_symmetric (a b : Color.t) :
  RGB.valid (Color.rgb a) = true -> RGB.valid (Color.rgb b) = true ->
  (exists x, Color.contrast_ratio a b = Ok x /\ Color.contrast_ratio b a = Ok x) /\
  Color.contrast_ratio a a = Ok 1%float.
Proof.
  intros Va Vb.
  destruct (luminance_nonneg _ Va) as (L1 & E1 & N1).
  destruct (luminance_nonneg _ Vb) as (L2 & E2 & N2).
  pose proof (offset_positive L1 N1) as P1. pose proof (offset_positive L2 N2) as P2.
  unfold Color.contrast_ratio. rewrite E1, E2. cbn [bind]. split.
  - rewrite (max2_comm _ _ P2 P1), (min2_comm _ _ P2 P1).
    assert (positive64 (py_min2 (L1 + 0.05) (L2 + 0.05))) as Pm
      by (unfold py_min2; destruct (_ <? _)%float; assumption).
    rewrite py_fdiv_ok by (apply positive64_self; exact Pm). eauto.
  - destruct (positive64_self _ P1) as (Lt & Nz & D).
    unfold py_max2, py_min2. rewrite Lt, py_fdiv_ok by exact Nz. rewrite D. reflexivity.
Qed.

Lemma contrast_ratio_symmetric_witness :
  exists x,
    Color.contrast_ratio (Color.mk (RGB.mk 255 107 107)) (Color.mk (RGB.mk 0 0 255)) = Ok x /\
    Color.contrast_ratio (Color.mk (RGB.mk 0 0 255)) (Color.mk (RGB.mk 255 107 107)) = Ok x.
Proof.
  exact (proj1 (contrast_ratio_symmetric (Color.mk (RGB.mk 255 107 107))
                  (Color.mk (RGB.mk 0 0 255)) eq_refl eq_refl)).
Defined.

(** ** Grey scale, lightness and saturation *)

(** X9.  For every colour (channels in [0,255]), [grayscale()] returns a
    grey: a colour whose three channels are equal and in [0,255].  It is
    not the identity on greys: applied to the grey of channel [k] it
    returns the grey of channel [k] or of channel [k - 1]. *)
Theorem grayscale_grey (c : Color.t) :
  RGB.valid (Color.rgb c) = true ->
  exists g,
    0 <= g <= 255 /\ Color_grayscale c = Ok (Color.mk (RGB.mk g g g)) /\
    forall k, Color.rgb c = RGB.mk k k k -> g = k \/ g = k - 1.
Proof.
  intros V. destruct (luminance_nonneg _ V) as (L & E & N).
  apply nonneg64_fin in N.
  assert (exists z, py_int (L * 255)%float = Ok z) as [z Ez]
    by (eapply py_int_fin; fin64_tac).
  exists (clamp 0 255 z). split; [apply clamp_range; lia|].
  assert (Color_grayscale c = Ok (Color.mk (RGB.mk (clamp 0 255 z) (clamp 0 255 z) (clamp 0 255 z))))
    as G by (unfold Color_grayscale; rewrite E; cbn [bind]; rewrite Ez; reflexivity).
  split; [exact G|].
  intros k Ek. destruct c as [rgb]. cbn [Color.rgb] in *. subst rgb.
  pose proof (valid_channels _ V) as (Hk & _). cbn [RGB.r] in Hk.
  pose proof (allb_spec 256 _ grays_checked k ltac:(lia)) as C.
  unfold gray_check in C. rewrite G in C. cbn [Color.rgb RGB.r RGB.g RGB.b] in C.
  rewrite !andb_true_iff, orb_true_iff, !Z.eqb_eq in C. tauto.
Qed.

Lemma grayscale_grey_witness :
  exists g,
    0 <= g <= 255 /\
    Color_grayscale (Color.mk (RGB.mk 5 5 5)) = Ok (Color.mk (RGB.mk g g g)) /\
    (g = 5 \/ g = 4).
Proof.
  destruct (grayscale_grey (Color.mk (RGB.mk 5 5 5)) eq_refl) as (g & H1 & H2 & H3).
  exists g. split; [exact H1|]. split; [exact H2|]. exact (H3 5 eq_refl).
Defined.

(** X10.  For every colour (channels in [0,255]) with [hsl()] equal to
    (h, s, l), and every [amount >= 0]: [lighten], [darken], [saturate]
    and [desaturate] raise nothing and return the colours
    [Color(HSL(h, s, l + amount))], [Color(HSL(h, s, l - amount))],
    [Color(HSL(h, s + amount, l))] and [Color(HSL(h, s - amount, l))],
    the constructor of HSL clamping lightness and saturation into
    [0,100]; the channels of each result are in [0,255]. *)
Theorem adjust_returns (c : Color.t) (amount : Z) :
  RGB.valid (Color.rgb c) = true -> 0 <= amount ->
  exists x c1 c2 c3 c4,
    Color.hsl c = Ok x /\
    Color_lighten c amount = Ok c1 /\
    Color.new (Color.Hsl (HSL.new (HSL.h x) (HSL.s x) (HSL.l x + amount))) = Ok c1 /\
    Color_darken c amount = Ok c2 /\
    Color.new (Color.Hsl (HSL.new (HSL.h x) (HSL.s x) (HSL.l x - amount))) = Ok c2 /\
    Color_saturate c amount = Ok c3 /\
    Color.new (Color.Hsl (HSL.new (HSL.h x) (HSL.s x + amount) (HSL.l x))) = Ok c3 /\
    Color_desaturate c amount = Ok c4 /\
    Color.new (Color.Hsl (HSL.new (HSL.h x) (HSL.s x - amount) (HSL.l x))) = Ok c4 /\
    RGB.valid (Color.rgb c1) = true /\ RGB.valid (Color.rgb c2) = true /\
    RGB.valid (Color.rgb c3) = true /\ RGB.valid (Color.rgb c4) = true.
Proof.
  intros V Ha. destruct (RGB_to_hsl_total _ V) as (x & Ex & Vx).
  pose proof (HSL_valid_fields _ Vx) as (Hh & Hs & Hl).
  destruct (Color_new_hsl (HSL.new (HSL.h x) (HSL.s x) (HSL.l x + amount))
              (HSL_new_valid _ _ _)) as (c1 & E1 & _ & V1).
  destruct (Color_new_hsl (HSL.new (HSL.h x) (HSL.s x) (HSL.l x - amount))
              (HSL_new_valid _ _ _)) as (c2 & E2 & _ & V2).
  destruct (Color_new_hsl (HSL.new (HSL.h x) (HSL.s x + amount) (HSL.l x))
              (HSL_new_valid _ _ _)) as (c3 & E3 & _ & V3).
  destruct (Color_new_hsl (HSL.new (HSL.h x) (HSL.s x - amount) (HSL.l x))
              (HSL_new_valid _ _ _)) as (c4 & E4 & _ & V4).
  exists x, c1, c2, c3, c4.
  unfold Color_lighten, Color_darken, Color_saturate, Color_desaturate, Color.hsl.
  rewrite Ex. cbn [bind]. rewrite <- E1, <- E2, <- E3, <- E4.
  unfold HSL.new, clamp. rewrite (Z.mod_small (HSL.h x)) by lia.
  repeat split; try assumption; do 3 f_equal; lia.
Qed.

Lemma adjust_returns_witness :
  exists x c1 c2 c3 c4,
    Color.hsl (Color.mk (RGB.mk 255 107 107)) = Ok x /\
    Color_lighten (Color.mk (RGB.mk 255 107 107)) 10 = Ok c1 /\
    Color_darken (Color.mk (RGB.mk 255 107 107)) 10 = Ok c2 /\
    Color_saturate (Color.mk (RGB.mk 255 107 107)) 10 = Ok c3 /\
    Color_desaturate (Color.mk (RGB.mk 255 107 107)) 10 = Ok c4.
Proof.
  destruct (adjust_returns (Color.mk (RGB.mk 255 107 107)) 10 eq_refl ltac:(lia))
    as (x & c1 & c2 & c3 & c4 & H0 & H1 & _ & H2 & _ & H3 & _ & H4 & _).
  exists x, c1, c2, c3, c4. repeat split; assumption.
Defined.

(** X11.  For every colour (channels in [0,255]): [darken(amount)] with
    [amount >= 100] returns black, and [desaturate(amount)] with
    [amount >= 100] returns a grey (three equal channels in [0,255]). *)
Theorem darken_desaturate_fully (c : Color.t) (amount : Z) :
  RGB.valid (Color.rgb c) = true -> 100 <= amount ->
  Color_darken c amount = Ok (Color.mk (RGB.mk 0 0 0)) /\
  exists g, 0 <= g <= 255 /\ Color_desaturate c amount = Ok (Color.mk (RGB.mk g g g)).
Proof.
  intros V Ha. destruct (RGB_to_hsl_total _ V) as (x & Ex & Vx).
  pose proof (HSL_valid_fields _ Vx) as (Hh & Hs & Hl).
  unfold Color_darken, Color_desaturate. rewrite Ex. cbn [bind Color.new].
  replace (Z.max 0 (HSL.l x - amount)) with 0 by lia.
  replace (Z.max 0 (HSL.s x - amount)) with 0 by lia.
  rewrite HSL_to_rgb_dark by assumption. split; [reflexivity|].
  destruct (HSL_to_rgb_grey (HSL.h x) (HSL.l x) Hh Hl) as (g & Hg & ->).
  exists g. split; [exact Hg|reflexivity].
Qed.

Lemma darken_desaturate_fully_witness :
  Color_darken (Color.mk (RGB.mk 255 107 107)) 100 = Ok (Color.mk (RGB.mk 0 0 0)) /\
  exists g, 0 <= g <= 255 /\
    Color_desaturate (Color.mk (RGB.mk 255 107 107)) 100 = Ok (Color.mk (RGB.mk g g g)).
Proof.
  exact (darken_desaturate_fully (Color.mk (RGB.mk 255 107 107)) 100 eq_refl ltac:(lia)).
Defined.

(** X12.  A grey (three equal channels [k] in [0,255]) has hue 0 and
    saturation 0, both as [hsl()] and as [hsv()]; and for every
    [amount >= 0] its [lighten(amount)] and [darken(amount)] are greys
    again. *)
Theorem grey_stays_grey (k amount : Z) :
  0 <= k <= 255 -> 0 <= amount ->
  let c := Color.mk (RGB.mk k k k) in
  (exists l, Color.hsl c = Ok (HSL.mk 0 0 l)) /\
  (exists v, Color_hsv c = Ok (HSV.mk 0 0 v)) /\
  (exists g, Color_lighten c amount = Ok (Color.mk (RGB.mk g g g))) /\
  (exists g, Color_darken c amount = Ok (Color.mk (RGB.mk g g g))).
Proof.
  intros Hk Ha c.
  pose proof (allb_spec 256 _ greys_checked k ltac:(lia)) as C. unfold grey_check in C.
  assert (RGB.valid (RGB.mk k k k) = true) as V
    by (unfold RGB.valid; cbn [RGB.r RGB.g RGB.b];
        rewrite !andb_true_iff, !Z.leb_le; lia).
  destruct (RGB_to_hsl_total _ V) as (x & Ex & Vx).
  pose proof (HSL_valid_fields _ Vx) as (Hh & Hs & Hl).
  rewrite Ex in C. destruct (RGB_to_hsv (RGB.mk k k k)) as [y|] eqn:Ey; [|discriminate].
  rewrite !andb_true_iff, !Z.eqb_eq in C. destruct C as [[[C1 C2] C3] C4].
  destruct x as [xh xs xl], y as [yh ys yv]. cbn [HSL.h HSL.s HSL.l HSV.h HSV.s] in *. subst.
  unfold Color_hsv, Color.hsl, Color_lighten, Color_darken, c. cbn [Color.rgb].
  rewrite Ex, Ey. cbn [bind Color.new HSL.h HSL.s HSL.l].
  split; [eauto|]. split; [eauto|]. split.
  - destruct (HSL_to_rgb_grey 0 (Z.min 100 (xl + amount))) as (g & _ & ->); try lia.
    cbn [bind]. eauto.
  - destruct (HSL_to_rgb_grey 0 (Z.max 0 (xl - amount))) as (g & _ & ->); try lia.
    cbn [bind]. eauto.
Qed.

Lemma grey_stays_grey_witness :
  (exists l, Color.hsl (Color.mk (RGB.mk 128 128 128)) = Ok (HSL.mk 0 0 l)) /\
  (exists v, Color_hsv (Color.mk (RGB.mk 128 128 128)) = Ok (HSV.mk 0 0 v)) /\
  (exists g, Color_lighten (Color.mk (RGB.mk 128 128 128)) 10 = Ok (Color.mk (RGB.mk g g g))) /\
  (exists g, Color_darken (Color.mk (RGB.mk 128 128 128)) 10 = Ok (Color.mk (RGB.mk g g g))).
Proof. exact (grey_stays_grey 128 10 ltac:(lia) ltac:(lia)). Defined.

(** ** HSV *)

(** X13.  For every RGB value (channels in [0,255]), [to_hsv()] raises
    nothing and returns an HSV value with hue in [0,360) and saturation
    and value in [0,100]; [Color.hsv] returns the same. *)
Theorem to_hsv_returns (c : Color.t) :
  RGB.valid (Color.rgb c) = true ->
  exists x,
    RGB_to_hsv (Color.rgb c) = Ok x /\ Color_hsv c = Ok x /\
    0 <= HSV.h x < 360 /\ 0 <= HSV.s x <= 100 /\ 0 <= HSV.v x <= 100.
Proof.
  intros V. destruct (RGB_to_hsv_total _ V) as (x & E & Vx).
  exists x. split; [exact E|]. split; [exact E|]. apply HSV_valid_fields. exact Vx.
Qed.

Lemma to_hsv_returns_witness :
  exists x,
    RGB_to_hsv (RGB.mk 10 20 30) = Ok x /\ Color_hsv (Color.mk (RGB.mk 10 20 30)) = Ok x /\
    0 <= HSV.h x < 360 /\ 0 <= HSV.s x <= 100 /\ 0 <= HSV.v x <= 100.
Proof. exact (to_hsv_returns (Color.mk (RGB.mk 10 20 30)) eq_refl). Defined.

(** X14.  For every HSV value with hue in [0,360) and saturation and
    value in [0,100], [to_rgb()] raises nothing and returns an RGB value
    with channels in [0,255]: [hsv_to_rgb] always reaches one of its six
    cases.  [Color(hsv)] holds that RGB value. *)
Theorem hsv_to_rgb_returns (x : HSV.t) :
  HSV.valid x = true ->
  exists c,
    HSV.to_rgb x = Ok c /\ RGB.valid c = true /\ Color_of_hsv x = Ok (Color.mk c).
Proof.
  intros V. destruct (HSV_to_rgb_total _ V) as (c & E & Vc).
  exists c. split; [exact E|]. split; [exact Vc|].
  unfold Color_of_hsv. rewrite E. reflexivity.
Qed.

Lemma hsv_to_rgb_returns_witness :
  exists c,
    HSV.to_rgb (HSV.mk 210 66 11) = Ok c /\ RGB.valid c = true /\
    Color_of_hsv (HSV.mk 210 66 11) = Ok (Color.mk c).
Proof. exact (hsv_to_rgb_returns (HSV.mk 210 66 11) eq_refl). Defined.

(** X15.  For every HSL value and every HSV value with hue in [0,360)
    and the other two fields in [0,100], [to_hex()] raises nothing and
    returns [#] followed by exactly six lower-case hexadecimal digits. *)
Theorem to_hex_returns (x : HSL.t) (y : HSV.t) :
  HSL.valid x = true -> HSV.valid y = true ->
  (exists d, HSL_to_hex x = Ok (String "#" d) /\ String.length d = 6%nat /\
             all_chars is_lower_hex d = true) /\
  (exists d, HSV.to_hex y = Ok (String "#" d) /\ String.length d = 6%nat /\
             all_chars is_lower_hex d = true).
Proof.
  intros Vx Vy.
  destruct (HSL_to_rgb_total _ Vx) as (c1 & E1 & V1).
  destruct (HSV_to_rgb_total _ Vy) as (c2 & E2 & V2).
  destruct (to_hex_shape _ V1) as (d1 & H1 & L1 & A1).
  destruct (to_hex_shape _ V2) as (d2 & H2 & L2 & A2).
  unfold HSL_to_hex, HSV.to_hex. rewrite E1, E2. cbn [bind]. rewrite H1, H2.
  split; [exists d1|exists d2]; auto.
Qed.

Lemma to_hex_returns_witness :
  (exists d, HSL_to_hex (HSL.mk 210 50 7) = Ok (String "#" d) /\ String.length d = 6%nat /\
             all_chars is_lower_hex d = true) /\
  (exists d, HSV.to_hex (HSV.mk 210 66 11) = Ok (String "#" d) /\ String.length d = 6%nat /\
             all_chars is_lower_hex d = true).
Proof. exact (to_hex_returns (HSL.mk 210 50 7) (HSV.mk 210 66 11) eq_refl eq_refl). Defined.

(** ** The other palettes *)

(** X16.  For every colour [base] (channels in [0,255]) with [hsl()]
    equal to (h, s, l), [analogous(base, count, spread)] raises nothing
    and returns exactly [count] colours (none when [count <= 0]); the
    [i]-th is [Color(HSL(start + spread*i, s, l))] with
    [start = h - spread*(count-1) // 2], so the hues handed to the
    constructor advance by [spread]; when [count] is odd the middle
    colour is [Color(HSL(h, s, l))]. *)
Theorem analogous_shape (base : Color.t) (count spread : Z) :
  RGB.valid (Color.rgb base) = true ->
  exists x l,
    Color.hsl base = Ok x /\
    Palette_analogous base count spread = Ok l /\
    List.length l = Z.to_nat count /\
    (forall i, 0 <= i < count ->
       Color.new (Color.Hsl (HSL.new (HSL.h x - spread * (count - 1) / 2 + spread * i)
                               (HSL.s x) (HSL.l x)))
       = Ok (nth (Z.to_nat i) l base)) /\
    (forall m, 0 <= m -> count = 2 * m + 1 ->
       Color.new (Color.Hsl x) = Ok (nth (Z.to_nat m) l base)).
Proof.
  intros V. destruct (RGB_to_hsl_total _ V) as (x & Ex & Vx).
  unfold Palette_analogous, Color.hsl. rewrite Ex. cbn [bind].
  match goal with |- exists _ l, _ /\ mapM ?f _ = _ /\ _ => set (F := f) end.
  destruct (mapM_total F (range count)) as [l El].
  { intros i _. unfold F.
    destruct (Color_new_hsl (HSL.new ((HSL.h x - spread * (count - 1) / 2 + spread * i) mod 360)
                               (HSL.s x) (HSL.l x)) (HSL_new_valid _ _ _)) as (c & Ec & _).
    exists c. exact Ec. }
  exists x, l. split; [reflexivity|]. split; [exact El|].
  assert (forall i, 0 <= i < count ->
            Color.new (Color.Hsl (HSL.new (HSL.h x - spread * (count - 1) / 2 + spread * i)
                                    (HSL.s x) (HSL.l x)))
            = Ok (nth (Z.to_nat i) l base)) as Nth.
  { intros i Hi. rewrite <- HSL_new_mod.
    exact (mapM_nth F _ _ _ _ base El (range_nth count i Hi)). }
  split; [|split; [exact Nth|]].
  - rewrite (mapM_length _ _ _ El). apply range_length.
  - intros m Hm Ec. rewrite <- (Nth m) by lia. subst count.
    replace (2 * m + 1 - 1) with (m * 2) by lia.
    rewrite Z.mul_assoc, Z.div_mul by lia.
    replace (HSL.h x - spread * m + spread * m) with (HSL.h x) by lia.
    rewrite HSL_new_id by exact Vx. reflexivity.
Qed.

Lemma analogous_shape_witness :
  exists x l,
    Color.hsl (Color.mk (RGB.mk 255 107 107)) = Ok x /\
    Palette_analogous (Color.mk (RGB.mk 255 107 107)) 5 30 = Ok l /\
    List.length l = 5%nat /\
    Color.new (Color.Hsl x) = Ok (nth 2 l (Color.mk (RGB.mk 255 107 107))).
Proof.
  destruct (analogous_shape (Color.mk (RGB.mk 255 107 107)) 5 30 eq_refl)
    as (x & l & H1 & H2 & H3 & _ & H5).
  exists x, l. split; [exact H1|]. split; [exact H2|]. split; [exact H3|].
  exact (H5 2 ltac:(lia) eq_refl).
Defined.

(** X17.  For every colour [base] (channels in [0,255]) with [hsl()]
    equal to (h, s, l), [split_complementary(base, spread)] raises
    nothing and returns exactly three colours: [base],
    [Color(HSL(h + 180 - spread, s, l))] and
    [Color(HSL(h + 180 + spread, s, l))]; with [spread = 0] the second
    and the third are [base.complement()]. *)
Theorem split_complementary_shape (base : Color.t) (spread : Z) :
  RGB.valid (Color.rgb base) = true ->
  exists x c1 c2,
    Color.hsl base = Ok x /\
    Color.new (Color.Hsl (HSL.new (HSL.h x + 180 - spread) (HSL.s x) (HSL.l x))) = Ok c1 /\
    Color.new (Color.Hsl (HSL.new (HSL.h x + 180 + spread) (HSL.s x) (HSL.l x))) = Ok c2 /\
    Palette_split_complementary base spread = Ok [base; c1; c2] /\
    (spread = 0 -> Color.complement base = Ok c1 /\ c2 = c1).
Proof.
  intros V. destruct (RGB_to_hsl_total _ V) as (x & Ex & Vx).
  pose proof (HSL_valid_fields _ Vx) as (Hh & Hs & Hl).
  destruct (Color_new_hsl (HSL.new (HSL.h x + 180 - spread) (HSL.s x) (HSL.l x))
              (HSL_new_valid _ _ _)) as (c1 & E1 & _).
  destruct (Color_new_hsl (HSL.new (HSL.h x + 180 + spread) (HSL.s x) (HSL.l x))
              (HSL_new_valid _ _ _)) as (c2 & E2 & _).
  exists x, c1, c2. split; [exact Ex|]. split; [exact E1|]. split; [exact E2|]. split.
  - unfold Palette_split_complementary, Color.hsl. rewrite Ex. cbn [bind].
    rewrite !HSL_new_mod, E1. cbn [bind]. rewrite E2. reflexivity.
  - intros ->. rewrite Z.sub_0_r in E1. rewrite Z.add_0_r in E2.
    split; [|congruence].
    unfold Color.complement. rewrite Ex. cbn [bind]. rewrite <- E1.
    unfold HSL.new. rewrite !clamp_id by lia. reflexivity.
Qed.

Lemma split_complementary_shape_witness :
  exists x c1 c2,
    Color.hsl (Color.mk (RGB.mk 255 107 107)) = Ok x /\
    Palette_split_complementary (Color.mk (RGB.mk 255 107 107)) 30
    = Ok [Color.mk (RGB.mk 255 107 107); c1; c2].
Proof.
  destruct (split_complementary_shape (Color.mk (RGB.mk 255 107 107)) 30 eq_refl)
    as (x & c1 & c2 & H1 & _ & _ & H4 & _).
  exists x, c1, c2. split; assumption.
Defined.

(** ** [hsl] strings *)

(** X18.  An ASCII string that, trimmed and lower-cased, starts with
    [hsl] is matched against [hsla?\((\d+),\s*(\d+)%?,\s*(\d+)%?]:
    whitespace is permitted only after each comma, a percent sign may
    follow the second and the third number, and what follows is ignored.
    On a match whose three numbers have at most 4300 digits each (the
    limit of [int] on a string) the colour is [Color(HSL(h, s, l))] for
    the decimal values of the three groups, the hue taken modulo 360 and
    the other two clamped into [0,100]; on a match with a longer number,
    and on no match, the construction fails with ValueError. *)
Theorem parse_hsl_accepts (s : string) :
  let c := py_lower (py_strip s) in
  py_isascii s = true ->
  startswith c "hsl" = true ->
  (forall g1 g2 g3,
      hsl_shape c g1 g2 g3 ->
      ((String.length g1 <= 4300)%nat -> (String.length g2 <= 4300)%nat ->
       (String.length g3 <= 4300)%nat ->
       Color.new (Color.Str s)
       = Color.new (Color.Hsl (HSL.new (decimal_value g1) (decimal_value g2)
                                 (decimal_value g3)))) /\
      ((4300 < String.length g1 \/ 4300 < String.length g2 \/ 4300 < String.length g3)%nat ->
       Color.new (Color.Str s) = Raise ValueError)) /\
  ((forall g1 g2 g3, ~ hsl_shape c g1 g2 g3) ->
   Color.new (Color.Str s) = Raise ValueError).
Proof.
  intros c _ Hc.
  assert (Color._parse_string s = Color._parse_hsl_string c) as D.
  { unfold Color._parse_string. fold c.
    destruct (startswith_spec _ _ Hc) as [t Et]. rewrite Et.
    change (startswith ("hsl" ++ t) "#") with false.
    change (startswith ("hsl" ++ t) "rgb") with false.
    rewrite <- Et, Hc. reflexivity. }
  cbn [Color.new]. rewrite D. unfold Color._parse_hsl_string. split.
  - intros g1 g2 g3 Sh. rewrite (match_hsl_complete _ _ _ _ Sh).
    destruct Sh as (a & w1 & p & w2 & rest & _ & _ & _ & N1 & D1 & N2 & D2 & N3 & D3 & _).
    split.
    + intros L1 L2 L3. rewrite !int_of_string_digits by assumption. reflexivity.
    + intros Long. rewrite three_decimals_too_long by assumption. reflexivity.
  - intros No. destruct (Color.match_hsl c) as [[[g1 g2] g3]|] eqn:E; [|reflexivity].
    exfalso. apply (No g1 g2 g3). apply match_hsl_sound. exact E.
Qed.

Lemma parse_hsl_accepts_witness :
  Color.new (Color.Str " HSLA(570,  150%,50, 0.5)")
  = Color.new (Color.Hsl (HSL.mk 210 100 50)).
Proof.
  destruct (parse_hsl_accepts " HSLA(570,  150%,50, 0.5)" eq_refl eq_refl) as [H _].
  apply (H "570" "150" "50")%string; [|cbn; lia|cbn; lia|cbn; lia].
  exists "a"%string, "  "%string, "%"%string, EmptyString, ", 0.5)"%string.
  repeat split; try discriminate; right; reflexivity.
Defined.

(** ** The default blend *)

(** X19.  For all colours [a] and [b] (channels in [0,255]), the blend
    at the default ratio 0.5 has, in each channel, the floor of the mean
    of the two channels, [(x + y) // 2]; so [a.blend(b)] and
    [b.blend(a)] are the same colour. *)
Theorem blend_half (a b : Color.t) :
  RGB.valid (Color.rgb a) = true -> RGB.valid (Color.rgb b) = true ->
  Color.blend a b (PyFloat 0.5)
  = Ok (Color.mk (RGB.mk ((RGB.r (Color.rgb a) + RGB.r (Color.rgb b)) / 2)
                         ((RGB.g (Color.rgb a) + RGB.g (Color.rgb b)) / 2)
                         ((RGB.b (Color.rgb a) + RGB.b (Color.rgb b)) / 2))) /\
  Color.blend b a (PyFloat 0.5) = Color.blend a b (PyFloat 0.5).
Proof.
  intros Va Vb.
  pose proof (valid_channels _ Va) as (Ha1 & Ha2 & Ha3).
  pose proof (valid_channels _ Vb) as (Hb1 & Hb2 & Hb3).
  unfold Color.blend. rewrite !blend_channel_half by assumption. cbn [bind Color.new].
  split.
  - unfold RGB.new. rewrite !clamp_id; [reflexivity| | |];
      Z.to_euclidean_division_equations; lia.
  - do 3 f_equal; f_equal; lia.
Qed.

Lemma blend_half_witness :
  Color.blend (Color.mk (RGB.mk 255 107 107)) (Color.mk (RGB.mk 0 0 255)) (PyFloat 0.5)
  = Ok (Color.mk (RGB.mk 127 53 181)).
Proof.
  exact (proj1 (blend_half (Color.mk (RGB.mk 255 107 107)) (Color.mk (RGB.mk 0 0 255))
                  eq_refl eq_refl)).
Defined.

(** ** Greys, there and back *)

(** X20.  For a grey of channel [k] in [0,255], converting to HSL and
    back, and converting to HSV and back, both return a grey, of a
    channel between [k - 3] and [k]. *)
Theorem grey_roundtrip (k : Z) :
  0 <= k <= 255 ->
  (exists g, (x <- RGB_to_hsl (RGB.mk k k k) ;; HSL.to_rgb x) = Ok (RGB.mk g g g) /\
             k - 3 <= g <= k) /\
  (exists g, (x <- RGB_to_hsv (RGB.mk k k k) ;; HSV.to_rgb x) = Ok (RGB.mk g g g) /\
             k - 3 <= g <= k).
Proof.
  intros Hk. pose proof (allb_spec 256 _ grey_roundtrips_checked k ltac:(lia)) as C.
  unfold grey_roundtrip_check in C. apply andb_true_iff in C. destruct C as [C1 C2].
  split; apply grey_back_spec; assumption.
Qed.

Lemma grey_roundtrip_witness :
  (exists g, (x <- RGB_to_hsl (RGB.mk 128 128 128) ;; HSL.to_rgb x) = Ok (RGB.mk g g g) /\
             128 - 3 <= g <= 128) /\
  (exists g, (x <- RGB_to_hsv (RGB.mk 128 128 128) ;; HSV.to_rgb x) = Ok (RGB.mk g g g) /\
             128 - 3 <= g <= 128).
Proof. exact (grey_roundtrip 128 ltac:(lia)). Defined.
